(** * Discovery agent: link and host discovery controller

    A shallow embedding of the control logic of package [discovery]
    (the controller with its link and host registries, the lifecycle
    state machine and the configuration adapter), followed by the
    properties established about it.

    Conventions of the embedding.
    - [uint32] values (port numbers) are [N]; they are only compared and
      printed, never used in arithmetic, so no wrap-around is involved.
    - [int64] configuration values are [Z].
    - A [time.Time] is the [Z] number of nanoseconds of its clock
      reading; [time.Duration] is a [Z] number of nanoseconds.
    - A Go map is [GoMap]: either the nil map or an allocated finite
      map.  Reading and deleting on a nil map are harmless, storing into
      it panics.
    - Methods of the controller run in a state-and-panic monad over the
      process environment (clock, log, configuration file, running
      tickers) and the controller object.  Every method that takes the
      controller lock is one atomic step of that monad.
    - The order in which [range] visits a map is not fixed by Go; the
      functions that range over a registry take the visiting order as an
      argument, and the theorems quantify over every order that is a
      permutation of the map's entries. *)

From Stdlib Require Import ZArith NArith Ascii String List Permutation Sorted Lia.
From stdpp Require Import base option gmap strings list fin_maps pretty sorting.

Local Open Scope string_scope.
Local Open Scope Z_scope.

(** ** Result of running code that may panic *)

Inductive Result (A : Type) : Type :=
| Ok (a : A)
| Panic (msg : string).
Arguments Ok {A} a.
Arguments Panic {A} msg.

Definition M (S A : Type) : Type := S -> Result (A * S).

Definition ret {S A : Type} (a : A) : M S A := fun s => Ok (a, s).

Definition bind {S A B : Type} (m : M S A) (k : A -> M S B) : M S B :=
  fun s => match m s with
           | Ok (a, s') => k a s'
           | Panic msg => Panic msg
           end.

Definition panic {S A : Type} (msg : string) : M S A := fun _ => Panic msg.
Definition gets {S A : Type} (f : S -> A) : M S A := fun s => Ok (f s, s).
Definition modify {S : Type} (f : S -> S) : M S unit := fun s => Ok (tt, f s).

#[global] Instance M_ret {S : Type} : MRet (M S) := @ret S.
#[global] Instance M_bind {S : Type} : MBind (M S) :=
  fun A B k m => bind m k.

(** [for _, x := range xs { body x }] over an already fixed visiting order. *)
Fixpoint forEach {S A : Type} (xs : list A) (body : A -> M S unit) : M S unit :=
  match xs with
  | [] => ret tt
  | x :: rest => body x;; forEach rest body
  end.

(** ** Go maps *)

Section GoMap.
Context {K : Type} `{Countable K} {V : Type}.

Inductive GoMap : Type :=
| NilMap
| MadeMap (m : gmap K V).

(** [make(map[K]V)] *)
Definition make_map : GoMap := MadeMap ∅.

(** [v, ok := m[k]]: [None] stands for [ok = false]. *)
Definition map_get (g : GoMap) (k : K) : option V :=
  match g with
  | NilMap => None
  | MadeMap m => m !! k
  end.

(** [m[k] = v]; storing into the nil map panics. *)
Definition map_set (g : GoMap) (k : K) (v : V) : Result GoMap :=
  match g with
  | NilMap => Panic "assignment to entry in nil map"
  | MadeMap m => Ok (MadeMap (<[k := v]> m))
  end.

(** [delete(m, k)]; a no-op on the nil map. *)
Definition map_delete (g : GoMap) (k : K) : GoMap :=
  match g with
  | NilMap => NilMap
  | MadeMap m => MadeMap (delete k m)
  end.

(** The entries a [range] loop visits, in some order. *)
Definition entries (g : GoMap) : list (K * V) :=
  match g with
  | NilMap => []
  | MadeMap m => map_to_list m
  end.

(** [order] is a possible visiting order of [range g]. *)
Definition range_order (g : GoMap) (order : list (K * V)) : Prop :=
  order ≡ₚ entries g.
End GoMap.
Arguments GoMap K {_ _} V.

(** ** Time *)

Definition Time : Type := Z.
Definition Duration : Type := Z.

Definition Second : Duration := 1000000000.
Definition Minute : Duration := 60 * Second.

(** [t.Add(d)] *)
Definition Time_Add (t : Time) (d : Duration) : Time := t + d.
(** [t.Before(u)] *)
Definition Time_Before (t u : Time) : bool := t <? u.
(** [t.UnixNano()] *)
Definition UnixNano (t : Time) : Z := t.
(** The zero [time.Time], the value of a field that was never set. *)
Definition zeroTime : Time := -62135596800 * Second.
(** [uint64(x)] for an [int64] [x] *)
Definition uint64_of_int64 (x : Z) : Z := x mod 2 ^ 64.

(** ** Data model *)

(** [type State int] with its [iota] constants *)
Inductive State : Type :=
| Disconnected
| Connected
| PipelineConfigAvailable
| Elected
| PortsDiscovered
| Configured
| Reconfigured
| Stopped.

#[global] Instance State_eq_dec : EqDecision State.
Proof. solve_decision. Defined.

Record Port : Type := mkPort {
  port_ID : string;
  port_Number : N;
  port_Status : string;
  port_LastChange : Z
}.

Record Link : Type := mkLink {
  EgressPort : N;
  EgressDeviceID : string;
  IngressPort : N;
  link_LastUpdate : Time
}.

Record Host : Type := mkHost {
  MAC : string;
  IP : string;
  host_Port : N;
  host_LastUpdate : Time
}.

Record Config : Type := mkConfig {
  EmitFrequency : Z;
  MaxLinkAge : Z;
  PipelineValidationFrequency : Z;
  PortRediscoveryFrequency : Z;
  LinkPruneFrequency : Z
}.

(** [time.Duration(n) * time.Second] on [int64], with its wrap-around *)
Definition int64_wrap (z : Z) : Z := (z + 2 ^ 63) mod 2 ^ 64 - 2 ^ 63.
Definition seconds (n : Z) : Duration := int64_wrap (n * Second).

(** ** The export tree and its notifications

    Modelled from the spec: the hierarchical configuration tree
    ([configtree.Node] behind [c.Root()]) is an external collaborator that
    "accepts hierarchical path+typed-value add/update/delete operations".
    A tree is the finite map from the path of each node to the value the
    node holds ([None] for a node without a value); deleting a path
    removes the node at that path together with everything below it. *)

Inductive TypedValue : Type :=
| IntVal (z : Z)
| StringVal (s : string)
| UintVal (z : Z).

Abbreviation Tree := (gmap string (option TypedValue)).

Definition NewRoot : Tree := ∅.

(** [root.AddPath(path, value)] *)
Definition AddPath (path : string) (value : TypedValue) (t : Tree) : Tree :=
  <[path := Some value]> t.

(** [root.Add(name, nil, nil)]: a node that holds no value *)
Definition AddNode (name : string) (t : Tree) : Tree :=
  <[name := None]> t.

(** [k] is the node at [path] or lies below it. *)
Definition under (path k : string) : bool :=
  String.eqb k path || String.prefix (path +:+ "/") k.

(** [root.DeletePath(path)] *)
Definition DeletePath (path : string) (t : Tree) : Tree :=
  filter (fun kv => under path kv.1 = false) t.

(** [root.GetPath(path)]: the node, [None] for the nil node *)
Definition GetPath (path : string) (t : Tree) : option (option TypedValue) :=
  t !! path.

(** [node.Value()]; the receiver must not be nil. *)
Definition Node_Value {S : Type} (node : option (option TypedValue))
  : M S (option TypedValue) :=
  match node with
  | None => panic "invalid memory address or nil pointer dereference"
  | Some v => ret v
  end.

(** [value.GetIntVal()]: the generated getter, 0 unless the value is an
    integer value. *)
Definition GetIntVal (v : option TypedValue) : Z :=
  match v with
  | Some (IntVal z) => z
  | _ => 0
  end.

(** [gnmi.Notification] inside a [gnmi.SubscribeResponse] *)
Record Notification : Type := mkNotification {
  Timestamp : Z;
  Update : list (string * TypedValue);
  Delete : list string
}.

(** ** The process environment *)

Inductive Level : Type := INFO | WARN.

Record LogEntry : Type := mkLog { level : Level; text : string }.

(** Modelled from the spec: the configuration storage collaborator
    (the YAML file read and written through viper).  The file is absent,
    present but not YAML, or YAML whose [config] section gives some keys
    a value. *)
Inductive YamlValue : Type :=
| YInt (z : Z)
| YOther (raw : string).

Inductive ConfigFile : Type :=
| FileAbsent
| FileUnparsable (err : string)
| FileYaml (section : gmap string YamlValue).

(** A [time.Ticker] known to the runtime *)
Record Ticker : Type := mkTicker { period : Duration; stopped : bool }.

Record Env : Type := mkEnv {
  clock : nat -> Time;        (* the successive readings of [time.Now()] *)
  reads : nat;                (* how many readings were taken so far *)
  journal : list LogEntry;    (* the log, newest entry first *)
  configFile : ConfigFile;    (* what is stored at [configFile] *)
  writeError : option string; (* the error [WriteConfigAs] would return *)
  tickers : list Ticker       (* the tickers created so far *)
}.

Definition time_Now : M Env Time :=
  fun e => Ok (clock e (reads e),
               mkEnv (clock e) (S (reads e)) (journal e) (configFile e)
                     (writeError e) (tickers e)).

Definition logf (l : Level) (msg : string) : M Env unit :=
  fun e => Ok (tt, mkEnv (clock e) (reads e) (mkLog l msg :: journal e)
                         (configFile e) (writeError e) (tickers e)).

Definition set_configFile (f : ConfigFile) : M Env unit :=
  fun e => Ok (tt, mkEnv (clock e) (reads e) (journal e) f
                         (writeError e) (tickers e)).

(** [time.NewTicker(d)]; it panics when [d] is not positive.  The result
    is the position of the ticker in [tickers]. *)
Definition NewTicker (d : Duration) : M Env nat :=
  fun e => if d <=? 0
           then Panic "non-positive interval for NewTicker"
           else Ok (length (tickers e),
                    mkEnv (clock e) (reads e) (journal e) (configFile e)
                          (writeError e) (tickers e ++ [mkTicker d false])).

(** ** Configuration: [config.go] *)

Definition defaultConfig : Config :=
  {| EmitFrequency := 5;
     MaxLinkAge := 30;
     PipelineValidationFrequency := 60;
     PortRediscoveryFrequency := 60;
     LinkPruneFrequency := 2 |}.

(** [cfg.ReadInConfig()]: the settings read, or the error *)
Definition ReadInConfig (f : ConfigFile) : gmap string YamlValue * option string :=
  match f with
  | FileAbsent => (∅, Some "Config File Not Found")
  | FileUnparsable err => (∅, Some ("While parsing config: " +:+ err))
  | FileYaml section => (section, None)
  end.

(** Decoding of one field by [cfg.Unmarshal]: a key that is not set leaves
    the field as it is, a value that is not an integer is an error. *)
Definition decodeField (settings : gmap string YamlValue) (key : string)
    (current : Z) : Z * bool :=
  match settings !! key with
  | None => (current, false)
  | Some (YInt z) => (z, false)
  | Some (YOther _) => (current, true)
  end.

(** [cfg.Unmarshal(wrapper)]: the decoded config and whether decoding
    reported an error *)
Definition Unmarshal (settings : gmap string YamlValue) (c : Config)
  : Config * option string :=
  let '(a, ea) := decodeField settings "emitFrequency" (EmitFrequency c) in
  let '(b, eb) := decodeField settings "maxLinkAge" (MaxLinkAge c) in
  let '(d, ed) := decodeField settings "pipelineValidationFrequency"
                              (PipelineValidationFrequency c) in
  let '(f, ef) := decodeField settings "portRediscoveryFrequency"
                              (PortRediscoveryFrequency c) in
  let '(g, eg) := decodeField settings "linkPruneFrequency"
                              (LinkPruneFrequency c) in
  (mkConfig a b d f g,
   if ea || eb || ed || ef || eg then Some "error(s) decoding" else None).

Definition loadConfig : M Env Config :=
  let wrapper := defaultConfig in
  f ← gets configFile;
  let '(settings, err) := ReadInConfig f in
  match err with
  | Some e => logf WARN ("Unable to load config file; using defaults: " +:+ e)
  | None => ret tt
  end;;
  let '(wrapper, err) := Unmarshal settings wrapper in
  match err with
  | Some e => logf WARN ("Unable to parse config file; using defaults: " +:+ e)
  | None => ret tt
  end;;
  ret wrapper.

(** What [WriteConfigAs] stores for a [Config] set under the key [config] *)
Definition settingsOf (c : Config) : gmap string YamlValue :=
  <["emitFrequency" := YInt (EmitFrequency c)]>
  (<["maxLinkAge" := YInt (MaxLinkAge c)]>
  (<["pipelineValidationFrequency" := YInt (PipelineValidationFrequency c)]>
  (<["portRediscoveryFrequency" := YInt (PortRediscoveryFrequency c)]>
  (<["linkPruneFrequency" := YInt (LinkPruneFrequency c)]> ∅)))).

Definition saveConfig (config : Config) : M Env unit :=
  werr ← gets writeError;
  match werr with
  | Some e => logf WARN ("Unable to save config file: " +:+ e)
  | None => set_configFile (FileYaml (settingsOf config))
  end.

(** [createConfigRoot] *)
Definition createConfigRoot (agentID : string) (config : Config) : Tree :=
  AddNode "state/links"
  (AddPath "config/linkPruneFrequency" (IntVal (LinkPruneFrequency config))
  (AddPath "config/portRediscoveryFrequency" (IntVal (PortRediscoveryFrequency config))
  (AddPath "config/pipelineValidationFrequency" (IntVal (PipelineValidationFrequency config))
  (AddPath "config/maxLinkAge" (IntVal (MaxLinkAge config))
  (AddPath "config/emitFrequency" (IntVal (EmitFrequency config))
  (AddPath "state/agent-id" (StringVal agentID) NewRoot)))))).

(** ** The controller: [controller.go] *)

(** The fields of [Controller] the discovery logic reads and writes.  The
    export tree [root] and the notifications [sent] to the subscribe
    responders belong to the embedded [GNMIConfigurable]; [ctxCancel] is
    [None] for a nil cancel function and otherwise tells whether it was
    called. *)
Record Controller : Type := mkController {
  TargetAddress : string;
  IngressDeviceID : string;
  state : State;
  config : Config;
  ports : GoMap string Port;
  links : GoMap N Link;
  hosts : GoMap string Host;
  root : Tree;
  sent : list Notification;
  ctxCancel : option bool
}.

Definition set_state (s : State) (c : Controller) : Controller :=
  mkController (TargetAddress c) (IngressDeviceID c) s (config c) (ports c)
               (links c) (hosts c) (root c) (sent c) (ctxCancel c).
Definition set_config (f : Config) (c : Controller) : Controller :=
  mkController (TargetAddress c) (IngressDeviceID c) (state c) f (ports c)
               (links c) (hosts c) (root c) (sent c) (ctxCancel c).
Definition set_links (l : GoMap N Link) (c : Controller) : Controller :=
  mkController (TargetAddress c) (IngressDeviceID c) (state c) (config c) (ports c)
               l (hosts c) (root c) (sent c) (ctxCancel c).
Definition set_hosts (h : GoMap string Host) (c : Controller) : Controller :=
  mkController (TargetAddress c) (IngressDeviceID c) (state c) (config c) (ports c)
               (links c) h (root c) (sent c) (ctxCancel c).
Definition set_root (t : Tree) (c : Controller) : Controller :=
  mkController (TargetAddress c) (IngressDeviceID c) (state c) (config c) (ports c)
               (links c) (hosts c) t (sent c) (ctxCancel c).
Definition push_sent (n : Notification) (c : Controller) : Controller :=
  mkController (TargetAddress c) (IngressDeviceID c) (state c) (config c) (ports c)
               (links c) (hosts c) (root c) (n :: sent c) (ctxCancel c).
Definition set_ctxCancel (x : option bool) (c : Controller) : Controller :=
  mkController (TargetAddress c) (IngressDeviceID c) (state c) (config c) (ports c)
               (links c) (hosts c) (root c) (sent c) x.

Record World : Type := mkWorld { env : Env; ctl : Controller }.

Definition inEnv {A : Type} (m : M Env A) : M World A :=
  fun w => match m (env w) with
           | Ok (a, e) => Ok (a, mkWorld e (ctl w))
           | Panic msg => Panic msg
           end.
Definition getC {A : Type} (f : Controller -> A) : M World A :=
  gets (fun w => f (ctl w)).
Definition modC (f : Controller -> Controller) : M World unit :=
  modify (fun w => mkWorld (env w) (f (ctl w))).
(** Running code whose only possible failure is the one of a map store *)
Definition lift {S A : Type} (r : Result A) : M S A :=
  fun s => match r with
           | Ok a => Ok (a, s)
           | Panic msg => Panic msg
           end.

(** [fmt.Sprintf] with the verb [%d] on a [uint32] *)
Definition fmt_d (n : N) : string := pretty n.
(** [fmt.Sprintf] with the verb [%s] on a [uint32] *)
Definition fmt_s_uint32 (n : N) : string := "%!s(uint32=" +:+ pretty n +:+ ")".

(** [NewController]: [ports] and [links] are made, [hosts] is left at its
    zero value, the nil map; [state] is left at [Disconnected]. *)
Definition NewController (targetAddress agentID : string) : M Env Controller :=
  config ← loadConfig;
  ret {| TargetAddress := targetAddress;
         IngressDeviceID := agentID;
         state := Disconnected;
         config := config;
         ports := make_map;
         links := make_map;
         hosts := NilMap;
         root := createConfigRoot agentID config;
         sent := [];
         ctxCancel := None |}.

Definition SendToAllResponders (n : Notification) : M World unit :=
  modC (push_sent n).

(** *** Mirroring into the export tree: [config.go] *)

Definition addLinkToTree (ingressPort egressPort : N) (egressDeviceID : string)
  : M World unit :=
  let portPath := "state/link[port=" +:+ fmt_d ingressPort +:+ "]/egress-port" in
  let portVal := IntVal (Z.of_N egressPort) in
  let devicePath := "state/link[port=" +:+ fmt_d ingressPort +:+ "]/egress-device" in
  let deviceVal := StringVal egressDeviceID in
  let createTimePath := "state/link[port=" +:+ fmt_d ingressPort +:+ "]/create-time" in
  t ← inEnv time_Now;
  let createTimeVal := UintVal (uint64_of_int64 (UnixNano t)) in
  modC (fun c => set_root (AddPath portPath portVal (root c)) c);;
  modC (fun c => set_root (AddPath devicePath deviceVal (root c)) c);;
  modC (fun c => set_root (AddPath createTimePath createTimeVal (root c)) c);;
  ts ← inEnv time_Now;
  SendToAllResponders
    {| Timestamp := UnixNano ts;
       Update := [(portPath, portVal); (devicePath, deviceVal);
                  (createTimePath, createTimeVal)];
       Delete := [] |}.

Definition removeLinkFromTree (ingressPort : N) : M World unit :=
  let path := "state/link[port=" +:+ fmt_d ingressPort +:+ "]" in
  modC (fun c => set_root (DeletePath path (root c)) c);;
  ts ← inEnv time_Now;
  SendToAllResponders
    {| Timestamp := UnixNano ts; Update := []; Delete := [path] |}.

Definition addHostToTree (macString ipString : string) (port : N) : M World unit :=
  let portPath := "state/host[mac=" +:+ macString +:+ "]/port" in
  let portVal := IntVal (Z.of_N port) in
  let ipPath := "state/link[mac=" +:+ macString +:+ "]/ip-address" in
  let ipVal := StringVal ipString in
  let createTimePath := "state/link[mac=" +:+ macString +:+ "]/create-time" in
  t ← inEnv time_Now;
  let createTimeVal := UintVal (uint64_of_int64 (UnixNano t)) in
  modC (fun c => set_root (AddPath portPath portVal (root c)) c);;
  modC (fun c => set_root (AddPath ipPath ipVal (root c)) c);;
  modC (fun c => set_root (AddPath createTimePath createTimeVal (root c)) c);;
  ts ← inEnv time_Now;
  SendToAllResponders
    {| Timestamp := UnixNano ts;
       Update := [(portPath, portVal); (ipPath, ipVal);
                  (createTimePath, createTimeVal)];
       Delete := [] |}.

Definition removeHostFromTree (macString : string) : M World unit :=
  let path := "state/host[mac=" +:+ macString +:+ "]" in
  modC (fun c => set_root (DeletePath path (root c)) c);;
  ts ← inEnv time_Now;
  SendToAllResponders
    {| Timestamp := UnixNano ts; Update := []; Delete := [path] |}.

(** *** State *)

Definition getState : M World State := getC state.

Definition setState (s : State) : M World unit := modC (set_state s).

Definition setStateIf (condition s : State) : M World unit :=
  cur ← getC state;
  if decide (cur = condition) then modC (set_state s) else ret tt.

(** [Stop] *)
Definition Stop : M World unit :=
  inEnv (logf INFO "Stopping...");;
  setState Stopped;;
  cancel ← getC ctxCancel;
  match cancel with
  | Some _ => modC (set_ctxCancel (Some true))
  | None => ret tt
  end.

(** [UpdateConfig] *)
Definition UpdateConfig : M World unit :=
  r ← getC root;
  a ← Node_Value (GetPath "config/emitFrequency" r);
  modC (fun c => set_config (mkConfig (GetIntVal a) (MaxLinkAge (config c))
         (PipelineValidationFrequency (config c))
         (PortRediscoveryFrequency (config c)) (LinkPruneFrequency (config c))) c);;
  b ← Node_Value (GetPath "config/maxLinkAge" r);
  modC (fun c => set_config (mkConfig (EmitFrequency (config c)) (GetIntVal b)
         (PipelineValidationFrequency (config c))
         (PortRediscoveryFrequency (config c)) (LinkPruneFrequency (config c))) c);;
  d ← Node_Value (GetPath "config/pipelineValidationFrequency" r);
  modC (fun c => set_config (mkConfig (EmitFrequency (config c)) (MaxLinkAge (config c))
         (GetIntVal d)
         (PortRediscoveryFrequency (config c)) (LinkPruneFrequency (config c))) c);;
  f ← Node_Value (GetPath "config/portRediscoveryFrequency" r);
  modC (fun c => set_config (mkConfig (EmitFrequency (config c)) (MaxLinkAge (config c))
         (PipelineValidationFrequency (config c))
         (GetIntVal f) (LinkPruneFrequency (config c))) c);;
  g ← Node_Value (GetPath "config/linkPruneFrequency" r);
  modC (fun c => set_config (mkConfig (EmitFrequency (config c)) (MaxLinkAge (config c))
         (PipelineValidationFrequency (config c))
         (PortRediscoveryFrequency (config c)) (GetIntVal g)) c);;
  cfg ← getC config;
  inEnv (saveConfig cfg);;
  setStateIf Configured Reconfigured.

(** *** The link and host registries *)

Definition with_link_LastUpdate (t : Time) (l : Link) : Link :=
  mkLink (EgressPort l) (EgressDeviceID l) (IngressPort l) t.
Definition with_host_LastUpdate (t : Time) (h : Host) : Host :=
  mkHost (MAC h) (IP h) (host_Port h) t.

(** A write through the pointer a registry holds under [k] *)
Definition map_poke {K : Type} `{Countable K} {V : Type}
    (f : V -> V) (k : K) (g : GoMap K V) : GoMap K V :=
  match g with
  | NilMap => NilMap
  | MadeMap m => MadeMap (alter f k m)
  end.

(** [updateIngressLink].  The test is [!ok || ...]: without an entry the
    fields of [link] are not read.  After the test, [link] points to the
    object the registry holds under [ingressPort], so the final assignment
    to [link.LastUpdate] is a write to that object. *)
Definition updateIngressLink (ingressPort egressPort : N)
    (egressDeviceID : string) : M World unit :=
  ls ← getC links;
  (if match map_get ls ingressPort with
      | None => true
      | Some link =>
          negb (EgressPort link =? egressPort)%N
          || negb (String.eqb (EgressDeviceID link) egressDeviceID)
      end
   then
     ls' ← lift (map_set ls ingressPort
                   (mkLink egressPort egressDeviceID ingressPort zeroTime));
     modC (set_links ls');;
     inEnv (logf INFO ("Added a new link: " +:+ fmt_d ingressPort +:+ " <- "
                       +:+ egressDeviceID +:+ "/" +:+ fmt_d egressPort));;
     addLinkToTree ingressPort egressPort egressDeviceID
   else ret tt);;
  now ← inEnv time_Now;
  modC (fun c => set_links (map_poke (with_link_LastUpdate now) ingressPort (links c)) c).

Definition deleteLink (ingressPort : N) : M World unit :=
  modC (fun c => set_links (map_delete (links c) ingressPort) c);;
  removeLinkFromTree ingressPort.

Definition deleteHost (macString : string) : M World unit :=
  modC (fun c => set_hosts (map_delete (hosts c) macString) c);;
  removeHostFromTree macString.

(** [pruneLinks], visiting the registry in the given order *)
Definition pruneLinks (order : list (N * Link)) : M World unit :=
  now ← inEnv time_Now;
  let limit := Time_Add now (-30 * Second) in
  forEach order (fun '(ingressPort, link) =>
    if Time_Before (link_LastUpdate link) limit
    then
      deleteLink ingressPort;;
      inEnv (logf INFO ("Pruned stale link: " +:+ fmt_d (IngressPort link) +:+ " <- "
                        +:+ EgressDeviceID link +:+ "/" +:+ fmt_d (EgressPort link)))
    else ret tt).

(** [updateHost] *)
Definition updateHost (macString ipString : string) (port : N) : M World unit :=
  hs ← getC hosts;
  (if match map_get hs macString with
      | None => true
      | Some host =>
          negb (String.eqb (MAC host) macString)
          || negb (String.eqb (IP host) ipString)
          || negb (host_Port host =? port)%N
      end
   then
     hs' ← lift (map_set hs macString (mkHost macString ipString port zeroTime));
     modC (set_hosts hs');;
     inEnv (logf INFO ("Added a new host: " +:+ macString +:+ " <- "
                       +:+ ipString +:+ "/" +:+ fmt_d port));;
     addHostToTree macString ipString port
   else ret tt);;
  now ← inEnv time_Now;
  modC (fun c => set_hosts (map_poke (with_host_LastUpdate now) macString (hosts c)) c).

(** [pruneHosts], visiting the registry in the given order *)
Definition pruneHosts (order : list (string * Host)) : M World unit :=
  now ← inEnv time_Now;
  let limit := Time_Add now (-30 * Minute) in
  forEach order (fun '(mac, host) =>
    if Time_Before (host_LastUpdate host) limit
    then
      deleteHost mac;;
      inEnv (logf INFO ("Pruned stale host: " +:+ MAC host +:+ " <- "
                        +:+ IP host +:+ "/" +:+ fmt_s_uint32 (host_Port host)))
    else ret tt).

(** [sort.SliceStable]: the stable sort of a slice by [less].  An element
    is placed before the first later element that is not smaller. *)
Fixpoint insertStable {A : Type} (less : A -> A -> bool) (x : A) (l : list A) : list A :=
  match l with
  | [] => [x]
  | y :: l' => if less y x then y :: insertStable less x l' else x :: y :: l'
  end.

Definition SliceStable {A : Type} (less : A -> A -> bool) (l : list A) : list A :=
  foldr (insertStable less) [] l.

(** [GetLinks], visiting the registry in the given order *)
Definition GetLinks (order : list (N * Link)) : M World (list Link) :=
  let links := foldl (fun acc kv => (acc ++ [kv.2])%list) [] order in
  ret (SliceStable (fun a b => (IngressPort a <? IngressPort b)%N) links).

(** ** The worker: [run] and its per-state handlers *)

(** A tick the steady-state loop receives: which ticker fired.  The prune
    tick carries the orders in which the two prune passes visit their
    registries. *)
Inductive Tick : Type :=
| TickLinks
| TickPorts
| TickConf
| TickPrune (linkOrder : list (N * Link)) (hostOrder : list (string * Host)).

(** A call made by another goroutine: [Stop] and [UpdateConfig] by
    callers of the controller, the two updates by the packet listener. *)
Inductive Call : Type :=
| CallStop
| CallUpdateConfig
| CallUpdateIngressLink (ingressPort egressPort : N) (egressDeviceID : string)
| CallUpdateHost (macString ipString : string) (port : N).

Definition runCall (call : Call) : M World unit :=
  match call with
  | CallStop => Stop
  | CallUpdateConfig => UpdateConfig
  | CallUpdateIngressLink p e d => updateIngressLink p e d
  | CallUpdateHost m i p => updateHost m i p
  end.

(** One turn of the steady-state loop: the calls of other goroutines that
    run while the worker waits in [select], then the tick it receives. *)
Record Round : Type := mkRound { meanwhile : list Call; fired : Tick }.

(** How an execution of the steady-state loop ends: the loop was left, or
    the worker is still waiting in [select] for a tick. *)
Inductive LoopEnd : Type := Exited | Waiting.

(** [reenterDiscovery] *)
Definition reenterDiscovery : M World unit := setState Configured.

Section Worker.
(** The handlers of this package that talk to the device; their code is
    not part of the discovery logic embedded here. *)
Variables (waitForDeviceConnection waitForPipelineConfiguration
           waitForMastershipArbitration discoverPorts
           programPacketInterceptRules emitLLDPPackets
           validatePipelineConfiguration : M World unit).

(** [setupForDiscovery]; the packet listener it starts runs as another
    goroutine, whose calls are the [Call]s above. *)
Definition setupForDiscovery : M World unit :=
  programPacketInterceptRules;;
  setState Configured.

(** The body of one [select] case *)
Definition onTick (t : Tick) : M World unit :=
  match t with
  | TickLinks => emitLLDPPackets
  | TickPorts => discoverPorts
  | TickConf => validatePipelineConfiguration
  | TickPrune linkOrder hostOrder => pruneLinks linkOrder;; pruneHosts hostOrder
  end.

(** [for c.getState() == Configured { select { ... } }] *)
Fixpoint discoveryLoop (rounds : list Round) : M World LoopEnd :=
  s ← getState;
  if decide (s = Configured)
  then match rounds with
       | [] => ret Waiting
       | r :: rest =>
           forEach (meanwhile r) runCall;;
           onTick (fired r);;
           discoveryLoop rest
       end
  else ret Exited.

(** The four tickers [enterDiscovery] creates, in its order *)
Definition startTickers : M World unit :=
  cfg ← getC config;
  tLinks ← inEnv (NewTicker (seconds (EmitFrequency cfg)));
  cfg ← getC config;
  tConf ← inEnv (NewTicker (seconds (PipelineValidationFrequency cfg)));
  cfg ← getC config;
  tPorts ← inEnv (NewTicker (seconds (PortRediscoveryFrequency cfg)));
  cfg ← getC config;
  tPrune ← inEnv (NewTicker (seconds (LinkPruneFrequency cfg)));
  ret tt.

(** [enterDiscovery]; it returns when the loop is left, and it stops no
    ticker before it returns. *)
Definition enterDiscovery (rounds : list Round) : M World LoopEnd :=
  startTickers;;
  discoveryLoop rounds.

(** The [switch] of [run] for the states whose handler returns after a
    bounded piece of work *)
Definition handler (s : State) : M World unit :=
  match s with
  | Disconnected => waitForDeviceConnection
  | Connected => waitForPipelineConfiguration
  | PipelineConfigAvailable => waitForMastershipArbitration
  | Elected => discoverPorts
  | PortsDiscovered => setupForDiscovery
  | Reconfigured => reenterDiscovery
  | Configured | Stopped => ret tt
  end.

(** Where the worker goroutine is inside [run]. *)
Inductive PC : Type :=
| AtLoopHead                 (* about to evaluate [c.getState()] of the [for] *)
| Dispatched (s : State)     (* read [s], about to run its handler *)
| AtDiscoveryTest            (* inside [enterDiscovery], at the loop condition *)
| InSelect                   (* inside [enterDiscovery], waiting in [select] *)
| Returned.                  (* [run] has returned *)

(** One atomic step of the system made of the worker and of the other
    goroutines.  Each access to the controller state is one step, since
    [getState] and [setState] take the lock only for their own
    duration. *)
Inductive step : World * PC -> World * PC -> Prop :=
| step_read w :
    state (ctl w) <> Stopped ->
    step (w, AtLoopHead) (w, Dispatched (state (ctl w)))
| step_return w w' :
    state (ctl w) = Stopped ->
    inEnv (logf INFO "Stopped") w = Ok (tt, w') ->
    step (w, AtLoopHead) (w', Returned)
| step_handler w s w' :
    s <> Configured ->
    handler s w = Ok (tt, w') ->
    step (w, Dispatched s) (w', AtLoopHead)
| step_enter w w' :
    startTickers w = Ok (tt, w') ->
    step (w, Dispatched Configured) (w', AtDiscoveryTest)
| step_test_stay w :
    state (ctl w) = Configured ->
    step (w, AtDiscoveryTest) (w, InSelect)
| step_test_leave w :
    state (ctl w) <> Configured ->
    step (w, AtDiscoveryTest) (w, AtLoopHead)
| step_tick w t w' :
    onTick t w = Ok (tt, w') ->
    step (w, InSelect) (w', AtDiscoveryTest)
| step_call w call w' pc :
    runCall call w = Ok (tt, w') ->
    step (w, pc) (w', pc).

Definition steps : World * PC -> World * PC -> Prop := rtc step.
End Worker.

(** * Vocabulary of the properties *)

(** Unfolding of the monad's plumbing *)
Ltac unfold_monad :=
  unfold mbind, mret, M_bind, M_ret, getC, modC, inEnv, lift, logf,
    time_Now, set_configFile, bind, ret, panic, gets, modify in *;
  cbv beta in *.

(** One step through a sequence of the monad, without unfolding the
    functions that are called *)
Ltac mstep :=
  unfold mbind, M_bind, bind, getC, modC, lift, gets, modify, ret;
  cbv beta iota.

(** The world right after [NewController] *)
Definition boot (targetAddress agentID : string) (e : Env) : Result World :=
  match NewController targetAddress agentID e with
  | Ok (c, e') => Ok (mkWorld e' c)
  | Panic msg => Panic msg
  end.

(** The state [setStateIf Configured Reconfigured] leaves behind *)
Definition afterUpdate (s : State) : State :=
  if decide (s = Configured) then Reconfigured else s.

(** The five nodes [UpdateConfig] reads are in the tree. *)
Definition configNodesPresent (t : Tree) : Prop :=
  is_Some (GetPath "config/emitFrequency" t) /\
  is_Some (GetPath "config/maxLinkAge" t) /\
  is_Some (GetPath "config/pipelineValidationFrequency" t) /\
  is_Some (GetPath "config/portRediscoveryFrequency" t) /\
  is_Some (GetPath "config/linkPruneFrequency" t).

(** A concrete environment: the clock advances by one second per reading,
    there is no configuration file and writes succeed. *)
Definition quietEnv : Env :=
  mkEnv (fun n => Z.of_nat n * Second) 0 [] FileAbsent None [].

(** The keys of the [config] section that [cfg.Unmarshal] decodes *)
Definition configKeys : list string :=
  ["emitFrequency"; "maxLinkAge"; "pipelineValidationFrequency";
   "portRediscoveryFrequency"; "linkPruneFrequency"].

(** The file gives [key] no integer: the key is not set, or its value is
    not an integer. *)
Definition notInt (settings : gmap string YamlValue) (key : string) : Prop :=
  forall z, settings !! key <> Some (YInt z).

(** An environment whose configuration file sets [emitFrequency] to 10 and
    gives [maxLinkAge] a value that is not an integer *)
Definition mixedFileEnv : Env :=
  mkEnv (fun n => Z.of_nat n * Second) 0 []
        (FileYaml (<["emitFrequency" := YInt 10]> {["maxLinkAge" := YOther "abc"]}))
        None [].

(** The controller [NewController "switch1:9559" "agent1"] returns there *)
Definition freshWorld : World :=
  mkWorld
    (mkEnv (fun n => Z.of_nat n * Second) 0
       [mkLog WARN "Unable to load config file; using defaults: Config File Not Found"]
       FileAbsent None [])
    {| TargetAddress := "switch1:9559";
       IngressDeviceID := "agent1";
       state := Disconnected;
       config := defaultConfig;
       ports := make_map;
       links := make_map;
       hosts := NilMap;
       root := createConfigRoot "agent1" defaultConfig;
       sent := [];
       ctxCancel := None |}.

(** The environment after one reading of the clock *)
Definition tick (e : Env) : Env :=
  mkEnv (clock e) (S (reads e)) (journal e) (configFile e) (writeError e) (tickers e).

(** The notification [addLinkToTree] sends *)
Definition linkAdded (ingressPort egressPort : N) (egressDeviceID : string)
    (created sentAt : Time) : Notification :=
  {| Timestamp := UnixNano sentAt;
     Update :=
       [("state/link[port=" +:+ fmt_d ingressPort +:+ "]/egress-port",
         IntVal (Z.of_N egressPort));
        ("state/link[port=" +:+ fmt_d ingressPort +:+ "]/egress-device",
         StringVal egressDeviceID);
        ("state/link[port=" +:+ fmt_d ingressPort +:+ "]/create-time",
         UintVal (uint64_of_int64 (UnixNano created)))];
     Delete := [] |}.

(** The environment after one log entry *)
Definition logged (l : Level) (msg : string) (e : Env) : Env :=
  mkEnv (clock e) (reads e) (mkLog l msg :: journal e) (configFile e)
        (writeError e) (tickers e).

(** The world after [addLinkToTree] *)
Definition linkMirrored (ingressPort egressPort : N) (egressDeviceID : string)
    (w : World) : World :=
  mkWorld (tick (tick (env w)))
    (push_sent
       (linkAdded ingressPort egressPort egressDeviceID
          (clock (env w) (reads (env w))) (clock (env w) (S (reads (env w)))))
       (set_root
          (AddPath ("state/link[port=" +:+ fmt_d ingressPort +:+ "]/create-time")
             (UintVal (uint64_of_int64 (UnixNano (clock (env w) (reads (env w))))))
             (AddPath ("state/link[port=" +:+ fmt_d ingressPort +:+ "]/egress-device")
                (StringVal egressDeviceID)
                (AddPath ("state/link[port=" +:+ fmt_d ingressPort +:+ "]/egress-port")
                   (IntVal (Z.of_N egressPort)) (root (ctl w)))))
          (ctl w))).

(** The notification [addHostToTree] sends *)
Definition hostAdded (macString ipString : string) (port : N)
    (created sentAt : Time) : Notification :=
  {| Timestamp := UnixNano sentAt;
     Update :=
       [("state/host[mac=" +:+ macString +:+ "]/port", IntVal (Z.of_N port));
        ("state/link[mac=" +:+ macString +:+ "]/ip-address", StringVal ipString);
        ("state/link[mac=" +:+ macString +:+ "]/create-time",
         UintVal (uint64_of_int64 (UnixNano created)))];
     Delete := [] |}.

(** The world after [addHostToTree] *)
Definition hostMirrored (macString ipString : string) (port : N)
    (w : World) : World :=
  mkWorld (tick (tick (env w)))
    (push_sent
       (hostAdded macString ipString port
          (clock (env w) (reads (env w))) (clock (env w) (S (reads (env w)))))
       (set_root
          (AddPath ("state/link[mac=" +:+ macString +:+ "]/create-time")
             (UintVal (uint64_of_int64 (UnixNano (clock (env w) (reads (env w))))))
             (AddPath ("state/link[mac=" +:+ macString +:+ "]/ip-address")
                (StringVal ipString)
                (AddPath ("state/host[mac=" +:+ macString +:+ "]/port")
                   (IntVal (Z.of_N port)) (root (ctl w)))))
          (ctl w))).

(** The registry knows [ingressPort] with this very remote end. *)
Definition sameRemote (m : gmap N Link) (ingressPort egressPort : N)
    (egressDeviceID : string) : Prop :=
  exists l, m !! ingressPort = Some l /\
            EgressPort l = egressPort /\ EgressDeviceID l = egressDeviceID.

#[global] Instance sameRemote_dec m p e d : Decision (sameRemote m p e d).
Proof.
  unfold sameRemote. destruct (m !! p) as [l|].
  - destruct (decide (EgressPort l = e)); [|right; intros (? & [= <-] & ? & ?); done].
    destruct (decide (EgressDeviceID l = d)); [|right; intros (? & [= <-] & ? & ?); done].
    left. eauto.
  - right. intros (? & [=] & _).
Defined.

(** The registry knows [macString] with this very address and port. *)
Definition sameHost (m : gmap string Host) (macString ipString : string)
    (port : N) : Prop :=
  exists h, m !! macString = Some h /\
            MAC h = macString /\ IP h = ipString /\ host_Port h = port.

#[global] Instance sameHost_dec m mac ip port : Decision (sameHost m mac ip port).
Proof.
  unfold sameHost. destruct (m !! mac) as [h|].
  - destruct (decide (MAC h = mac));
      [|right; intros (? & [= <-] & ? & ? & ?); done].
    destruct (decide (IP h = ip));
      [|right; intros (? & [= <-] & ? & ? & ?); done].
    destruct (decide (host_Port h = port));
      [|right; intros (? & [= <-] & ? & ? & ?); done].
    left. eauto.
  - right. intros (? & [=] & _).
Defined.

(** What one turn of the loop of [pruneLinks] does to the registry *)
Definition pruneStep (limit : Time) (acc : gmap N Link) (kv : N * Link)
  : gmap N Link :=
  if Time_Before (link_LastUpdate kv.2) limit then delete kv.1 acc else acc.

(** What the registry holds under [k] after a prune pass at time [now] *)
Definition afterPrune (now : Time) (entry : option Link) : option Link :=
  match entry with
  | Some l => if Time_Before (link_LastUpdate l) (Time_Add now (-30 * Second))
              then None else Some l
  | None => None
  end.

(** An environment whose configuration file sets [maxLinkAge] to ten
    seconds and whose clock advances by twenty seconds per reading *)
Definition shortAgeEnv : Env :=
  mkEnv (fun n => Z.of_nat n * (20 * Second)) 0 []
        (FileYaml {["maxLinkAge" := YInt 10]}) None [].

(** The controller [NewController] returns in [shortAgeEnv], the same
    after one observation of a link, the link observed, and the world
    after a prune pass twenty seconds later *)
Definition shortAgeFresh : World :=
  Eval vm_compute in
    match boot "switch1:9559" "agent1" shortAgeEnv with
    | Ok w => w
    | Panic _ => freshWorld
    end.

Definition shortAgeObserved : World :=
  Eval vm_compute in
    match updateIngressLink 1 7 "deviceB" shortAgeFresh with
    | Ok (_, w) => w
    | Panic _ => shortAgeFresh
    end.

Definition observedLink : Link := mkLink 7 "deviceB" 1 (40 * Second).

Definition shortAgePruned : World :=
  Eval vm_compute in
    match pruneLinks [(1%N, observedLink)] shortAgeObserved with
    | Ok (_, w) => w
    | Panic _ => shortAgeObserved
    end.

Definition linksCoherent (g : GoMap N Link) : Prop :=
  forall k l, map_get g k = Some l -> IngressPort l = k.

Definition hostsCoherent (g : GoMap string Host) : Prop :=
  forall k h, map_get g k = Some h -> MAC h = k.

(** The registry after observing ingress port 5, then 1, then 3 *)
Definition oneLink : World :=
  Eval vm_compute in
    match updateIngressLink 5 7 "deviceB" freshWorld with
    | Ok (_, w) => w
    | Panic _ => freshWorld
    end.

Definition twoLinks : World :=
  Eval vm_compute in
    match updateIngressLink 1 7 "deviceB" oneLink with
    | Ok (_, w) => w
    | Panic _ => oneLink
    end.

Definition threeLinks : World :=
  Eval vm_compute in
    match updateIngressLink 3 9 "deviceC" twoLinks with
    | Ok (_, w) => w
    | Panic _ => twoLinks
    end.

(** The same after the link of port 1 was deleted *)
Definition twoLinksLeft : World :=
  Eval vm_compute in
    match deleteLink 1 threeLinks with
    | Ok (_, w) => w
    | Panic _ => threeLinks
    end.

Definition threeLinksMap : gmap N Link :=
  match links (ctl threeLinks) with
  | MadeMap m => m
  | NilMap => ∅
  end.

(** The operations on the two registries *)
Inductive Op : Type :=
| OpUpdateIngressLink (ingressPort egressPort : N) (egressDeviceID : string)
| OpUpdateHost (macString ipString : string) (port : N)
| OpPruneLinks (order : list (N * Link))
| OpPruneHosts (order : list (string * Host))
| OpDeleteLink (ingressPort : N)
| OpDeleteHost (macString : string).

Definition runOp (op : Op) : M World unit :=
  match op with
  | OpUpdateIngressLink p e d => updateIngressLink p e d
  | OpUpdateHost m i p => updateHost m i p
  | OpPruneLinks order => pruneLinks order
  | OpPruneHosts order => pruneHosts order
  | OpDeleteLink p => deleteLink p
  | OpDeleteHost m => deleteHost m
  end.

(** A prune pass visits the registry as it is when the pass starts. *)
Definition admissible (op : Op) (w : World) : Prop :=
  match op with
  | OpPruneLinks order => range_order (links (ctl w)) order
  | OpPruneHosts order => range_order (hosts (ctl w)) order
  | _ => True
  end.

(** [w'] is reached from [w] by a sequence of operations that returned. *)
Inductive reachable (w : World) : World -> Prop :=
| reach_here : reachable w w
| reach_op w1 w2 op :
    reachable w w1 -> admissible op w1 -> runOp op w1 = Ok (tt, w2) ->
    reachable w w2.

Definition coherent (w : World) : Prop :=
  linksCoherent (links (ctl w)) /\ hostsCoherent (hosts (ctl w)).

(** The tickers [startTickers] creates when the four periods are
    positive *)
Definition discoveryTickers (cfg : Config) : list Ticker :=
  [mkTicker (seconds (EmitFrequency cfg)) false;
   mkTicker (seconds (PipelineValidationFrequency cfg)) false;
   mkTicker (seconds (PortRediscoveryFrequency cfg)) false;
   mkTicker (seconds (LinkPruneFrequency cfg)) false].

(** The tickers created since [before] are all stopped in [after]. *)
Definition tickersReleased (before after : list Ticker) : Prop :=
  Forall (fun t => stopped t = true) (drop (length before) after).

(** The controller of [freshWorld] once it has reached [Configured] *)
Definition configuredWorld : World :=
  mkWorld (env freshWorld) (set_state Configured (ctl freshWorld)).

(** A stand-in for a device handler: it returns at once. *)
Definition idle : M World unit := ret tt.

(** * Vocabulary of the further properties *)

(** The node of the export tree under which a link is mirrored *)
Definition linkNode (ingressPort : N) : string :=
  "state/link[port=" +:+ fmt_d ingressPort +:+ "]".

(** The node of the export tree that [removeHostFromTree] deletes *)
Definition hostNode (macString : string) : string :=
  "state/host[mac=" +:+ macString +:+ "]".

(** No character of the string is a closing bracket. *)
Fixpoint noBracket (s : string) : bool :=
  match s with
  | EmptyString => true
  | String c s' => negb (Ascii.eqb c "]"%char) && noBracket s'
  end.

(** The notification [removeLinkFromTree] and [removeHostFromTree] send *)
Definition nodeDeleted (path : string) (sentAt : Time) : Notification :=
  {| Timestamp := UnixNano sentAt; Update := []; Delete := [path] |}.

(** The world after [deleteLink] *)
Definition linkRemoved (ingressPort : N) (w : World) : World :=
  mkWorld (tick (env w))
    (push_sent (nodeDeleted (linkNode ingressPort) (clock (env w) (reads (env w))))
       (set_root (DeletePath (linkNode ingressPort) (root (ctl w)))
          (set_links (map_delete (links (ctl w)) ingressPort) (ctl w)))).

(** The world after [deleteHost] *)
Definition hostRemoved (macString : string) (w : World) : World :=
  mkWorld (tick (env w))
    (push_sent (nodeDeleted (hostNode macString) (clock (env w) (reads (env w))))
       (set_root (DeletePath (hostNode macString) (root (ctl w)))
          (set_hosts (map_delete (hosts (ctl w)) macString) (ctl w)))).

(** One turn of the loop of [pruneLinks] on the whole world *)
Definition evictLink (limit : Time) (w : World) (kv : N * Link) : World :=
  if Time_Before (link_LastUpdate kv.2) limit
  then mkWorld
         (logged INFO ("Pruned stale link: " +:+ fmt_d (IngressPort kv.2) +:+ " <- "
                       +:+ EgressDeviceID kv.2 +:+ "/" +:+ fmt_d (EgressPort kv.2))
                 (env (linkRemoved kv.1 w)))
         (ctl (linkRemoved kv.1 w))
  else w.

(** One turn of the loop of [pruneHosts] on the whole world *)
Definition evictHost (limit : Time) (w : World) (kv : string * Host) : World :=
  if Time_Before (host_LastUpdate kv.2) limit
  then mkWorld
         (logged INFO ("Pruned stale host: " +:+ MAC kv.2 +:+ " <- "
                       +:+ IP kv.2 +:+ "/" +:+ fmt_s_uint32 (host_Port kv.2))
                 (env (hostRemoved kv.1 w)))
         (ctl (hostRemoved kv.1 w))
  else w.

(** What the host registry holds under a key after a prune pass at time
    [now] *)
Definition afterPruneHost (now : Time) (entry : option Host) : option Host :=
  match entry with
  | Some h => if Time_Before (host_LastUpdate h) (Time_Add now (-30 * Minute))
              then None else Some h
  | None => None
  end.

(** The links of a visiting order that a pass with this limit evicts *)
Definition staleLinks (limit : Time) (order : list (N * Link)) : list (N * Link) :=
  filter (fun kv => Time_Before (link_LastUpdate kv.2) limit = true) order.

(** The controller of [freshWorld] with an allocated [hosts] map, and the
    same after one host was observed *)
Definition hostsMade : World :=
  mkWorld (env freshWorld) (set_hosts make_map (ctl freshWorld)).

Definition oneHost : World :=
  Eval vm_compute in
    match updateHost "00:1b:44:11:3a:b7" "10.0.0.7" 3 hostsMade with
    | Ok (_, w) => w
    | Panic _ => hostsMade
    end.

Definition oneHostMap : gmap string Host :=
  match hosts (ctl oneHost) with
  | MadeMap m => m
  | NilMap => ∅
  end.

(** An environment whose clock advances by thirty-five seconds per
    reading, the controller [NewController] returns there, and the same
    after one observation of a link *)
Definition slowEnv : Env :=
  mkEnv (fun n => Z.of_nat n * (35 * Second)) 0 [] FileAbsent None [].

Definition slowFresh : World :=
  Eval vm_compute in
    match boot "switch1:9559" "agent1" slowEnv with
    | Ok w => w
    | Panic _ => freshWorld
    end.

Definition slowObserved : World :=
  Eval vm_compute in
    match updateIngressLink 1 7 "deviceB" slowFresh with
    | Ok (_, w) => w
    | Panic _ => slowFresh
    end.

Definition slowLink : Link := mkLink 7 "deviceB" 1 (70 * Second).

(** The five configuration nodes of the tree hold the values of the
    configuration. *)
Definition configMirrored (cfg : Config) (t : Tree) : Prop :=
  t !! "config/emitFrequency" = Some (Some (IntVal (EmitFrequency cfg))) /\
  t !! "config/maxLinkAge" = Some (Some (IntVal (MaxLinkAge cfg))) /\
  t !! "config/pipelineValidationFrequency"
  = Some (Some (IntVal (PipelineValidationFrequency cfg))) /\
  t !! "config/portRediscoveryFrequency"
  = Some (Some (IntVal (PortRediscoveryFrequency cfg))) /\
  t !! "config/linkPruneFrequency" = Some (Some (IntVal (LinkPruneFrequency cfg))).

(** The key of a node of the configuration branch of the tree *)
Definition isConfigKey (key : string) : Prop :=
  String.prefix "config/" key = true.

(** The worker is not inside a handler: it is at the head of the loop of
    [run], at the loop condition of [enterDiscovery], or has returned. *)
Definition parked (pc : PC) : Prop :=
  pc = AtLoopHead \/ pc = AtDiscoveryTest \/ pc = Returned.

(** The controller of [freshWorld] once [Stop] has set its state *)
Definition stoppedWorld : World :=
  mkWorld (env freshWorld) (set_state Stopped (ctl freshWorld)).

(** The four periods of the tickers, as durations, are positive. *)
Definition positivePeriods (cfg : Config) : Prop :=
  0 < seconds (EmitFrequency cfg) /\
  0 < seconds (PipelineValidationFrequency cfg) /\
  0 < seconds (PortRediscoveryFrequency cfg) /\
  0 < seconds (LinkPruneFrequency cfg).

(** The controller [NewController] returns when the configuration file
    sets [emitFrequency] to zero, in state [Configured] *)
Definition zeroEmitWorld : World :=
  Eval vm_compute in
    match boot "switch1:9559" "agent1"
            (mkEnv (fun n => Z.of_nat n * Second) 0 []
                   (FileYaml {["emitFrequency" := YInt 0]}) None []) with
    | Ok w => mkWorld (env w) (set_state Configured (ctl w))
    | Panic _ => freshWorld
    end.

(** * Properties *)

(** ** Single steps of the monad *)

Lemma logf_spec (l : Level) (msg : string) (w : World) :
  inEnv (logf l msg) w = Ok (tt, mkWorld (logged l msg (env w)) (ctl w)).
Proof. reflexivity. Qed.

Lemma time_Now_spec (w : World) :
  inEnv time_Now w
  = Ok (clock (env w) (reads (env w)), mkWorld (tick (env w)) (ctl w)).
Proof. reflexivity. Qed.

Lemma addLinkToTree_spec (p e : N) (d : string) (w : World) :
  addLinkToTree p e d w = Ok (tt, linkMirrored p e d w).
Proof. reflexivity. Qed.

Lemma addHostToTree_spec (mac ip : string) (port : N) (w : World) :
  addHostToTree mac ip port w = Ok (tt, hostMirrored mac ip port w).
Proof. reflexivity. Qed.

(** ** The freshly constructed controller *)

Lemma loadConfig_total (e : Env) :
  exists cfg e', loadConfig e = Ok (cfg, e').
Proof.
  unfold loadConfig. unfold_monad.
  destruct (ReadInConfig (configFile e)) as [settings [err|]];
    destruct (Unmarshal settings defaultConfig) as [cfg [err'|]]; simpl; eauto.
Qed.

Lemma boot_total (targetAddress agentID : string) (e : Env) :
  exists w, boot targetAddress agentID e = Ok w /\
            links (ctl w) = make_map /\ hosts (ctl w) = NilMap /\
            state (ctl w) = Disconnected.
Proof.
  unfold boot, NewController. unfold_monad.
  destruct (loadConfig_total e) as (cfg & e' & ->). simpl. eauto.
Qed.

(** C2 (the code departs from it): on the controller [NewController]
    returns, whatever the configuration file, [updateHost] panics for
    every MAC, IP address and port: the [hosts] map was never made and the
    store into it is an assignment to an entry in the nil map. *)
Theorem updateHost_panics_on_new_controller
    (targetAddress agentID : string) (e : Env) :
  exists w, boot targetAddress agentID e = Ok w /\
    forall (macString ipString : string) (port : N),
      updateHost macString ipString port w
      = Panic "assignment to entry in nil map".
Proof.
  destruct (boot_total targetAddress agentID e) as (w & Hb & _ & Hh & _).
  exists w. split; [exact Hb|]. intros mac ip port.
  unfold updateHost. mstep. rewrite Hh. reflexivity.
Qed.

(** ** The conditional transition *)

Lemma setStateIf_spec (condition s : State) (w : World) :
  setStateIf condition s w
  = Ok (tt, mkWorld (env w)
              (set_state (if decide (state (ctl w) = condition) then s
                          else state (ctl w)) (ctl w))).
Proof.
  unfold setStateIf. unfold_monad.
  destruct (decide (state (ctl w) = condition)); [reflexivity|].
  destruct w as [e c]; destruct c; reflexivity.
Qed.

Lemma saveConfig_total (cfg : Config) (e : Env) :
  exists e', saveConfig cfg e = Ok (tt, e').
Proof.
  unfold saveConfig. unfold_monad. destruct (writeError e); simpl; eauto.
Qed.

Lemma UpdateConfig_state (w w' : World) :
  UpdateConfig w = Ok (tt, w') ->
  state (ctl w') = afterUpdate (state (ctl w)).
Proof.
  unfold UpdateConfig, Node_Value. unfold_monad.
  repeat match goal with
         | |- context [GetPath ?p ?t] => destruct (GetPath p t); [|discriminate]
         end.
  cbn [env ctl].
  match goal with
  | |- context [saveConfig ?c ?e] => destruct (saveConfig_total c e) as [e' ->]
  end.
  rewrite setStateIf_spec. intros [= <-]. reflexivity.
Qed.

Lemma UpdateConfig_total (w : World) :
  configNodesPresent (root (ctl w)) -> exists w', UpdateConfig w = Ok (tt, w').
Proof.
  intros ([a Ha] & [b Hb] & [d Hd] & [f Hf] & [g Hg]).
  unfold UpdateConfig, Node_Value. unfold_monad.
  rewrite Ha, Hb, Hd, Hf, Hg. cbn [env ctl].
  match goal with
  | |- context [saveConfig ?c ?e] => destruct (saveConfig_total c e) as [e' ->]
  end.
  rewrite setStateIf_spec. eauto.
Qed.

(** C4: for every current state, [setStateIf Configured Reconfigured]
    returns, touches nothing but the state, and sets the state to
    [Reconfigured] exactly when it was [Configured] (so [Elected] stays
    [Elected]); [UpdateConfig] ends with that call, so whenever it returns
    the state has changed only from [Configured] to [Reconfigured], and it
    does return when the tree holds the five configuration nodes. *)
Theorem setStateIf_only_from_Configured (w : World) :
  (exists w1, setStateIf Configured Reconfigured w = Ok (tt, w1) /\
     env w1 = env w /\
     ctl w1 = set_state (afterUpdate (state (ctl w))) (ctl w) /\
     (state (ctl w1) = Reconfigured <->
        state (ctl w) = Configured \/ state (ctl w) = Reconfigured) /\
     (state (ctl w) <> Configured -> state (ctl w1) = state (ctl w)) /\
     (state (ctl w) = Elected -> state (ctl w1) = Elected)) /\
  (forall w2, UpdateConfig w = Ok (tt, w2) ->
     state (ctl w2) = afterUpdate (state (ctl w))) /\
  (configNodesPresent (root (ctl w)) ->
     exists w2, UpdateConfig w = Ok (tt, w2)).
Proof.
  split; [|split].
  - eexists. split; [apply setStateIf_spec|]. cbn [env ctl].
    unfold afterUpdate. repeat split; try reflexivity.
    + destruct (state (ctl w)); cbn; intros; first [discriminate | tauto].
    + intros [-> | ->]; reflexivity.
    + intros Hne. destruct (decide (state (ctl w) = Configured)); [done|].
      destruct (ctl w); reflexivity.
    + intros ->. destruct (ctl w); reflexivity.
  - intros w2. apply UpdateConfig_state.
  - apply UpdateConfig_total.
Qed.

Lemma boot_freshWorld : boot "switch1:9559" "agent1" quietEnv = Ok freshWorld.
Proof. reflexivity. Qed.

Lemma freshWorld_configNodes (s : State) :
  configNodesPresent (root (set_state s (ctl freshWorld))).
Proof. repeat split; eexists; reflexivity. Qed.

Lemma setStateIf_only_from_Configured_witness :
  exists w2,
    UpdateConfig (mkWorld (env freshWorld) (set_state Configured (ctl freshWorld)))
    = Ok (tt, w2) /\
    state (ctl w2) = Reconfigured.
Proof.
  destruct (setStateIf_only_from_Configured
              (mkWorld (env freshWorld) (set_state Configured (ctl freshWorld))))
    as (_ & Hstate & Hret).
  destruct (Hret (freshWorld_configNodes Configured)) as [w2 E].
  exists w2. split; [exact E|]. rewrite (Hstate w2 E). reflexivity.
Defined.

(** ** Loading and saving the configuration *)

(** Where [cfg.ReadInConfig] fails (the file is absent, or is not YAML),
    [loadConfig] returns, and returns exactly the defaults (5, 30, 60, 60,
    2), after logging one warning; [saveConfig] returns in every
    environment, and when the write fails it logs a warning and changes
    neither the stored file nor, run from a method, the controller with
    its in-memory [Config]. *)
Theorem loadConfig_defaults_saveConfig_nonfatal :
  (forall e : Env,
     configFile e = FileAbsent \/ (exists err, configFile e = FileUnparsable err) ->
     exists e' msg,
       loadConfig e = Ok (mkConfig 5 30 60 60 2, e') /\
       journal e' = mkLog WARN msg :: journal e /\
       configFile e' = configFile e) /\
  (forall (cfg : Config) (e : Env),
     exists e', saveConfig cfg e = Ok (tt, e') /\
       (forall err, writeError e = Some err ->
          journal e' = mkLog WARN ("Unable to save config file: " +:+ err) :: journal e /\
          configFile e' = configFile e)) /\
  (forall (cfg : Config) (w : World),
     exists w', inEnv (saveConfig cfg) w = Ok (tt, w') /\ ctl w' = ctl w).
Proof.
  split; [|split].
  - intros e [Hf | [err Hf]]; unfold loadConfig; unfold_monad; rewrite Hf;
      cbn; eexists _, _; (split; [reflexivity|]);
      (split; [reflexivity | cbn; congruence]).
  - intros cfg e. unfold saveConfig. unfold_monad.
    destruct (writeError e) as [err|] eqn:Hw; cbn.
    + eexists. split; [reflexivity|]. intros err' [= <-]. split; reflexivity.
    + eexists. split; [reflexivity|]. intros err' [=].
  - intros cfg w. unfold inEnv.
    destruct (saveConfig_total cfg (env w)) as [e' ->]. eauto.
Qed.

Lemma loadConfig_defaults_saveConfig_nonfatal_witness :
  (exists e', loadConfig quietEnv = Ok (defaultConfig, e')) /\
  (exists e' msg,
     loadConfig (mkEnv (clock quietEnv) 0 [] (FileUnparsable "yaml: line 1") None [])
     = Ok (mkConfig 5 30 60 60 2, e') /\
     journal e' = [mkLog WARN msg]).
Proof.
  destruct loadConfig_defaults_saveConfig_nonfatal as (Hload & _ & _). split.
  - destruct (Hload quietEnv) as (e' & msg & E & _); [left; reflexivity|].
    exists e'. exact E.
  - destruct (Hload (mkEnv (clock quietEnv) 0 [] (FileUnparsable "yaml: line 1") None []))
      as (e' & msg & E & J & _); [right; eexists; reflexivity|].
    exists e', msg. split; [exact E | exact J].
Defined.

(** ** A value that does not decode *)

Lemma decodeField_value (settings : gmap string YamlValue) (key : string)
    (current z : Z) :
  settings !! key = Some (YInt z) -> decodeField settings key current = (z, false).
Proof. intros H. unfold decodeField. by rewrite H. Qed.

Lemma decodeField_error (settings : gmap string YamlValue) (key raw : string)
    (current : Z) :
  settings !! key = Some (YOther raw) ->
  decodeField settings key current = (current, true).
Proof. intros H. unfold decodeField. by rewrite H. Qed.

Lemma Unmarshal_fields (settings : gmap string YamlValue) (c : Config) :
  Unmarshal settings c
  = (mkConfig (decodeField settings "emitFrequency" (EmitFrequency c)).1
              (decodeField settings "maxLinkAge" (MaxLinkAge c)).1
              (decodeField settings "pipelineValidationFrequency"
                           (PipelineValidationFrequency c)).1
              (decodeField settings "portRediscoveryFrequency"
                           (PortRediscoveryFrequency c)).1
              (decodeField settings "linkPruneFrequency" (LinkPruneFrequency c)).1,
     if (decodeField settings "emitFrequency" (EmitFrequency c)).2
        || (decodeField settings "maxLinkAge" (MaxLinkAge c)).2
        || (decodeField settings "pipelineValidationFrequency"
                        (PipelineValidationFrequency c)).2
        || (decodeField settings "portRediscoveryFrequency"
                        (PortRediscoveryFrequency c)).2
        || (decodeField settings "linkPruneFrequency" (LinkPruneFrequency c)).2
     then Some "error(s) decoding" else None).
Proof.
  unfold Unmarshal.
  destruct (decodeField settings "emitFrequency" _) as [a ea].
  destruct (decodeField settings "maxLinkAge" _) as [b eb].
  destruct (decodeField settings "pipelineValidationFrequency" _) as [d ed].
  destruct (decodeField settings "portRediscoveryFrequency" _) as [f ef].
  destruct (decodeField settings "linkPruneFrequency" _) as [g eg].
  reflexivity.
Qed.

Lemma loadConfig_yaml (e : Env) (settings : gmap string YamlValue) :
  configFile e = FileYaml settings ->
  loadConfig e
  = match (Unmarshal settings defaultConfig).2 with
    | Some err =>
        Ok ((Unmarshal settings defaultConfig).1,
            logged WARN ("Unable to parse config file; using defaults: " +:+ err) e)
    | None => Ok ((Unmarshal settings defaultConfig).1, e)
    end.
Proof.
  intros Hf. unfold loadConfig. unfold_monad. rewrite Hf. cbn [ReadInConfig].
  destruct (Unmarshal settings defaultConfig) as [cfg [err|]]; reflexivity.
Qed.

Lemma decodeField_default (settings : gmap string YamlValue) (key : string)
    (current : Z) :
  notInt settings key -> (decodeField settings key current).1 = current.
Proof.
  intros H. unfold decodeField.
  destruct (settings !! key) as [[z|r]|] eqn:E; [|reflexivity..].
  by destruct (H z).
Qed.

Lemma Unmarshal_error (settings : gmap string YamlValue) (c : Config)
    (key raw : string) :
  key ∈ configKeys ->
  settings !! key = Some (YOther raw) ->
  (Unmarshal settings c).2 = Some "error(s) decoding".
Proof.
  intros Hkey Hraw. rewrite Unmarshal_fields. cbn [snd].
  unfold configKeys in Hkey.
  repeat (apply elem_of_cons in Hkey as [->|Hkey]);
    [..|by apply elem_of_nil in Hkey];
    rewrite (decodeField_error _ _ _ _ Hraw); cbn [snd];
    rewrite ?orb_true_r; reflexivity.
Qed.

(** C9 (the code departs from it): take a configuration file that is YAML
    and in which one of the five keys holds a value that is not an
    integer.  [loadConfig] returns and logs the warning [Unable to parse
    config file; using defaults], but what it returns is not the defaults:
    every field for which the file gives an integer holds that integer,
    and only the others hold their default.  So when the file gives
    [emitFrequency] an integer other than 5, the configuration returned
    differs from the defaults (5, 30, 60, 60, 2). *)
Theorem loadConfig_decode_error_keeps_decoded_fields
    (e : Env) (settings : gmap string YamlValue) (key raw : string) :
  configFile e = FileYaml settings ->
  key ∈ configKeys ->
  settings !! key = Some (YOther raw) ->
  exists cfg e',
    loadConfig e = Ok (cfg, e') /\
    journal e'
    = mkLog WARN "Unable to parse config file; using defaults: error(s) decoding"
      :: journal e /\
    (forall z, settings !! "emitFrequency" = Some (YInt z) -> EmitFrequency cfg = z) /\
    (forall z, settings !! "maxLinkAge" = Some (YInt z) -> MaxLinkAge cfg = z) /\
    (forall z, settings !! "pipelineValidationFrequency" = Some (YInt z) ->
               PipelineValidationFrequency cfg = z) /\
    (forall z, settings !! "portRediscoveryFrequency" = Some (YInt z) ->
               PortRediscoveryFrequency cfg = z) /\
    (forall z, settings !! "linkPruneFrequency" = Some (YInt z) ->
               LinkPruneFrequency cfg = z) /\
    (notInt settings "emitFrequency" -> EmitFrequency cfg = 5) /\
    (notInt settings "maxLinkAge" -> MaxLinkAge cfg = 30) /\
    (notInt settings "pipelineValidationFrequency" ->
     PipelineValidationFrequency cfg = 60) /\
    (notInt settings "portRediscoveryFrequency" -> PortRediscoveryFrequency cfg = 60) /\
    (notInt settings "linkPruneFrequency" -> LinkPruneFrequency cfg = 2) /\
    (forall z, settings !! "emitFrequency" = Some (YInt z) -> z <> 5 ->
               cfg <> mkConfig 5 30 60 60 2).
Proof.
  intros Hf Hkey Hraw.
  rewrite (loadConfig_yaml e settings Hf), (Unmarshal_error _ _ _ _ Hkey Hraw).
  eexists _, _. split; [reflexivity|]. split; [reflexivity|].
  rewrite Unmarshal_fields. cbn [fst EmitFrequency MaxLinkAge PipelineValidationFrequency
                                 PortRediscoveryFrequency LinkPruneFrequency].
  repeat split;
    try (intros z Hz; by rewrite (decodeField_value _ _ _ _ Hz));
    try (intros Hn; by rewrite (decodeField_default _ _ _ Hn)).
  intros z Hz Hne Heq. apply Hne.
  rewrite (decodeField_value _ _ _ _ Hz) in Heq. cbn [fst] in Heq.
  by injection Heq.
Qed.

Lemma loadConfig_decode_error_keeps_decoded_fields_witness :
  exists e',
    loadConfig mixedFileEnv = Ok (mkConfig 10 30 60 60 2, e') /\
    journal e'
    = [mkLog WARN "Unable to parse config file; using defaults: error(s) decoding"] /\
    mkConfig 10 30 60 60 2 <> mkConfig 5 30 60 60 2.
Proof.
  destruct (loadConfig_decode_error_keeps_decoded_fields mixedFileEnv
              (<["emitFrequency" := YInt 10]> {["maxLinkAge" := YOther "abc"]})
              "maxLinkAge" "abc" eq_refl)
    as (cfg & e' & E & J & Ha & _ & _ & _ & _ & _ & Hb & Hd & Hf & Hg & _).
  { unfold configKeys. rewrite !elem_of_cons. auto. }
  { reflexivity. }
  assert (Hcfg : cfg = mkConfig 10 30 60 60 2).
  { destruct cfg as [a b d f g]. cbn in Ha, Hb, Hd, Hf, Hg.
    rewrite (Ha 10 eq_refl), Hb, Hd, Hf, Hg; [reflexivity|..];
      intros z Hz; vm_compute in Hz; discriminate. }
  subst cfg. exists e'. split; [exact E|]. split; [exact J|]. discriminate.
Defined.

(** ** Paths of the export tree *)

Lemma prefix_app (a b c : string) :
  String.prefix (a +:+ b) (a +:+ c) = String.prefix b c.
Proof.
  induction a as [|x a IH]; simpl; [reflexivity|].
  destruct (Ascii.ascii_dec x x); [exact IH | congruence].
Qed.

Lemma eqb_app (a b c : string) :
  String.eqb (a +:+ b) (a +:+ c) = String.eqb b c.
Proof.
  induction a as [|x a IH]; simpl; [reflexivity|].
  rewrite Ascii.eqb_refl. exact IH.
Qed.

Lemma app_assoc_string (a b c : string) : (a +:+ b) +:+ c = a +:+ (b +:+ c).
Proof.
  induction a as [|x a IH]; [reflexivity|].
  change ((String x a +:+ b) +:+ c) with (String x ((a +:+ b) +:+ c)).
  change (String x a +:+ b +:+ c) with (String x (a +:+ b +:+ c)).
  f_equal. exact IH.
Qed.

Lemma DeletePath_lookup (path k : string) (t : Tree) :
  DeletePath path t !! k = if under path k then None else t !! k.
Proof.
  unfold DeletePath. destruct (under path k) eqn:Hu.
  - apply map_lookup_filter_None. right. intros x _. cbn. congruence.
  - destruct (t !! k) as [x|] eqn:Hk.
    + apply map_lookup_filter_Some. split; [exact Hk | exact Hu].
    + apply map_lookup_filter_None. left. exact Hk.
Qed.

(** The node of a host and what lies below it *)
Lemma under_host_port (mac : string) :
  under ("state/host[mac=" +:+ mac +:+ "]") ("state/host[mac=" +:+ mac +:+ "]/port") = true.
Proof.
  unfold under. apply orb_true_iff. right.
  rewrite !app_assoc_string.
  change "]/port" with ("]" +:+ "/" +:+ "port").
  rewrite !prefix_app. reflexivity.
Qed.

(** The address and creation time of a host are exported under
    [state/link[mac=...]], which is not below the node of the host. *)
Lemma under_host_link (mac rest : string) :
  under ("state/host[mac=" +:+ mac +:+ "]") ("state/link[mac=" +:+ rest) = false.
Proof. reflexivity. Qed.

(** ** The host registry: one observation *)

Lemma updateHost_nil (w : World) (mac ip : string) (port : N) :
  hosts (ctl w) = NilMap ->
  updateHost mac ip port w = Panic "assignment to entry in nil map".
Proof. intros Hh. unfold updateHost. mstep. rewrite Hh. reflexivity. Qed.

(** A repeat observation only writes the time stamp. *)
Lemma updateHost_repeat (w : World) (m : gmap string Host)
    (mac ip : string) (port : N) :
  hosts (ctl w) = MadeMap m ->
  sameHost m mac ip port ->
  updateHost mac ip port w
  = Ok (tt, mkWorld (tick (env w))
              (set_hosts
                 (MadeMap (alter (with_host_LastUpdate (clock (env w) (reads (env w))))
                                 mac m))
                 (ctl w))).
Proof.
  intros Hh (h & Hm & Hmac & Hip & Hport).
  unfold updateHost. mstep. rewrite Hh. cbn [map_get]. rewrite Hm.
  rewrite Hmac, Hip, Hport, N.eqb_refl, !String.eqb_refl. cbn [negb orb].
  rewrite time_Now_spec. cbv beta iota. cbn [ctl env]. rewrite Hh. reflexivity.
Qed.

(** A first observation, or one that differs, replaces the entry, mirrors
    it into the tree and notifies the responders. *)
Lemma updateHost_replace (w : World) (m : gmap string Host)
    (mac ip : string) (port : N) :
  hosts (ctl w) = MadeMap m ->
  ~ sameHost m mac ip port ->
  exists w',
    updateHost mac ip port w = Ok (tt, w') /\
    hosts (ctl w')
    = MadeMap (<[mac := mkHost mac ip port (clock (env w) (2 + reads (env w))%nat)]> m) /\
    sent (ctl w')
    = hostAdded mac ip port
        (clock (env w) (reads (env w))) (clock (env w) (1 + reads (env w))%nat)
      :: sent (ctl w) /\
    root (ctl w')
    = AddPath ("state/link[mac=" +:+ mac +:+ "]/create-time")
        (UintVal (uint64_of_int64 (UnixNano (clock (env w) (reads (env w))))))
        (AddPath ("state/link[mac=" +:+ mac +:+ "]/ip-address") (StringVal ip)
           (AddPath ("state/host[mac=" +:+ mac +:+ "]/port")
              (IntVal (Z.of_N port)) (root (ctl w)))) /\
    links (ctl w') = links (ctl w) /\ state (ctl w') = state (ctl w) /\
    config (ctl w') = config (ctl w) /\
    clock (env w') = clock (env w) /\ reads (env w') = (3 + reads (env w))%nat /\
    tickers (env w') = tickers (env w).
Proof.
  intros Hh Hnot.
  assert (Hbranch :
    match m !! mac with
    | Some host => negb (String.eqb (MAC host) mac)
                   || negb (String.eqb (IP host) ip)
                   || negb (host_Port host =? port)%N
    | None => true
    end = true).
  { destruct (m !! mac) as [h|] eqn:Hm; [|reflexivity].
    destruct (String.eqb_spec (MAC h) mac) as [Hmac|]; [|reflexivity].
    destruct (String.eqb_spec (IP h) ip) as [Hip|]; [|reflexivity].
    destruct (N.eqb_spec (host_Port h) port) as [Hport|]; [|reflexivity].
    exfalso. apply Hnot. exists h. auto. }
  unfold updateHost. mstep. rewrite Hh. cbn [map_get map_set].
  rewrite Hbranch. cbv beta iota.
  rewrite logf_spec. cbv beta iota. rewrite addHostToTree_spec. cbv beta iota.
  rewrite time_Now_spec. cbv beta iota.
  eexists. split; [reflexivity|].
  cbn [ctl env hostMirrored links hosts state config sent root set_hosts
       set_root push_sent map_poke tick logged clock reads tickers].
  rewrite alter_insert_eq. repeat split; reflexivity.
Qed.

Lemma deleteHost_spec (k : string) (w : World) :
  exists w',
    deleteHost k w = Ok (tt, w') /\
    hosts (ctl w') = map_delete (hosts (ctl w)) k /\
    root (ctl w') = DeletePath ("state/host[mac=" +:+ k +:+ "]") (root (ctl w)) /\
    links (ctl w') = links (ctl w) /\ state (ctl w') = state (ctl w) /\
    config (ctl w') = config (ctl w) /\ tickers (env w') = tickers (env w).
Proof. eexists. split; [reflexivity|]. repeat split; reflexivity. Qed.

(** ** Eviction of a host *)

(** C8 (the code departs from it): on a controller whose [hosts] map is
    allocated and does not know the MAC, [updateHost] followed by
    [deleteHost] returns and removes the host from the map and its port
    from the tree, but the IP address and the creation time that
    [addHostToTree] had exported under [state/link[mac=...]] are still in
    the tree: [removeHostFromTree] deletes [state/host[mac=...]] only. *)
Theorem deleteHost_leaves_exported_paths
    (e : Env) (c : Controller) (m : gmap string Host)
    (macString ipString : string) (port : N) :
  m !! macString = None ->
  exists w2,
    (updateHost macString ipString port;; deleteHost macString)
      (mkWorld e (set_hosts (MadeMap m) c)) = Ok (tt, w2) /\
    map_get (hosts (ctl w2)) macString = None /\
    root (ctl w2) !! ("state/host[mac=" +:+ macString +:+ "]/port") = None /\
    root (ctl w2) !! ("state/link[mac=" +:+ macString +:+ "]/ip-address")
      = Some (Some (StringVal ipString)) /\
    root (ctl w2) !! ("state/link[mac=" +:+ macString +:+ "]/create-time")
      = Some (Some (UintVal (uint64_of_int64 (UnixNano (clock e (reads e)))))).
Proof.
  intros Hm.
  assert (Hnew : ~ sameHost m macString ipString port).
  { intros (h & Hh & _). congruence. }
  destruct (updateHost_replace (mkWorld e (set_hosts (MadeMap m) c)) m
              macString ipString port eq_refl Hnew)
    as (w1 & E1 & Hh1 & _ & Hr1 & _).
  destruct (deleteHost_spec macString w1) as (w2 & E2 & Hh2 & Hr2 & _).
  exists w2. split.
  { unfold mbind, M_bind, bind. rewrite E1. exact E2. }
  rewrite Hh2, Hh1, Hr2, Hr1. cbn [map_get map_delete ctl env root set_hosts].
  repeat split.
  - apply lookup_delete_eq.
  - rewrite DeletePath_lookup, under_host_port. reflexivity.
  - rewrite DeletePath_lookup, under_host_link. unfold AddPath.
    rewrite lookup_insert_ne
      by (intros Heq; do 2 apply String.app_inj in Heq; discriminate).
    apply lookup_insert_eq.
  - rewrite DeletePath_lookup, under_host_link. unfold AddPath.
    apply lookup_insert_eq.
Qed.

Lemma deleteHost_leaves_exported_paths_witness :
  exists w2,
    (updateHost "00:1b:44:11:3a:b7" "10.0.0.7" 3;; deleteHost "00:1b:44:11:3a:b7")
      (mkWorld (env freshWorld) (set_hosts (MadeMap ∅) (ctl freshWorld)))
    = Ok (tt, w2) /\
    map_get (hosts (ctl w2)) "00:1b:44:11:3a:b7" = None /\
    root (ctl w2) !! "state/link[mac=00:1b:44:11:3a:b7]/ip-address"
    = Some (Some (StringVal "10.0.0.7")).
Proof.
  destruct (deleteHost_leaves_exported_paths (env freshWorld) (ctl freshWorld) ∅
              "00:1b:44:11:3a:b7" "10.0.0.7" 3 (lookup_empty _))
    as (w2 & E & Hgone & _ & Hip & _).
  exists w2. split; [exact E|]. split; [exact Hgone | exact Hip].
Defined.

(** ** The link registry: one observation *)

(** A repeat observation only writes the time stamp. *)
Lemma updateIngressLink_repeat (w : World) (m : gmap N Link)
    (ingressPort egressPort : N) (egressDeviceID : string) :
  links (ctl w) = MadeMap m ->
  sameRemote m ingressPort egressPort egressDeviceID ->
  updateIngressLink ingressPort egressPort egressDeviceID w
  = Ok (tt, mkWorld (tick (env w))
              (set_links
                 (MadeMap (alter (with_link_LastUpdate (clock (env w) (reads (env w))))
                                 ingressPort m))
                 (ctl w))).
Proof.
  intros Hl (l & Hm & He & Hd).
  unfold updateIngressLink. mstep. rewrite Hl. cbn [map_get]. rewrite Hm.
  rewrite He, Hd, N.eqb_refl, String.eqb_refl. cbn [negb orb].
  rewrite time_Now_spec. cbv beta iota. cbn [ctl env]. rewrite Hl. reflexivity.
Qed.

(** A first observation, or one with another remote end, replaces the
    entry, mirrors it into the tree and notifies the responders. *)
Lemma updateIngressLink_replace (w : World) (m : gmap N Link)
    (ingressPort egressPort : N) (egressDeviceID : string) :
  links (ctl w) = MadeMap m ->
  ~ sameRemote m ingressPort egressPort egressDeviceID ->
  exists w',
    updateIngressLink ingressPort egressPort egressDeviceID w = Ok (tt, w') /\
    links (ctl w')
    = MadeMap (<[ingressPort :=
                   mkLink egressPort egressDeviceID ingressPort
                          (clock (env w) (2 + reads (env w))%nat)]> m) /\
    sent (ctl w')
    = linkAdded ingressPort egressPort egressDeviceID
        (clock (env w) (reads (env w))) (clock (env w) (1 + reads (env w))%nat)
      :: sent (ctl w) /\
    root (ctl w')
    = AddPath ("state/link[port=" +:+ fmt_d ingressPort +:+ "]/create-time")
        (UintVal (uint64_of_int64 (UnixNano (clock (env w) (reads (env w))))))
        (AddPath ("state/link[port=" +:+ fmt_d ingressPort +:+ "]/egress-device")
           (StringVal egressDeviceID)
           (AddPath ("state/link[port=" +:+ fmt_d ingressPort +:+ "]/egress-port")
              (IntVal (Z.of_N egressPort)) (root (ctl w)))) /\
    hosts (ctl w') = hosts (ctl w) /\ state (ctl w') = state (ctl w) /\
    config (ctl w') = config (ctl w) /\
    clock (env w') = clock (env w) /\ reads (env w') = (3 + reads (env w))%nat /\
    tickers (env w') = tickers (env w).
Proof.
  intros Hl Hnot.
  assert (Hbranch :
    match m !! ingressPort with
    | Some link => negb (EgressPort link =? egressPort)%N
                   || negb (String.eqb (EgressDeviceID link) egressDeviceID)
    | None => true
    end = true).
  { destruct (m !! ingressPort) as [l|] eqn:Hm; [|reflexivity].
    destruct (N.eqb_spec (EgressPort l) egressPort) as [He|]; [|reflexivity].
    destruct (String.eqb_spec (EgressDeviceID l) egressDeviceID) as [Hd|]; [|reflexivity].
    exfalso. apply Hnot. exists l. auto. }
  unfold updateIngressLink. mstep. rewrite Hl. cbn [map_get map_set].
  rewrite Hbranch. cbv beta iota.
  rewrite logf_spec. cbv beta iota. rewrite addLinkToTree_spec. cbv beta iota.
  rewrite time_Now_spec. cbv beta iota.
  eexists. split; [reflexivity|].
  cbn [ctl env linkMirrored links hosts state config sent root set_links
       set_root push_sent map_poke tick logged clock reads tickers].
  rewrite alter_insert_eq. repeat split; reflexivity.
Qed.

(** After any observation the registry holds the observed remote end. *)
Lemma updateIngressLink_holds (w : World) (m : gmap N Link)
    (ingressPort egressPort : N) (egressDeviceID : string) :
  links (ctl w) = MadeMap m ->
  exists w1 m1,
    updateIngressLink ingressPort egressPort egressDeviceID w = Ok (tt, w1) /\
    links (ctl w1) = MadeMap m1 /\
    sameRemote m1 ingressPort egressPort egressDeviceID /\
    (forall q, q <> ingressPort -> m1 !! q = m !! q).
Proof.
  intros Hl.
  destruct (decide (sameRemote m ingressPort egressPort egressDeviceID)) as [Hs|Hs].
  - eexists _, _. split; [apply (updateIngressLink_repeat _ _ _ _ _ Hl Hs)|].
    cbn. split; [reflexivity|]. split.
    + destruct Hs as (l & Hm & He & Hd).
      exists (with_link_LastUpdate (clock (env w) (reads (env w))) l).
      rewrite lookup_alter_eq, Hm. auto.
    + intros q Hq. by rewrite lookup_alter_ne.
  - destruct (updateIngressLink_replace _ _ _ _ _ Hl Hs) as (w1 & E & Hl1 & _).
    eexists _, _. split; [exact E|]. split; [exact Hl1|]. split.
    + eexists. rewrite lookup_insert_eq. auto.
    + intros q Hq. by rewrite lookup_insert_ne.
Qed.

(** C3: whatever the registry holds, a call of [updateIngressLink p e d]
    returns and leaves an entry for [p] with remote end [(e, d)].  A second
    call with the same [e] and [d] then writes nothing but the time stamp
    of that entry: the other fields of the entry, the other entries, the
    export tree, the notifications sent and the log are as before, so no
    second "added" event is emitted.  A call for [p] with another egress
    port or egress device instead replaces the entry by the new remote end
    and sends one more notification, the one carrying the new link. *)
Theorem updateIngressLink_refresh_or_replace (w : World) (m : gmap N Link)
    (p e : N) (d : string) :
  links (ctl w) = MadeMap m ->
  exists w1 l1,
    updateIngressLink p e d w = Ok (tt, w1) /\
    map_get (links (ctl w1)) p = Some l1 /\
    EgressPort l1 = e /\ EgressDeviceID l1 = d /\
    (exists w2,
       updateIngressLink p e d w1 = Ok (tt, w2) /\
       map_get (links (ctl w2)) p
       = Some (mkLink (EgressPort l1) (EgressDeviceID l1) (IngressPort l1)
                      (clock (env w1) (reads (env w1)))) /\
       (forall q, q <> p -> map_get (links (ctl w2)) q = map_get (links (ctl w1)) q) /\
       sent (ctl w2) = sent (ctl w1) /\
       root (ctl w2) = root (ctl w1) /\
       journal (env w2) = journal (env w1)) /\
    (forall e' d', e' <> e \/ d' <> d ->
       exists w3,
         updateIngressLink p e' d' w1 = Ok (tt, w3) /\
         map_get (links (ctl w3)) p
         = Some (mkLink e' d' p (clock (env w1) (2 + reads (env w1))%nat)) /\
         (forall q, q <> p -> map_get (links (ctl w3)) q = map_get (links (ctl w1)) q) /\
         sent (ctl w3)
         = linkAdded p e' d' (clock (env w1) (reads (env w1)))
             (clock (env w1) (1 + reads (env w1))%nat)
           :: sent (ctl w1)).
Proof.
  intros Hl.
  destruct (updateIngressLink_holds w m p e d Hl) as (w1 & m1 & E1 & Hl1 & Hs1 & _).
  pose proof Hs1 as (l1 & Hm1 & He1 & Hd1).
  exists w1, l1. rewrite Hl1. cbn [map_get].
  split; [exact E1|]. split; [exact Hm1|]. split; [exact He1|]. split; [exact Hd1|].
  split.
  - eexists. split; [apply (updateIngressLink_repeat _ _ _ _ _ Hl1 Hs1)|].
    cbn. rewrite lookup_alter_eq, Hm1. split; [reflexivity|].
    split; [|auto]. intros q Hq. by rewrite lookup_alter_ne.
  - intros e' d' Hdiff.
    assert (Hs : ~ sameRemote m1 p e' d').
    { intros (l & Hm & He & Hd). rewrite Hm1 in Hm. injection Hm as <-.
      destruct Hdiff; congruence. }
    destruct (updateIngressLink_replace _ _ _ _ _ Hl1 Hs)
      as (w3 & E3 & Hl3 & Hsent & _).
    exists w3. rewrite Hl3. cbn [map_get].
    split; [exact E3|]. split; [apply lookup_insert_eq|].
    split; [|exact Hsent]. intros q Hq. by rewrite lookup_insert_ne.
Qed.

Lemma updateIngressLink_refresh_or_replace_witness :
  exists w1 w2 w3,
    updateIngressLink 1 7 "deviceB" freshWorld = Ok (tt, w1) /\
    updateIngressLink 1 7 "deviceB" w1 = Ok (tt, w2) /\
    sent (ctl w2) = sent (ctl w1) /\
    updateIngressLink 1 8 "deviceB" w1 = Ok (tt, w3) /\
    length (sent (ctl w3)) = S (length (sent (ctl w1))).
Proof.
  destruct (updateIngressLink_refresh_or_replace freshWorld ∅ 1 7 "deviceB" eq_refl)
    as (w1 & l1 & E1 & _ & _ & _ & (w2 & E2 & _ & _ & Hsent & _) & Hrep).
  destruct (Hrep 8%N "deviceB") as (w3 & E3 & _ & _ & Hsent3); [left; discriminate|].
  exists w1, w2, w3. repeat split; try assumption.
  rewrite Hsent3. reflexivity.
Defined.

(** ** Pruning *)

Lemma deleteLink_spec (k : N) (w : World) :
  exists w',
    deleteLink k w = Ok (tt, w') /\
    links (ctl w') = map_delete (links (ctl w)) k /\
    hosts (ctl w') = hosts (ctl w) /\ state (ctl w') = state (ctl w) /\
    config (ctl w') = config (ctl w) /\ tickers (env w') = tickers (env w).
Proof. eexists. split; [reflexivity|]. repeat split; reflexivity. Qed.

Lemma pruneLinks_loop (limit : Time) (order : list (N * Link)) :
  forall (w : World) (m : gmap N Link),
    links (ctl w) = MadeMap m ->
    exists w',
      forEach order (fun '(ingressPort, link) =>
        if Time_Before (link_LastUpdate link) limit
        then
          deleteLink ingressPort;;
          inEnv (logf INFO ("Pruned stale link: " +:+ fmt_d (IngressPort link) +:+ " <- "
                            +:+ EgressDeviceID link +:+ "/" +:+ fmt_d (EgressPort link)))
        else ret tt) w = Ok (tt, w') /\
      links (ctl w') = MadeMap (foldl (pruneStep limit) m order) /\
      hosts (ctl w') = hosts (ctl w) /\ state (ctl w') = state (ctl w) /\
      config (ctl w') = config (ctl w) /\ tickers (env w') = tickers (env w).
Proof.
  induction order as [|[k l] order IH]; intros w m Hl.
  - exists w. cbn. repeat split; first [reflexivity | assumption].
  - cbn [forEach foldl]. unfold pruneStep at 2. cbn [fst snd].
    destruct (Time_Before (link_LastUpdate l) limit) eqn:Hstale.
    + destruct (deleteLink_spec k w) as (w1 & E1 & Hl1 & Hh1 & Hs1 & Hc1 & Ht1).
      rewrite Hl in Hl1. cbn in Hl1.
      set (w2 := mkWorld
                   (mkEnv (clock (env w1)) (reads (env w1))
                      (mkLog INFO ("Pruned stale link: " +:+ fmt_d (IngressPort l)
                                   +:+ " <- " +:+ EgressDeviceID l +:+ "/"
                                   +:+ fmt_d (EgressPort l)) :: journal (env w1))
                      (configFile (env w1)) (writeError (env w1)) (tickers (env w1)))
                   (ctl w1)).
      destruct (IH w2 (delete k m) Hl1) as (w' & E & Hl' & Hh' & Hs' & Hc' & Ht').
      exists w'. split.
      * unfold mbind, M_bind, bind in *. rewrite E1. exact E.
      * cbn in *. repeat split; congruence.
    + destruct (IH w m Hl) as (w' & E & Hrest).
      exists w'. split; [|exact Hrest].
      unfold mbind, M_bind, bind in *. exact E.
Qed.

Lemma foldl_pruneStep_None (limit : Time) (order : list (N * Link)) :
  forall (m : gmap N Link) (k : N),
    m !! k = None -> foldl (pruneStep limit) m order !! k = None.
Proof.
  induction order as [|[k' l'] order IH]; intros m k Hk; [exact Hk|].
  cbn [foldl]. apply IH. unfold pruneStep. cbn [fst snd].
  destruct (Time_Before (link_LastUpdate l') limit); [|exact Hk].
  destruct (decide (k' = k)) as [->|Hne];
    [apply lookup_delete_eq | by rewrite lookup_delete_ne].
Qed.

Lemma foldl_pruneStep_stale (limit : Time) (order : list (N * Link)) :
  forall (m : gmap N Link) (k : N) (l : Link),
    (k, l) ∈ order -> Time_Before (link_LastUpdate l) limit = true ->
    foldl (pruneStep limit) m order !! k = None.
Proof.
  induction order as [|[k' l'] order IH]; intros m k l Hin Hstale.
  - by apply elem_of_nil in Hin.
  - cbn [foldl]. apply elem_of_cons in Hin as [[= <- <-]|Hin].
    + apply foldl_pruneStep_None. unfold pruneStep. cbn [fst snd].
      rewrite Hstale. apply lookup_delete_eq.
    + by apply (IH _ _ l).
Qed.

Lemma foldl_pruneStep_fresh (limit : Time) (order : list (N * Link)) :
  forall (m : gmap N Link) (k : N),
    (forall l, (k, l) ∈ order -> Time_Before (link_LastUpdate l) limit = false) ->
    foldl (pruneStep limit) m order !! k = m !! k.
Proof.
  induction order as [|[k' l'] order IH]; intros m k Hfresh; [reflexivity|].
  cbn [foldl]. rewrite IH.
  - unfold pruneStep. cbn [fst snd].
    destruct (Time_Before (link_LastUpdate l') limit) eqn:Hstale; [|reflexivity].
    destruct (decide (k' = k)) as [->|Hne]; [|by rewrite lookup_delete_ne].
    rewrite (Hfresh l') in Hstale; [discriminate | apply elem_of_cons; by left].
  - intros l Hin. apply Hfresh. apply elem_of_cons. by right.
Qed.

(** One pass of [pruneLinks], in whatever order it visits the registry,
    returns and removes exactly the links last updated more than thirty
    seconds before its reading of the clock; the configured [MaxLinkAge]
    plays no part. *)
Theorem pruneLinks_thirty_seconds (w : World) (m : gmap N Link)
    (order : list (N * Link)) :
  links (ctl w) = MadeMap m ->
  range_order (links (ctl w)) order ->
  exists w' m',
    pruneLinks order w = Ok (tt, w') /\
    links (ctl w') = MadeMap m' /\
    (forall k, m' !! k = afterPrune (clock (env w) (reads (env w))) (m !! k)) /\
    hosts (ctl w') = hosts (ctl w) /\ state (ctl w') = state (ctl w) /\
    config (ctl w') = config (ctl w) /\ tickers (env w') = tickers (env w).
Proof.
  intros Hl Horder. rewrite Hl in Horder. unfold range_order in Horder. cbn in Horder.
  unfold pruneLinks. unfold_monad.
  set (now := clock (env w) (reads (env w))).
  set (limit := Time_Add now (-30 * Second)).
  destruct (pruneLinks_loop limit order (mkWorld (tick (env w)) (ctl w)) m Hl)
    as (w' & E & Hl' & Hrest).
  exists w', (foldl (pruneStep limit) m order).
  split; [exact E|]. split; [exact Hl'|]. split; [|exact Hrest].
  intros k. unfold afterPrune. fold limit.
  destruct (m !! k) as [l|] eqn:Hk.
  - assert (Hin : (k, l) ∈ order)
      by (rewrite Horder; by apply elem_of_map_to_list).
    destruct (Time_Before (link_LastUpdate l) limit) eqn:Hstale.
    + by apply (foldl_pruneStep_stale _ _ _ _ l).
    + rewrite foldl_pruneStep_fresh; [exact Hk|].
      intros l0 Hin0. rewrite Horder in Hin0.
      apply elem_of_map_to_list in Hin0. congruence.
  - by apply foldl_pruneStep_None.
Qed.

(** C1 (the code departs from it): with [MaxLinkAge] configured to ten
    seconds, a link last updated twenty seconds before a prune pass is
    older than the configured age, and is still in the registry after the
    pass, because [pruneLinks] compares with a fixed thirty seconds. *)
Theorem pruneLinks_keeps_link_older_than_MaxLinkAge :
  boot "switch1:9559" "agent1" shortAgeEnv = Ok shortAgeFresh /\
  MaxLinkAge (config (ctl shortAgeFresh)) = 10 /\
  updateIngressLink 1 7 "deviceB" shortAgeFresh = Ok (tt, shortAgeObserved) /\
  range_order (links (ctl shortAgeObserved)) [(1%N, observedLink)] /\
  pruneLinks [(1%N, observedLink)] shortAgeObserved = Ok (tt, shortAgePruned) /\
  link_LastUpdate observedLink + seconds (MaxLinkAge (config (ctl shortAgeObserved)))
    < clock (env shortAgeObserved) (reads (env shortAgeObserved)) /\
  map_get (links (ctl shortAgePruned)) 1%N = Some observedLink.
Proof.
  split; [vm_compute; reflexivity|].
  split; [vm_compute; reflexivity|].
  split; [vm_compute; reflexivity|].
  split; [vm_compute; reflexivity|].
  split; [vm_compute; reflexivity|].
  split; [vm_compute; reflexivity | vm_compute; reflexivity].
Qed.

(** ** The stable sort *)

Section StableSort.
Context {A : Type} (key : A -> N).

Local Abbreviation less := (fun a b : A => (key a <? key b)%N).
Local Abbreviation le_key := (fun a b : A => (key a <= key b)%N).

Lemma insertStable_perm (x : A) (l : list A) : insertStable less x l ≡ₚ x :: l.
Proof.
  induction l as [|y l IH]; cbn; [reflexivity|].
  destruct (less y x); [|reflexivity].
  rewrite IH. apply Permutation_swap.
Qed.

Lemma insertStable_sorted (x : A) (l : list A) :
  StronglySorted le_key l -> StronglySorted le_key (insertStable less x l).
Proof.
  induction 1 as [|y l Hl IH Hy]; cbn.
  - constructor; constructor.
  - destruct (N.ltb_spec (key y) (key x)) as [Hlt|Hge].
    + constructor; [exact IH|].
      rewrite insertStable_perm. constructor; [cbn; lia | exact Hy].
    + constructor; [by constructor|].
      constructor; [exact Hge|].
      eapply Forall_impl; [exact Hy|]. cbn. intros; lia.
Qed.

Lemma SliceStable_perm (l : list A) : SliceStable less l ≡ₚ l.
Proof.
  induction l as [|x l IH]; cbn; [reflexivity|].
  rewrite insertStable_perm. by rewrite IH.
Qed.

Lemma SliceStable_sorted (l : list A) : StronglySorted le_key (SliceStable less l).
Proof.
  induction l as [|x l IH]; cbn; [constructor | by apply insertStable_sorted].
Qed.

(** Stability: elements with the same key keep their order. *)
Lemma insertStable_stable (v : N) (x : A) (l : list A) :
  filter (fun a => key a = v) (insertStable less x l)
  = filter (fun a => key a = v) (x :: l).
Proof.
  induction l as [|y l IH]; cbn; [reflexivity|].
  destruct (N.ltb_spec (key y) (key x)) as [Hlt|Hge]; [|reflexivity].
  rewrite (filter_cons _ y), IH, !filter_cons.
  destruct (decide (key y = v)), (decide (key x = v)); try reflexivity. lia.
Qed.

Lemma SliceStable_stable (v : N) (l : list A) :
  filter (fun a => key a = v) (SliceStable less l) = filter (fun a => key a = v) l.
Proof.
  induction l as [|x l IH]; [reflexivity|].
  change (SliceStable less (x :: l)) with (insertStable less x (SliceStable less l)).
  rewrite insertStable_stable, !filter_cons, IH. reflexivity.
Qed.
End StableSort.

(** ** Key-field coherence and the snapshot of the links *)

Lemma foldl_collect {K V : Type} (order : list (K * V)) (acc : list V) :
  foldl (fun acc kv => (acc ++ [kv.2])%list) acc order = (acc ++ order.*2)%list.
Proof.
  revert acc. induction order as [|kv order IH]; intros acc; cbn.
  - by rewrite app_nil_r.
  - rewrite IH, <- app_assoc. reflexivity.
Qed.

Lemma GetLinks_spec (order : list (N * Link)) (w : World) :
  GetLinks order w
  = Ok (SliceStable (fun a b => (IngressPort a <? IngressPort b)%N) order.*2, w).
Proof. unfold GetLinks. rewrite foldl_collect. reflexivity. Qed.

Lemma StronglySorted_le_lt (l : list N) :
  StronglySorted N.le l -> NoDup l -> StronglySorted N.lt l.
Proof.
  induction 1 as [|x l Hl IH Hx]; intros Hnd; [constructor|].
  apply NoDup_cons in Hnd as [Hnotin Hnd].
  constructor; [by apply IH|].
  rewrite Forall_forall in *. intros y Hy.
  specialize (Hx y Hy). assert (x <> y) by (intros ->; done). lia.
Qed.

Lemma coherent_keys (m : gmap N Link) :
  linksCoherent (MadeMap m) -> IngressPort <$> (map_to_list m).*2 = (map_to_list m).*1.
Proof.
  intros Hc. rewrite <- list_fmap_compose.
  apply list_fmap_ext. intros i [k l] Hi. cbn.
  apply (Hc k l). cbn. apply elem_of_map_to_list.
  by apply list_elem_of_lookup_2 in Hi.
Qed.

(** C6: for every registry and every order in which the loop of [GetLinks]
    visits it, [GetLinks] returns a list and leaves the world, registry
    included, as it was; the list holds exactly the links of the registry
    and is sorted by ascending ingress port.  When every link sits under
    its own ingress port the ports in the list are strictly ascending and
    are exactly the keys, and the list does not depend on the visiting
    order. *)
Theorem GetLinks_sorted_snapshot (w : World) (m : gmap N Link)
    (order : list (N * Link)) :
  links (ctl w) = MadeMap m ->
  range_order (links (ctl w)) order ->
  exists ls,
    GetLinks order w = Ok (ls, w) /\
    ls ≡ₚ (map_to_list m).*2 /\
    (forall l, l ∈ ls <-> exists k, m !! k = Some l) /\
    StronglySorted (fun a b => (IngressPort a <= IngressPort b)%N) ls /\
    (linksCoherent (links (ctl w)) ->
       StronglySorted N.lt (IngressPort <$> ls) /\
       (IngressPort <$> ls) ≡ₚ (map_to_list m).*1 /\
       forall order', range_order (links (ctl w)) order' ->
                      GetLinks order' w = Ok (ls, w)).
Proof.
  intros Hl Horder. rewrite Hl in *. unfold range_order in *. cbn [entries] in *.
  exists (SliceStable (fun a b => (IngressPort a <? IngressPort b)%N) order.*2).
  assert (Hperm : forall o, o ≡ₚ map_to_list m ->
            SliceStable (fun a b => (IngressPort a <? IngressPort b)%N) o.*2
            ≡ₚ (map_to_list m).*2).
  { intros o Ho. rewrite (SliceStable_perm IngressPort). by rewrite Ho. }
  assert (Hin : forall l,
            l ∈ SliceStable (fun a b => (IngressPort a <? IngressPort b)%N) order.*2
            <-> exists k, m !! k = Some l).
  { intros l. rewrite (Hperm order Horder), list_elem_of_fmap. split.
    - intros ([k l'] & -> & Hkl). exists k. by apply elem_of_map_to_list.
    - intros [k Hk]. exists (k, l). split; [reflexivity|].
      by apply elem_of_map_to_list. }
  split; [apply GetLinks_spec|]. split; [by apply Hperm|]. split; [exact Hin|].
  split; [apply (SliceStable_sorted IngressPort)|].
  intros Hc.
  assert (Hkeys : IngressPort <$>
                    SliceStable (fun a b => (IngressPort a <? IngressPort b)%N) order.*2
                  ≡ₚ (map_to_list m).*1).
  { rewrite (Hperm order Horder). by rewrite coherent_keys. }
  split; [|split; [exact Hkeys|]].
  - apply StronglySorted_le_lt.
    + eapply StronglySorted_fmap; [|apply (SliceStable_sorted IngressPort)].
      intros x y Hxy. exact Hxy.
    + rewrite Hkeys. apply NoDup_fst_map_to_list.
  - intros order' Horder'. rewrite GetLinks_spec. do 2 f_equal.
    apply (StronglySorted_unique_strong
             (fun a b => (IngressPort a <= IngressPort b)%N)).
    + intros x1 x2 H1 H2 Hle Hge.
      rewrite (Hperm order' Horder'), <- (Hperm order Horder) in H1.
      apply Hin in H1 as [k1 Hk1]. apply Hin in H2 as [k2 Hk2].
      pose proof (Hc k1 x1 Hk1). pose proof (Hc k2 x2 Hk2).
      assert (k1 = k2) by lia. congruence.
    + apply (SliceStable_sorted IngressPort).
    + apply (SliceStable_sorted IngressPort).
    + by rewrite (Hperm order' Horder'), (Hperm order Horder).
Qed.

Lemma GetLinks_sorted_snapshot_witness :
  exists ls,
    updateIngressLink 5 7 "deviceB" freshWorld = Ok (tt, oneLink) /\
    updateIngressLink 1 7 "deviceB" oneLink = Ok (tt, twoLinks) /\
    updateIngressLink 3 9 "deviceC" twoLinks = Ok (tt, threeLinks) /\
    GetLinks (entries (links (ctl threeLinks))) threeLinks = Ok (ls, threeLinks) /\
    IngressPort <$> ls = [1; 3; 5]%N.
Proof.
  destruct (GetLinks_sorted_snapshot threeLinks threeLinksMap
              (map_to_list threeLinksMap) eq_refl (reflexivity _))
    as (ls & E & _).
  exists ls. split; [vm_compute; reflexivity|]. split; [vm_compute; reflexivity|].
  split; [vm_compute; reflexivity|]. split; [exact E|].
  rewrite GetLinks_spec in E. injection E as <-. vm_compute. reflexivity.
Defined.

(** ** Key-field coherence is an invariant *)

Lemma map_delete_sub {K : Type} `{Countable K} {V : Type}
    (g : GoMap K V) (k k' : K) (v : V) :
  map_get (map_delete g k) k' = Some v -> map_get g k' = Some v.
Proof.
  destruct g as [|m]; cbn; [done|].
  intros Hd. apply lookup_delete_Some in Hd. tauto.
Qed.

Lemma pruneLinks_loop_sub (limit : Time) (order : list (N * Link)) :
  forall w w' : World,
    forEach order (fun '(ingressPort, link) =>
      if Time_Before (link_LastUpdate link) limit
      then
        deleteLink ingressPort;;
        inEnv (logf INFO ("Pruned stale link: " +:+ fmt_d (IngressPort link) +:+ " <- "
                          +:+ EgressDeviceID link +:+ "/" +:+ fmt_d (EgressPort link)))
      else ret tt) w = Ok (tt, w') ->
    (forall k l, map_get (links (ctl w')) k = Some l ->
                 map_get (links (ctl w)) k = Some l) /\
    hosts (ctl w') = hosts (ctl w) /\ state (ctl w') = state (ctl w) /\
    config (ctl w') = config (ctl w) /\ tickers (env w') = tickers (env w).
Proof.
  induction order as [|[k l] order IH]; intros w w'; cbn [forEach].
  - intros [= <-]. auto.
  - destruct (Time_Before (link_LastUpdate l) limit).
    + destruct (deleteLink_spec k w) as (w1 & E1 & Hl1 & Hh1 & Hs1 & Hc1 & Ht1).
      unfold_monad. rewrite E1. intros E.
      apply IH in E as (Hsub & Hh & Hs & Hc & Ht).
      cbn in *. split; [|repeat split; congruence].
      intros k' l' Hk'. apply Hsub in Hk'. rewrite Hl1 in Hk'.
      by apply map_delete_sub in Hk'.
    + unfold_monad. intros E. by apply IH in E.
Qed.

(** A prune pass only removes entries, in whatever order it runs. *)
Lemma pruneLinks_sub (order : list (N * Link)) (w w' : World) :
  pruneLinks order w = Ok (tt, w') ->
  (forall k l, map_get (links (ctl w')) k = Some l ->
               map_get (links (ctl w)) k = Some l) /\
  hosts (ctl w') = hosts (ctl w) /\ state (ctl w') = state (ctl w) /\
  config (ctl w') = config (ctl w) /\ tickers (env w') = tickers (env w).
Proof.
  unfold pruneLinks. unfold_monad. intros E.
  apply (pruneLinks_loop_sub (Time_Add (clock (env w) (reads (env w))) (-30 * Second))) in E.
  exact E.
Qed.

Lemma pruneHosts_loop_sub (limit : Time) (order : list (string * Host)) :
  forall w w' : World,
    forEach order (fun '(mac, host) =>
      if Time_Before (host_LastUpdate host) limit
      then
        deleteHost mac;;
        inEnv (logf INFO ("Pruned stale host: " +:+ MAC host +:+ " <- "
                          +:+ IP host +:+ "/" +:+ fmt_s_uint32 (host_Port host)))
      else ret tt) w = Ok (tt, w') ->
    (forall k h, map_get (hosts (ctl w')) k = Some h ->
                 map_get (hosts (ctl w)) k = Some h) /\
    links (ctl w') = links (ctl w) /\ state (ctl w') = state (ctl w) /\
    config (ctl w') = config (ctl w) /\ tickers (env w') = tickers (env w).
Proof.
  induction order as [|[k h] order IH]; intros w w'; cbn [forEach].
  - intros [= <-]. auto.
  - destruct (Time_Before (host_LastUpdate h) limit).
    + destruct (deleteHost_spec k w) as (w1 & E1 & Hh1 & _ & Hl1 & Hs1 & Hc1 & Ht1).
      unfold_monad. rewrite E1. intros E.
      apply IH in E as (Hsub & Hl & Hs & Hc & Ht).
      cbn in *. split; [|repeat split; congruence].
      intros k' h' Hk'. apply Hsub in Hk'. rewrite Hh1 in Hk'.
      by apply map_delete_sub in Hk'.
    + unfold_monad. intros E. by apply IH in E.
Qed.

Lemma pruneHosts_sub (order : list (string * Host)) (w w' : World) :
  pruneHosts order w = Ok (tt, w') ->
  (forall k h, map_get (hosts (ctl w')) k = Some h ->
               map_get (hosts (ctl w)) k = Some h) /\
  links (ctl w') = links (ctl w) /\ state (ctl w') = state (ctl w) /\
  config (ctl w') = config (ctl w) /\ tickers (env w') = tickers (env w).
Proof.
  unfold pruneHosts. unfold_monad. intros E.
  apply (pruneHosts_loop_sub (Time_Add (clock (env w) (reads (env w))) (-30 * Minute))) in E.
  exact E.
Qed.

Lemma updateIngressLink_nil (w : World) (p e : N) (d : string) :
  links (ctl w) = NilMap ->
  updateIngressLink p e d w = Panic "assignment to entry in nil map".
Proof. intros Hl. unfold updateIngressLink. mstep. rewrite Hl. reflexivity. Qed.

Lemma updateIngressLink_coherent (w w' : World) (p e : N) (d : string) :
  updateIngressLink p e d w = Ok (tt, w') ->
  linksCoherent (links (ctl w)) ->
  linksCoherent (links (ctl w')) /\ hosts (ctl w') = hosts (ctl w).
Proof.
  intros E Hc. destruct (links (ctl w)) as [|m] eqn:Hl.
  { rewrite (updateIngressLink_nil _ _ _ _ Hl) in E. discriminate. }
  destruct (decide (sameRemote m p e d)) as [Hs|Hs].
  - rewrite (updateIngressLink_repeat _ _ _ _ _ Hl Hs) in E. injection E as <-.
    cbn. split; [|reflexivity]. intros k l. cbn.
    destruct (decide (p = k)) as [->|Hne].
    + rewrite lookup_alter_eq. destruct (m !! k) as [l0|] eqn:Hk; [|done].
      cbn. intros [= <-]. cbn. by apply (Hc k l0).
    + rewrite lookup_alter_ne by done. apply (Hc k l).
  - destruct (updateIngressLink_replace _ _ _ _ _ Hl Hs)
      as (w1 & E1 & Hl1 & _ & _ & Hh & _).
    rewrite E1 in E. injection E as <-. split; [|exact Hh].
    rewrite Hl1. intros k l. cbn.
    destruct (decide (p = k)) as [->|Hne].
    + rewrite lookup_insert_eq. by intros [= <-].
    + rewrite lookup_insert_ne by done. apply (Hc k l).
Qed.

Lemma updateHost_coherent (w w' : World) (mac ip : string) (port : N) :
  updateHost mac ip port w = Ok (tt, w') ->
  hostsCoherent (hosts (ctl w)) ->
  hostsCoherent (hosts (ctl w')) /\ links (ctl w') = links (ctl w).
Proof.
  intros E Hc. destruct (hosts (ctl w)) as [|m] eqn:Hh.
  { rewrite (updateHost_nil _ _ _ _ Hh) in E. discriminate. }
  destruct (decide (sameHost m mac ip port)) as [Hs|Hs].
  - rewrite (updateHost_repeat _ _ _ _ _ Hh Hs) in E. injection E as <-.
    cbn. split; [|reflexivity]. intros k h. cbn.
    destruct (decide (mac = k)) as [->|Hne].
    + rewrite lookup_alter_eq. destruct (m !! k) as [h0|] eqn:Hk; [|done].
      cbn. intros [= <-]. cbn. by apply (Hc k h0).
    + rewrite lookup_alter_ne by done. apply (Hc k h).
  - destruct (updateHost_replace _ _ _ _ _ Hh Hs)
      as (w1 & E1 & Hh1 & _ & _ & Hl & _).
    rewrite E1 in E. injection E as <-. split; [|exact Hl].
    rewrite Hh1. intros k h. cbn.
    destruct (decide (mac = k)) as [->|Hne].
    + rewrite lookup_insert_eq. by intros [= <-].
    + rewrite lookup_insert_ne by done. apply (Hc k h).
Qed.

(** Every operation that returns preserves coherence. *)
Lemma runOp_coherent (op : Op) (w w' : World) :
  runOp op w = Ok (tt, w') -> coherent w -> coherent w'.
Proof.
  intros E [Hl Hh]. unfold coherent. destruct op; cbn [runOp] in E.
  - destruct (updateIngressLink_coherent _ _ _ _ _ E Hl) as [Hl' ->]. auto.
  - destruct (updateHost_coherent _ _ _ _ _ E Hh) as [Hh' ->]. auto.
  - destruct (pruneLinks_sub _ _ _ E) as (Hsub & -> & _). split; [|exact Hh].
    intros k l Hk. apply Hl. by apply Hsub.
  - destruct (pruneHosts_sub _ _ _ E) as (Hsub & -> & _). split; [exact Hl|].
    intros k h Hk. apply Hh. by apply Hsub.
  - destruct (deleteLink_spec ingressPort w) as (w1 & E1 & Hl1 & Hh1 & _).
    rewrite E1 in E. injection E as <-. rewrite Hl1, Hh1. split; [|exact Hh].
    intros k l Hk. apply Hl. by apply map_delete_sub in Hk.
  - destruct (deleteHost_spec macString w) as (w1 & E1 & Hh1 & _ & Hl1 & _).
    rewrite E1 in E. injection E as <-. rewrite Hl1, Hh1. split; [exact Hl|].
    intros k h Hk. apply Hh. by apply map_delete_sub in Hk.
Qed.

(** C10: the controller [NewController] returns is coherent (each link
    sits under its own ingress port, each host under its own MAC), and
    from any coherent controller every sequence of [updateIngressLink],
    [updateHost], [pruneLinks], [pruneHosts], [deleteLink] and
    [deleteHost] calls that return leads to a coherent controller. *)
Theorem registries_key_coherent :
  (forall targetAddress agentID e w0,
     boot targetAddress agentID e = Ok w0 -> coherent w0) /\
  (forall w w', coherent w -> reachable w w' -> coherent w').
Proof.
  split.
  - intros targetAddress agentID e w0 Hb.
    destruct (boot_total targetAddress agentID e) as (w & Hb' & Hl & Hh & _).
    rewrite Hb' in Hb. injection Hb as <-. unfold coherent. rewrite Hl, Hh.
    split; intros k x; cbn; [by rewrite lookup_empty | done].
  - intros w w' Hc Hr. induction Hr as [|w1 w2 op _ IH _ E]; [exact Hc|].
    by apply (runOp_coherent op w1 w2).
Qed.

Lemma registries_key_coherent_witness :
  reachable freshWorld twoLinksLeft /\ coherent twoLinksLeft.
Proof.
  assert (Hreach : reachable freshWorld twoLinksLeft).
  { apply (reach_op _ threeLinks twoLinksLeft (OpDeleteLink 1));
      [|exact I | vm_compute; reflexivity].
    apply (reach_op _ twoLinks threeLinks (OpUpdateIngressLink 3 9 "deviceC"));
      [|exact I | vm_compute; reflexivity].
    apply (reach_op _ oneLink twoLinks (OpUpdateIngressLink 1 7 "deviceB"));
      [|exact I | vm_compute; reflexivity].
    apply (reach_op _ freshWorld oneLink (OpUpdateIngressLink 5 7 "deviceB"));
      [|exact I | vm_compute; reflexivity].
    apply reach_here. }
  split; [exact Hreach|].
  destruct registries_key_coherent as [Hboot Hstep].
  apply (Hstep freshWorld twoLinksLeft); [|exact Hreach].
  apply (Hboot "switch1:9559" "agent1" quietEnv). exact boot_freshWorld.
Defined.

(** ** The lifecycle *)

Lemma Stop_spec (w : World) :
  exists w',
    Stop w = Ok (tt, w') /\ state (ctl w') = Stopped /\
    links (ctl w') = links (ctl w) /\ hosts (ctl w') = hosts (ctl w) /\
    tickers (env w') = tickers (env w).
Proof.
  unfold Stop, setState. unfold_monad. cbn.
  destruct (ctxCancel (ctl w)); cbn; eexists; (split; [reflexivity|]); cbn; auto.
Qed.

Lemma reenterDiscovery_spec (w : World) :
  reenterDiscovery w = Ok (tt, mkWorld (env w) (set_state Configured (ctl w))).
Proof. reflexivity. Qed.

Section Lifecycle.
Variables (waitForDeviceConnection waitForPipelineConfiguration
           waitForMastershipArbitration discoverPorts
           programPacketInterceptRules emitLLDPPackets
           validatePipelineConfiguration : M World unit).

Local Abbreviation step' :=
  (step waitForDeviceConnection waitForPipelineConfiguration
        waitForMastershipArbitration discoverPorts
        programPacketInterceptRules emitLLDPPackets
        validatePipelineConfiguration).

(** At the head of its loop the worker returns when it reads [Stopped]. *)
Lemma run_returns_on_Stopped (w : World) :
  state (ctl w) = Stopped -> exists w', step' (w, AtLoopHead) (w', Returned).
Proof. intros Hs. eexists. by eapply step_return. Qed.

(** C5 (the code departs from it): take any controller in state
    [Reconfigured].  The worker reads the state and dispatches to
    [reenterDiscovery]; [Stop] then sets the state to [Stopped]; the
    handler's unconditional write then sets it to [Configured].  So a step
    changes the state away from [Stopped], and the worker, back at the
    head of its loop, cannot return. *)
Theorem Stopped_overwritten_by_reenterDiscovery (e : Env) (c : Controller) :
  exists w1 w2,
    step' (mkWorld e (set_state Reconfigured c), AtLoopHead)
          (mkWorld e (set_state Reconfigured c), Dispatched Reconfigured) /\
    Stop (mkWorld e (set_state Reconfigured c)) = Ok (tt, w1) /\
    step' (mkWorld e (set_state Reconfigured c), Dispatched Reconfigured)
          (w1, Dispatched Reconfigured) /\
    state (ctl w1) = Stopped /\
    step' (w1, Dispatched Reconfigured) (w2, AtLoopHead) /\
    state (ctl w2) = Configured /\
    rtc step' (mkWorld e (set_state Reconfigured c), AtLoopHead) (w2, AtLoopHead) /\
    (forall w3, ~ step' (w2, AtLoopHead) (w3, Returned)).
Proof.
  destruct (Stop_spec (mkWorld e (set_state Reconfigured c)))
    as (w1 & EStop & Hs1 & _).
  assert (Hread : step' (mkWorld e (set_state Reconfigured c), AtLoopHead)
                        (mkWorld e (set_state Reconfigured c), Dispatched Reconfigured)).
  { apply (step_read _ _ _ _ _ _ _ (mkWorld e (set_state Reconfigured c))).
    cbn. discriminate. }
  assert (Hstop : step' (mkWorld e (set_state Reconfigured c), Dispatched Reconfigured)
                        (w1, Dispatched Reconfigured)).
  { apply (step_call _ _ _ _ _ _ _ _ CallStop). exact EStop. }
  assert (Hwrite : step' (w1, Dispatched Reconfigured)
                         (mkWorld (env w1) (set_state Configured (ctl w1)), AtLoopHead)).
  { apply step_handler; [discriminate|]. cbn [handler]. apply reenterDiscovery_spec. }
  exists w1, (mkWorld (env w1) (set_state Configured (ctl w1))).
  split; [exact Hread|]. split; [exact EStop|]. split; [exact Hstop|].
  split; [exact Hs1|]. split; [exact Hwrite|]. split; [reflexivity|]. split.
  - eapply rtc_l; [exact Hread|]. eapply rtc_l; [exact Hstop|].
    eapply rtc_l; [exact Hwrite|]. apply rtc_refl.
  - intros w3 Hstep. inversion Hstep; subst. cbn in *. discriminate.
Qed.
End Lifecycle.

(** ** The steady-state loop and its tickers *)

Lemma saveConfig_tickers (cfg : Config) (e e' : Env) :
  saveConfig cfg e = Ok (tt, e') -> tickers e' = tickers e.
Proof.
  unfold saveConfig. unfold_monad.
  destruct (writeError e); cbn; intros [= <-]; reflexivity.
Qed.

Lemma UpdateConfig_tickers (w w' : World) :
  UpdateConfig w = Ok (tt, w') -> tickers (env w') = tickers (env w).
Proof.
  unfold UpdateConfig, Node_Value. unfold_monad.
  repeat match goal with
         | |- context [GetPath ?p ?t] => destruct (GetPath p t); [|discriminate]
         end.
  cbn [env ctl].
  match goal with
  | |- context [saveConfig ?c ?e] =>
      destruct (saveConfig c e) as [[[] e']|] eqn:Es; [|discriminate]
  end.
  apply saveConfig_tickers in Es.
  rewrite setStateIf_spec. intros [= <-]. exact Es.
Qed.

Lemma updateIngressLink_tickers (w w' : World) (p e : N) (d : string) :
  updateIngressLink p e d w = Ok (tt, w') -> tickers (env w') = tickers (env w).
Proof.
  intros E. destruct (links (ctl w)) as [|m] eqn:Hl.
  { rewrite (updateIngressLink_nil _ _ _ _ Hl) in E. discriminate. }
  destruct (decide (sameRemote m p e d)) as [Hs|Hs].
  - rewrite (updateIngressLink_repeat _ _ _ _ _ Hl Hs) in E. by injection E as <-.
  - destruct (updateIngressLink_replace _ _ _ _ _ Hl Hs) as (w1 & E1 & Hrest).
    rewrite E1 in E. injection E as <-. apply Hrest.
Qed.

Lemma updateHost_tickers (w w' : World) (mac ip : string) (port : N) :
  updateHost mac ip port w = Ok (tt, w') -> tickers (env w') = tickers (env w).
Proof.
  intros E. destruct (hosts (ctl w)) as [|m] eqn:Hh.
  { rewrite (updateHost_nil _ _ _ _ Hh) in E. discriminate. }
  destruct (decide (sameHost m mac ip port)) as [Hs|Hs].
  - rewrite (updateHost_repeat _ _ _ _ _ Hh Hs) in E. by injection E as <-.
  - destruct (updateHost_replace _ _ _ _ _ Hh Hs) as (w1 & E1 & Hrest).
    rewrite E1 in E. injection E as <-. apply Hrest.
Qed.

Lemma runCall_tickers (call : Call) (w w' : World) :
  runCall call w = Ok (tt, w') -> tickers (env w') = tickers (env w).
Proof.
  destruct call; cbn [runCall]; intros E.
  - destruct (Stop_spec w) as (w1 & E1 & _ & _ & _ & Ht).
    rewrite E1 in E. by injection E as <-.
  - by apply UpdateConfig_tickers.
  - by eapply updateIngressLink_tickers.
  - by eapply updateHost_tickers.
Qed.

Lemma forEach_tickers {A : Type} (body : A -> M World unit) (xs : list A) :
  (forall x w w', body x w = Ok (tt, w') -> tickers (env w') = tickers (env w)) ->
  forall w w', forEach xs body w = Ok (tt, w') -> tickers (env w') = tickers (env w).
Proof.
  intros Hbody. induction xs as [|x xs IH]; intros w w'; cbn [forEach].
  - by intros [= <-].
  - unfold_monad. destruct (body x w) as [[[] w1]|] eqn:E1; [|discriminate].
    intros E. rewrite (IH _ _ E). by apply (Hbody x).
Qed.

Lemma startTickers_spec (w w' : World) :
  startTickers w = Ok (tt, w') ->
  ctl w' = ctl w /\
  tickers (env w') = (tickers (env w) ++ discoveryTickers (config (ctl w)))%list.
Proof.
  unfold startTickers, NewTicker. unfold_monad. cbn.
  destruct (seconds (EmitFrequency (config (ctl w))) <=? 0); [discriminate|]. cbn.
  destruct (seconds (PipelineValidationFrequency (config (ctl w))) <=? 0);
    [discriminate|]. cbn.
  destruct (seconds (PortRediscoveryFrequency (config (ctl w))) <=? 0);
    [discriminate|]. cbn.
  destruct (seconds (LinkPruneFrequency (config (ctl w))) <=? 0);
    [discriminate|]. cbn.
  intros [= <-]. cbn. split; [reflexivity|].
  unfold discoveryTickers. rewrite <- !app_assoc. reflexivity.
Qed.

Lemma startTickers_total (w : World) :
  0 < seconds (EmitFrequency (config (ctl w))) ->
  0 < seconds (PipelineValidationFrequency (config (ctl w))) ->
  0 < seconds (PortRediscoveryFrequency (config (ctl w))) ->
  0 < seconds (LinkPruneFrequency (config (ctl w))) ->
  exists w', startTickers w = Ok (tt, w').
Proof.
  intros H1 H2 H3 H4. unfold startTickers, NewTicker. unfold_monad. cbn.
  apply Z.leb_gt in H1, H2, H3, H4. rewrite H1. cbn. rewrite H2. cbn.
  rewrite H3. cbn. rewrite H4. cbn. eauto.
Qed.

(** A period that is not positive makes [enterDiscovery] panic. *)
Lemma startTickers_panics (w : World) :
  seconds (EmitFrequency (config (ctl w))) <= 0 ->
  startTickers w = Panic "non-positive interval for NewTicker".
Proof.
  intros H1. unfold startTickers, NewTicker. unfold_monad. cbn.
  apply Z.leb_le in H1. rewrite H1. reflexivity.
Qed.

Section Discovery.
Variables (discoverPorts emitLLDPPackets validatePipelineConfiguration
           : M World unit).

(** The three handlers hold no reference to the tickers of the loop. *)
Hypothesis discoverPorts_tickers : forall w w',
  discoverPorts w = Ok (tt, w') -> tickers (env w') = tickers (env w).
Hypothesis emitLLDPPackets_tickers : forall w w',
  emitLLDPPackets w = Ok (tt, w') -> tickers (env w') = tickers (env w).
Hypothesis validatePipelineConfiguration_tickers : forall w w',
  validatePipelineConfiguration w = Ok (tt, w') -> tickers (env w') = tickers (env w).

Local Abbreviation loop :=
  (discoveryLoop discoverPorts emitLLDPPackets validatePipelineConfiguration).
Local Abbreviation enter :=
  (enterDiscovery discoverPorts emitLLDPPackets validatePipelineConfiguration).

Lemma onTick_tickers (t : Tick) (w w' : World) :
  onTick discoverPorts emitLLDPPackets validatePipelineConfiguration t w = Ok (tt, w') ->
  tickers (env w') = tickers (env w).
Proof.
  destruct t; cbn [onTick]; auto.
  unfold_monad. destruct (pruneLinks linkOrder w) as [[[] w1]|] eqn:E1; [|discriminate].
  intros E2. apply pruneLinks_sub in E1 as (_ & _ & _ & _ & <-).
  by apply pruneHosts_sub in E2 as (_ & _ & _ & _ & ->).
Qed.

Lemma discoveryLoop_exits (rounds : list Round) (w : World) :
  state (ctl w) <> Configured -> loop rounds w = Ok (Exited, w).
Proof.
  intros Hs. destruct rounds; cbn [discoveryLoop];
    unfold getState; unfold_monad; by destruct (decide (state (ctl w) = Configured)).
Qed.

Lemma discoveryLoop_outcome (rounds : list Round) :
  forall (w w' : World) (r : LoopEnd),
    loop rounds w = Ok (r, w') ->
    (r = Exited -> state (ctl w') <> Configured) /\
    (r = Waiting -> state (ctl w') = Configured) /\
    tickers (env w') = tickers (env w).
Proof.
  induction rounds as [|[calls t] rounds IH]; intros w w' r; cbn [discoveryLoop];
    unfold getState; unfold_monad;
    destruct (decide (state (ctl w) = Configured)) as [Hs|Hs];
    try (intros [= <- <-]; repeat split; first [done | discriminate]).
  cbn [meanwhile fired].
  destruct (forEach calls runCall w) as [[[] w1]|] eqn:E1; [|discriminate].
  destruct (onTick _ _ _ t w1) as [[[] w2]|] eqn:E2; [|discriminate].
  intros E. apply IH in E as (Hex & Hwait & Ht).
  split; [exact Hex|]. split; [exact Hwait|].
  rewrite Ht, (onTick_tickers _ _ _ E2).
  apply (forEach_tickers runCall calls runCall_tickers _ _ E1).
Qed.

(** C7 as amended: at its loop condition the steady-state loop exits, with
    nothing changed, as soon as the state is not [Configured], and a loop
    that was left has observed a state other than [Configured];
    [enterDiscovery] stops none of the four tickers it created: when it
    returns, they are still running, after the tickers that existed. *)
Theorem enterDiscovery_exits_tickers_running (rounds : list Round) (w : World) :
  (state (ctl w) <> Configured -> loop rounds w = Ok (Exited, w)) /\
  (forall r w', enter rounds w = Ok (r, w') ->
     (r = Exited -> state (ctl w') <> Configured) /\
     tickers (env w')
     = (tickers (env w) ++ discoveryTickers (config (ctl w)))%list /\
     ~ tickersReleased (tickers (env w)) (tickers (env w'))) /\
  (state (ctl w) <> Configured ->
   0 < seconds (EmitFrequency (config (ctl w))) ->
   0 < seconds (PipelineValidationFrequency (config (ctl w))) ->
   0 < seconds (PortRediscoveryFrequency (config (ctl w))) ->
   0 < seconds (LinkPruneFrequency (config (ctl w))) ->
   exists w', enter rounds w = Ok (Exited, w')).
Proof.
  split; [apply discoveryLoop_exits|]. split.
  - intros r w'. unfold enterDiscovery. unfold mbind, M_bind, bind.
    destruct (startTickers w) as [[[] w1]|] eqn:E1; [|discriminate].
    apply startTickers_spec in E1 as [Hc Ht1].
    intros E. apply discoveryLoop_outcome in E as (Hex & _ & Ht).
    split; [exact Hex|].
    assert (Hall : tickers (env w')
                   = (tickers (env w) ++ discoveryTickers (config (ctl w)))%list)
      by congruence.
    split; [exact Hall|].
    unfold tickersReleased. rewrite Hall, drop_app_length.
    intros Hrel. apply Forall_cons_1 in Hrel as [Hstop _]. discriminate.
  - intros Hs H1 H2 H3 H4.
    destruct (startTickers_total w H1 H2 H3 H4) as [w1 E1].
    exists w1. unfold enterDiscovery. unfold mbind, M_bind, bind.
    rewrite E1. apply discoveryLoop_exits.
    apply startTickers_spec in E1 as [-> _]. exact Hs.
Qed.
End Discovery.

Lemma idle_tickers (w w' : World) :
  idle w = Ok (tt, w') -> tickers (env w') = tickers (env w).
Proof. by intros [= <-]. Qed.

(** C7 (as stated, it fails): the loop is entered in state [Configured];
    while the worker waits, [Stop] is called; the worker handles one
    probe tick, observes [Stopped] and leaves the loop.  The four tickers
    created on entry are still running. *)
Lemma enterDiscovery_releases_no_ticker :
  exists w',
    enterDiscovery idle idle idle [mkRound [CallStop] TickLinks] configuredWorld
    = Ok (Exited, w') /\
    state (ctl w') = Stopped /\
    tickers (env w')
    = [mkTicker (5 * Second) false; mkTicker (60 * Second) false;
       mkTicker (60 * Second) false; mkTicker (2 * Second) false] /\
    ~ tickersReleased (tickers (env configuredWorld)) (tickers (env w')).
Proof.
  eexists. split; [vm_compute; reflexivity|].
  split; [reflexivity|]. split; [reflexivity|].
  unfold tickersReleased. cbn. intros Hrel.
  apply Forall_cons_1 in Hrel as [Hstop _]. discriminate.
Qed.

Lemma enterDiscovery_exits_tickers_running_witness :
  exists w',
    enterDiscovery idle idle idle [mkRound [CallStop] TickLinks] configuredWorld
    = Ok (Exited, w') /\
    state (ctl w') <> Configured /\
    tickers (env w') = discoveryTickers defaultConfig.
Proof.
  assert (E : exists w',
             enterDiscovery idle idle idle [mkRound [CallStop] TickLinks]
                            configuredWorld = Ok (Exited, w'))
    by (eexists; vm_compute; reflexivity).
  destruct E as [w' E]. exists w'. split; [exact E|].
  destruct (enterDiscovery_exits_tickers_running idle idle idle
              idle_tickers idle_tickers idle_tickers
              [mkRound [CallStop] TickLinks] configuredWorld)
    as (_ & Hret & _).
  destruct (Hret Exited w' E) as (Hleft & Ht & _).
  split; [by apply Hleft | exact Ht].
Defined.

(** * Further properties *)

(** ** Decimal numerals and the nodes of the links *)

Lemma pretty_N_char_noBracket (x : N) (s : string) :
  noBracket (String (pretty_N_char x) s) = noBracket s.
Proof.
  unfold pretty_N_char.
  repeat match goal with
         | |- context [match ?p with _ => _ end] => is_var p; destruct p
         end; reflexivity.
Qed.

Lemma pretty_N_go_noBracket (x : N) :
  forall s, noBracket s = true -> noBracket (pretty_N_go x s) = true.
Proof.
  induction (N.lt_wf_0 x) as [x _ IH]. intros s Hs.
  destruct (decide (x = 0%N)) as [->|Hx].
  - by rewrite pretty_N_go_0.
  - rewrite pretty_N_go_step by lia. apply IH.
    + apply N.div_lt; lia.
    + by rewrite pretty_N_char_noBracket.
Qed.

Lemma fmt_d_noBracket (n : N) : noBracket (fmt_d n) = true.
Proof.
  unfold fmt_d, pretty, pretty_N. destruct (decide (n = 0%N)); [reflexivity|].
  by apply pretty_N_go_noBracket.
Qed.

Lemma prefix_cons (c c' : ascii) (a b : string) :
  String.prefix (String c a) (String c' b)
  = if Ascii.ascii_dec c c' then String.prefix a b else false.
Proof. reflexivity. Qed.

(** Two bracket-free strings, each followed by a closing bracket: when
    the first of the two results is a prefix of the second, the two
    bracket-free strings are the same. *)
Lemma prefix_upto_bracket (a b x y : string) :
  noBracket a = true -> noBracket b = true ->
  String.prefix (a +:+ String "]"%char x) (b +:+ String "]"%char y) = true -> a = b.
Proof.
  revert b. induction a as [|c a IH]; intros [|c' b] Ha Hb.
  - reflexivity.
  - change ("" +:+ String "]"%char x) with (String "]"%char x).
    change (String c' b +:+ String "]"%char y)
      with (String c' (b +:+ String "]"%char y)).
    rewrite prefix_cons.
    destruct (Ascii.ascii_dec "]"%char c') as [<-|]; [|discriminate].
    discriminate Hb.
  - change (String c a +:+ String "]"%char x)
      with (String c (a +:+ String "]"%char x)).
    change ("" +:+ String "]"%char y) with (String "]"%char y).
    rewrite prefix_cons.
    destruct (Ascii.ascii_dec c "]"%char) as [->|]; [|discriminate].
    discriminate Ha.
  - change (String c a +:+ String "]"%char x)
      with (String c (a +:+ String "]"%char x)).
    change (String c' b +:+ String "]"%char y)
      with (String c' (b +:+ String "]"%char y)).
    rewrite prefix_cons.
    destruct (Ascii.ascii_dec c c') as [->|]; [|discriminate].
    change (noBracket (String c' a)) with (negb (Ascii.eqb c' "]") && noBracket a) in Ha.
    change (noBracket (String c' b)) with (negb (Ascii.eqb c' "]") && noBracket b) in Hb.
    apply andb_true_iff in Ha as [_ Ha]. apply andb_true_iff in Hb as [_ Hb].
    intros Hp. f_equal. by apply IH.
Qed.

Lemma prefix_refl (s : string) : String.prefix s s = true.
Proof.
  induction s as [|c s IH]; [reflexivity|].
  rewrite prefix_cons. destruct (Ascii.ascii_dec c c); [exact IH | congruence].
Qed.

(** What lies at or below the node of one link is not at or below the node
    of another. *)
Lemma under_other_link (p q : N) (rest : string) :
  p <> q -> under (linkNode p) (linkNode q +:+ rest) = false.
Proof.
  intros Hpq. unfold under, linkNode.
  apply orb_false_iff. split.
  - apply String.eqb_neq. intros Heq.
    rewrite !app_assoc_string in Heq. apply String.app_inj in Heq.
    apply Hpq. apply (inj pretty). symmetry.
    apply (prefix_upto_bracket _ _ rest "");
      [apply fmt_d_noBracket | apply fmt_d_noBracket |].
    change (String.prefix (fmt_d q +:+ "]" +:+ rest) (fmt_d p +:+ "]") = true).
    rewrite Heq. apply prefix_refl.
  - destruct (String.prefix _ _) eqn:Hp; [|reflexivity]. exfalso.
    rewrite !app_assoc_string in Hp. rewrite prefix_app in Hp.
    apply Hpq. apply (inj pretty).
    by apply (prefix_upto_bracket _ _ "/" rest);
      [apply fmt_d_noBracket | apply fmt_d_noBracket |].
Qed.

Lemma under_own_link (p : N) (leaf : string) :
  under (linkNode p) ("state/link[port=" +:+ fmt_d p +:+ "]/" +:+ leaf) = true.
Proof.
  unfold under, linkNode. apply orb_true_iff. right.
  rewrite !app_assoc_string.
  change ("]/" +:+ leaf) with ("]" +:+ "/" +:+ leaf).
  rewrite !prefix_app. destruct leaf; reflexivity.
Qed.

(** ** A link and its mirror in the export tree *)

Lemma deleteLink_explicit (k : N) (w : World) :
  deleteLink k w = Ok (tt, linkRemoved k w).
Proof. reflexivity. Qed.

Lemma deleteHost_explicit (k : string) (w : World) :
  deleteHost k w = Ok (tt, hostRemoved k w).
Proof. reflexivity. Qed.

(** X1: on an allocated registry, when [updateIngressLink p e d] adds or
    replaces the link of [p] and [deleteLink p] follows, both return; the
    registry is the old one without [p]; nothing is left in the tree at
    or below the node of [p], in particular none of the three exported
    leaves; every other node of the tree, the leaves of every other port
    included, is as it was before the two calls. *)
Theorem deleteLink_undoes_link_export (w : World) (m : gmap N Link)
    (p e : N) (d : string) :
  links (ctl w) = MadeMap m ->
  ~ sameRemote m p e d ->
  exists w2,
    (updateIngressLink p e d;; deleteLink p) w = Ok (tt, w2) /\
    links (ctl w2) = MadeMap (delete p m) /\
    (forall key, under (linkNode p) key = true -> root (ctl w2) !! key = None) /\
    root (ctl w2) !! ("state/link[port=" +:+ fmt_d p +:+ "]/egress-port") = None /\
    root (ctl w2) !! ("state/link[port=" +:+ fmt_d p +:+ "]/egress-device") = None /\
    root (ctl w2) !! ("state/link[port=" +:+ fmt_d p +:+ "]/create-time") = None /\
    (forall key, under (linkNode p) key = false ->
                 root (ctl w2) !! key = root (ctl w) !! key) /\
    (forall q rest, q <> p ->
       root (ctl w2) !! (linkNode q +:+ rest) = root (ctl w) !! (linkNode q +:+ rest)).
Proof.
  intros Hl Hnew.
  destruct (updateIngressLink_replace w m p e d Hl Hnew)
    as (w1 & E1 & Hl1 & _ & Hr1 & _).
  exists (linkRemoved p w1).
  assert (Hgone : forall key, under (linkNode p) key = true ->
                              root (ctl (linkRemoved p w1)) !! key = None).
  { intros key Hu. cbn [linkRemoved ctl root push_sent set_root].
    by rewrite DeletePath_lookup, Hu. }
  assert (Hkept : forall key, under (linkNode p) key = false ->
                    root (ctl (linkRemoved p w1)) !! key = root (ctl w) !! key).
  { intros key Hu. cbn [linkRemoved ctl root push_sent set_root].
    rewrite DeletePath_lookup, Hu, Hr1. unfold AddPath.
    rewrite !lookup_insert_ne; [reflexivity|..]; intros <-;
      (assert (Hown : true = false);
       [rewrite <- Hu; symmetry;
        first [exact (under_own_link p "egress-port")
              | exact (under_own_link p "egress-device")
              | exact (under_own_link p "create-time")]
       | discriminate]). }
  split; [unfold mbind, M_bind, bind; rewrite E1; apply deleteLink_explicit|].
  split.
  { cbn [linkRemoved ctl links push_sent set_root set_links]. rewrite Hl1.
    cbn [map_delete]. by rewrite delete_insert_eq. }
  split; [exact Hgone|].
  split; [apply Hgone, (under_own_link p "egress-port")|].
  split; [apply Hgone, (under_own_link p "egress-device")|].
  split; [apply Hgone, (under_own_link p "create-time")|].
  split; [exact Hkept|].
  intros q rest Hq. apply Hkept. apply under_other_link. congruence.
Qed.

Lemma deleteLink_undoes_link_export_witness :
  exists w2,
    (updateIngressLink 1 7 "deviceB";; deleteLink 1) oneLink = Ok (tt, w2) /\
    root (ctl w2) !! "state/link[port=1]/egress-port" = None /\
    root (ctl w2) !! "state/link[port=5]/egress-port"
    = root (ctl oneLink) !! "state/link[port=5]/egress-port".
Proof.
  destruct (deleteLink_undoes_link_export oneLink
              (match links (ctl oneLink) with MadeMap m => m | NilMap => ∅ end)
              1 7 "deviceB" eq_refl)
    as (w2 & E & _ & _ & Hport & _ & _ & _ & Hother).
  { intros (l & Hm & _). vm_compute in Hm. discriminate. }
  exists w2. split; [|split].
  - exact E.
  - exact Hport.
  - exact (Hother 5%N "/egress-port" ltac:(discriminate)).
Defined.

(** ** The prune passes, turn by turn *)

Lemma pruneLinks_explicit (order : list (N * Link)) (w : World) :
  pruneLinks order w
  = Ok (tt, foldl (evictLink (Time_Add (clock (env w) (reads (env w))) (-30 * Second)))
                  (mkWorld (tick (env w)) (ctl w)) order).
Proof.
  unfold pruneLinks. mstep. rewrite time_Now_spec. cbv beta iota.
  generalize (Time_Add (clock (env w) (reads (env w))) (-30 * Second)).
  generalize (mkWorld (tick (env w)) (ctl w)). clear w.
  intros w limit. revert w.
  induction order as [|[k l] order IH]; intros w; [reflexivity|].
  cbn [forEach foldl]. unfold evictLink at 2. cbn [fst snd].
  destruct (Time_Before (link_LastUpdate l) limit).
  - mstep. rewrite deleteLink_explicit. cbv beta iota.
    rewrite logf_spec. cbv beta iota. apply IH.
  - mstep. apply IH.
Qed.

Lemma pruneHosts_explicit (order : list (string * Host)) (w : World) :
  pruneHosts order w
  = Ok (tt, foldl (evictHost (Time_Add (clock (env w) (reads (env w))) (-30 * Minute)))
                  (mkWorld (tick (env w)) (ctl w)) order).
Proof.
  unfold pruneHosts. mstep. rewrite time_Now_spec. cbv beta iota.
  generalize (Time_Add (clock (env w) (reads (env w))) (-30 * Minute)).
  generalize (mkWorld (tick (env w)) (ctl w)). clear w.
  intros w limit. revert w.
  induction order as [|[k h] order IH]; intros w; [reflexivity|].
  cbn [forEach foldl]. unfold evictHost at 2. cbn [fst snd].
  destruct (Time_Before (host_LastUpdate h) limit).
  - mstep. rewrite deleteHost_explicit. cbv beta iota.
    rewrite logf_spec. cbv beta iota. apply IH.
  - mstep. apply IH.
Qed.

(** The host registry after the turns of a pass *)
Lemma evictHost_hosts (limit : Time) (order : list (string * Host)) :
  forall (w : World) (m : gmap string Host),
    hosts (ctl w) = MadeMap m ->
    hosts (ctl (foldl (evictHost limit) w order))
    = MadeMap (foldl (fun acc kv =>
                        if Time_Before (host_LastUpdate kv.2) limit
                        then delete kv.1 acc else acc) m order) /\
    links (ctl (foldl (evictHost limit) w order)) = links (ctl w) /\
    state (ctl (foldl (evictHost limit) w order)) = state (ctl w) /\
    config (ctl (foldl (evictHost limit) w order)) = config (ctl w).
Proof.
  induction order as [|[k h] order IH]; intros w m Hh; [by cbn|].
  cbn [foldl]. unfold evictHost at 2 4 6 8. cbn [fst snd].
  destruct (Time_Before (host_LastUpdate h) limit); [|by apply IH].
  edestruct (IH (mkWorld
                   (logged INFO ("Pruned stale host: " +:+ MAC h +:+ " <- "
                                 +:+ IP h +:+ "/" +:+ fmt_s_uint32 (host_Port h))
                           (env (hostRemoved k w)))
                   (ctl (hostRemoved k w))) (delete k m))
    as (Hh' & Hl' & Hs' & Hc').
  { cbn. by rewrite Hh. }
  rewrite Hh', Hl', Hs', Hc'. repeat split; reflexivity.
Qed.

Section Eviction.
Context {K : Type} `{Countable K} {V : Type} (stale : V -> bool).

Local Abbreviation evict :=
  (fun (acc : gmap K V) (kv : K * V) => if stale kv.2 then delete kv.1 acc else acc).

Lemma foldl_evict_None (order : list (K * V)) :
  forall (m : gmap K V) (k : K), m !! k = None -> foldl evict m order !! k = None.
Proof.
  induction order as [|[k' v'] order IH]; intros m k Hk; [exact Hk|].
  cbn [foldl]. apply IH. cbn [fst snd]. destruct (stale v'); [|exact Hk].
  destruct (decide (k' = k)) as [->|Hne];
    [apply lookup_delete_eq | by rewrite lookup_delete_ne].
Qed.

Lemma foldl_evict_stale (order : list (K * V)) :
  forall (m : gmap K V) (k : K) (v : V),
    (k, v) ∈ order -> stale v = true -> foldl evict m order !! k = None.
Proof.
  induction order as [|[k' v'] order IH]; intros m k v Hin Hstale.
  - by apply elem_of_nil in Hin.
  - cbn [foldl]. apply elem_of_cons in Hin as [[= <- <-]|Hin].
    + apply foldl_evict_None. cbn [fst snd]. rewrite Hstale. apply lookup_delete_eq.
    + by apply (IH _ _ v).
Qed.

Lemma foldl_evict_fresh (order : list (K * V)) :
  forall (m : gmap K V) (k : K),
    (forall v, (k, v) ∈ order -> stale v = false) ->
    foldl evict m order !! k = m !! k.
Proof.
  induction order as [|[k' v'] order IH]; intros m k Hfresh; [reflexivity|].
  cbn [foldl]. rewrite IH.
  - cbn [fst snd]. destruct (stale v') eqn:Hstale; [|reflexivity].
    destruct (decide (k' = k)) as [->|Hne]; [|by rewrite lookup_delete_ne].
    rewrite (Hfresh v') in Hstale; [discriminate | apply elem_of_cons; by left].
  - intros v Hin. apply Hfresh. apply elem_of_cons. by right.
Qed.

(** Visiting every entry once, in any order, evicts exactly the stale
    entries. *)
Lemma foldl_evict_lookup (order : list (K * V)) (m : gmap K V) (k : K) :
  order ≡ₚ map_to_list m ->
  foldl evict m order !! k
  = match m !! k with
    | Some v => if stale v then None else Some v
    | None => None
    end.
Proof.
  intros Horder. destruct (m !! k) as [v|] eqn:Hk.
  - assert (Hin : (k, v) ∈ order)
      by (rewrite Horder; by apply elem_of_map_to_list).
    destruct (stale v) eqn:Hstale.
    + by apply (foldl_evict_stale _ _ _ v).
    + rewrite foldl_evict_fresh; [exact Hk|].
      intros v0 Hin0. rewrite Horder in Hin0.
      apply elem_of_map_to_list in Hin0. congruence.
  - by apply foldl_evict_None.
Qed.
End Eviction.

(** X2: on an allocated host registry, one [pruneHosts] pass returns, in
    whatever order it visits the registry, and removes exactly the hosts
    last updated more than thirty minutes before its reading of the
    clock; a host updated exactly thirty minutes before stays.  The links,
    the state and the configuration are untouched. *)
Theorem pruneHosts_thirty_minutes (w : World) (m : gmap string Host)
    (order : list (string * Host)) :
  hosts (ctl w) = MadeMap m ->
  range_order (hosts (ctl w)) order ->
  exists w' m',
    pruneHosts order w = Ok (tt, w') /\
    hosts (ctl w') = MadeMap m' /\
    (forall k, m' !! k = afterPruneHost (clock (env w) (reads (env w))) (m !! k)) /\
    (forall k h, m !! k = Some h ->
       host_LastUpdate h = clock (env w) (reads (env w)) - 30 * Minute ->
       m' !! k = Some h) /\
    links (ctl w') = links (ctl w) /\ state (ctl w') = state (ctl w) /\
    config (ctl w') = config (ctl w).
Proof.
  intros Hh Horder. rewrite Hh in Horder. unfold range_order in Horder.
  cbn [entries] in Horder.
  set (limit := Time_Add (clock (env w) (reads (env w))) (-30 * Minute)).
  destruct (evictHost_hosts limit order (mkWorld (tick (env w)) (ctl w)) m Hh)
    as (Hh' & Hl' & Hs' & Hc').
  eexists _, _. split; [apply pruneHosts_explicit|].
  split; [exact Hh'|].
  assert (Hlook : forall k,
            foldl (fun acc kv => if Time_Before (host_LastUpdate kv.2) limit
                                 then delete kv.1 acc else acc) m order !! k
            = afterPruneHost (clock (env w) (reads (env w))) (m !! k)).
  { intros k.
    rewrite (foldl_evict_lookup (fun h => Time_Before (host_LastUpdate h) limit)
               order m k Horder).
    reflexivity. }
  split; [exact Hlook|]. split; [|auto].
  intros k h Hk Hat. rewrite Hlook, Hk. unfold afterPruneHost, Time_Before, Time_Add.
  rewrite Hat. destruct (Z.ltb_spec (clock (env w) (reads (env w)) - 30 * Minute)
                           (clock (env w) (reads (env w)) + -30 * Minute));
    [lia | reflexivity].
Qed.

Lemma pruneHosts_thirty_minutes_witness :
  exists w',
    pruneHosts (map_to_list oneHostMap) oneHost = Ok (tt, w') /\
    map_get (hosts (ctl w')) "00:1b:44:11:3a:b7"
    = Some (mkHost "00:1b:44:11:3a:b7" "10.0.0.7" 3 (2 * Second)).
Proof.
  destruct (pruneHosts_thirty_minutes oneHost oneHostMap (map_to_list oneHostMap)
              eq_refl (reflexivity _))
    as (w' & m' & E & Hh & Hlook & _).
  exists w'. split; [exact E|]. rewrite Hh. cbn [map_get]. rewrite Hlook.
  vm_compute. reflexivity.
Defined.

(** X3: on an allocated link registry, one [pruneLinks] pass returns, in
    whatever order it visits the registry, and removes exactly the links
    last updated more than thirty seconds before its reading of the clock;
    the threshold is this constant whatever the configuration holds.  The
    hosts, the state and the configuration are untouched. *)
Theorem pruneLinks_evicts_older_than_thirty_seconds (w : World) (m : gmap N Link)
    (order : list (N * Link)) :
  links (ctl w) = MadeMap m ->
  range_order (links (ctl w)) order ->
  exists w' m',
    pruneLinks order w = Ok (tt, w') /\
    links (ctl w') = MadeMap m' /\
    (forall k, m' !! k = afterPrune (clock (env w) (reads (env w))) (m !! k)) /\
    (forall k l, m !! k = Some l ->
       clock (env w) (reads (env w)) - 30 * Second <= link_LastUpdate l ->
       m' !! k = Some l) /\
    (forall k l, m !! k = Some l ->
       link_LastUpdate l < clock (env w) (reads (env w)) - 30 * Second ->
       m' !! k = None) /\
    hosts (ctl w') = hosts (ctl w) /\ state (ctl w') = state (ctl w) /\
    config (ctl w') = config (ctl w).
Proof.
  intros Hl Horder.
  destruct (pruneLinks_thirty_seconds w m order Hl Horder)
    as (w' & m' & E & Hl' & Hlook & Hh & Hs & Hc & _).
  exists w', m'. split; [exact E|]. split; [exact Hl'|]. split; [exact Hlook|].
  split; [|split; [|auto]].
  - intros k l Hk Hage. rewrite Hlook, Hk. unfold afterPrune, Time_Before, Time_Add.
    destruct (Z.ltb_spec (link_LastUpdate l)
                (clock (env w) (reads (env w)) + -30 * Second)); [lia | reflexivity].
  - intros k l Hk Hage. rewrite Hlook, Hk. unfold afterPrune, Time_Before, Time_Add.
    destruct (Z.ltb_spec (link_LastUpdate l)
                (clock (env w) (reads (env w)) + -30 * Second)); [reflexivity | lia].
Qed.

Lemma pruneLinks_evicts_older_than_thirty_seconds_witness :
  exists w',
    pruneLinks (map_to_list threeLinksMap) threeLinks = Ok (tt, w') /\
    map_get (links (ctl w')) 5%N = Some (mkLink 7 "deviceB" 5 (2 * Second)).
Proof.
  destruct (pruneLinks_evicts_older_than_thirty_seconds threeLinks threeLinksMap
              (map_to_list threeLinksMap) eq_refl (reflexivity _))
    as (w' & m' & E & Hl & Hlook & _).
  exists w'. split; [exact E|]. rewrite Hl. cbn [map_get]. rewrite Hlook.
  vm_compute. reflexivity.
Defined.

(** ** What a prune pass mirrors into the tree *)

Lemma evictLink_root_None (limit : Time) (order : list (N * Link)) :
  forall (w : World) (key : string),
    root (ctl w) !! key = None ->
    root (ctl (foldl (evictLink limit) w order)) !! key = None.
Proof.
  induction order as [|[k l] order IH]; intros w key Hk; [exact Hk|].
  cbn [foldl]. apply IH. unfold evictLink. cbn [fst snd].
  destruct (Time_Before (link_LastUpdate l) limit); [|exact Hk].
  cbn [linkRemoved ctl root push_sent set_root].
  rewrite DeletePath_lookup. by destruct (under (linkNode k) key).
Qed.

Lemma evictLink_root_gone (limit : Time) (order : list (N * Link)) :
  forall (w : World) (k : N) (l : Link) (key : string),
    (k, l) ∈ order -> Time_Before (link_LastUpdate l) limit = true ->
    under (linkNode k) key = true ->
    root (ctl (foldl (evictLink limit) w order)) !! key = None.
Proof.
  induction order as [|[k' l'] order IH]; intros w k l key Hin Hstale Hu.
  - by apply elem_of_nil in Hin.
  - cbn [foldl]. apply elem_of_cons in Hin as [[= <- <-]|Hin].
    + apply evictLink_root_None. unfold evictLink. cbn [fst snd]. rewrite Hstale.
      cbn [linkRemoved ctl root push_sent set_root].
      by rewrite DeletePath_lookup, Hu.
    + by apply (IH _ k l).
Qed.

Lemma evictLink_root_kept (limit : Time) (order : list (N * Link)) :
  forall (w : World) (key : string),
    (forall k l, (k, l) ∈ order -> Time_Before (link_LastUpdate l) limit = true ->
                 under (linkNode k) key = false) ->
    root (ctl (foldl (evictLink limit) w order)) !! key = root (ctl w) !! key.
Proof.
  induction order as [|[k' l'] order IH]; intros w key Hout; [reflexivity|].
  cbn [foldl]. rewrite IH.
  - unfold evictLink. cbn [fst snd].
    destruct (Time_Before (link_LastUpdate l') limit) eqn:Hstale; [|reflexivity].
    cbn [linkRemoved ctl root push_sent set_root].
    rewrite DeletePath_lookup, (Hout k' l'); [reflexivity | | exact Hstale].
    apply elem_of_cons. by left.
  - intros k l Hin. apply Hout. apply elem_of_cons. by right.
Qed.

Lemma replicate_shift {A : Type} (n : nat) (a : A) (x : list A) :
  (replicate n a ++ a :: x = a :: replicate n a ++ x)%list.
Proof. induction n as [|n IH]; cbn; [reflexivity | by rewrite IH]. Qed.

Lemma evictLink_sent (limit : Time) (order : list (N * Link)) :
  forall w : World,
    Delete <$> sent (ctl (foldl (evictLink limit) w order))
    = (reverse ((fun kv => [linkNode kv.1]) <$> staleLinks limit order)
       ++ (Delete <$> sent (ctl w)))%list /\
    Update <$> sent (ctl (foldl (evictLink limit) w order))
    = (replicate (length (staleLinks limit order)) []
       ++ (Update <$> sent (ctl w)))%list.
Proof.
  induction order as [|[k l] order IH]; intros w; [by cbn|].
  cbn [foldl]. destruct (IH (evictLink limit w (k, l))) as [-> ->].
  unfold staleLinks. rewrite filter_cons. unfold evictLink. cbn [fst snd].
  destruct (Time_Before (link_LastUpdate l) limit) eqn:Hstale.
  - rewrite decide_True by reflexivity.
    cbn [linkRemoved ctl sent push_sent set_root fmap list_fmap length replicate].
    rewrite reverse_cons, <- !app_assoc. split; [reflexivity|].
    cbn [nodeDeleted Update app]. apply replicate_shift.
  - rewrite decide_False by congruence. split; reflexivity.
Qed.

(** X4: on an allocated registry, after one [pruneLinks] pass, in
    whatever order, nothing is left in the tree at or below the node of an
    evicted link; the nodes of the links that stay, and every node outside
    the nodes of the evicted links, are as before; and the pass has sent
    one notification per evicted link, in the order of the visit, each
    deleting the node of that link and updating nothing. *)
Theorem pruneLinks_mirrors_evictions (w : World) (m : gmap N Link)
    (order : list (N * Link)) :
  links (ctl w) = MadeMap m ->
  range_order (links (ctl w)) order ->
  exists w',
    pruneLinks order w = Ok (tt, w') /\
    (forall k l key,
       m !! k = Some l ->
       Time_Before (link_LastUpdate l)
         (Time_Add (clock (env w) (reads (env w))) (-30 * Second)) = true ->
       under (linkNode k) key = true ->
       root (ctl w') !! key = None) /\
    (forall k l rest,
       m !! k = Some l ->
       Time_Before (link_LastUpdate l)
         (Time_Add (clock (env w) (reads (env w))) (-30 * Second)) = false ->
       root (ctl w') !! (linkNode k +:+ rest) = root (ctl w) !! (linkNode k +:+ rest)) /\
    (forall key,
       (forall k l, m !! k = Some l -> under (linkNode k) key = false) ->
       root (ctl w') !! key = root (ctl w) !! key) /\
    Delete <$> sent (ctl w')
    = (reverse ((fun kv => [linkNode kv.1])
                <$> staleLinks (Time_Add (clock (env w) (reads (env w))) (-30 * Second))
                      order)
       ++ (Delete <$> sent (ctl w)))%list /\
    Update <$> sent (ctl w')
    = (replicate
         (length (staleLinks (Time_Add (clock (env w) (reads (env w))) (-30 * Second))
                    order)) []
       ++ (Update <$> sent (ctl w)))%list.
Proof.
  intros Hl Horder. rewrite Hl in Horder. unfold range_order in Horder.
  cbn [entries] in Horder.
  set (limit := Time_Add (clock (env w) (reads (env w))) (-30 * Second)).
  assert (Hmem : forall k l, (k, l) ∈ order <-> m !! k = Some l).
  { intros k l. rewrite Horder. apply elem_of_map_to_list. }
  eexists. split; [apply pruneLinks_explicit|]. fold limit.
  split; [|split; [|split]].
  - intros k l key Hk Hstale Hu.
    apply (evictLink_root_gone limit order _ k l); [by apply Hmem | done | done].
  - intros k l rest Hk Hfresh.
    rewrite evictLink_root_kept; [reflexivity|].
    intros k' l' Hin Hstale. apply under_other_link. intros ->.
    apply Hmem in Hin. congruence.
  - intros key Hout. rewrite evictLink_root_kept; [reflexivity|].
    intros k l Hin _. apply (Hout k l). by apply Hmem.
  - apply (evictLink_sent limit order (mkWorld (tick (env w)) (ctl w))).
Qed.

Lemma pruneLinks_mirrors_evictions_witness :
  exists w',
    pruneLinks [(1%N, slowLink)] slowObserved = Ok (tt, w') /\
    root (ctl slowObserved) !! "state/link[port=1]/egress-port"
    = Some (Some (IntVal 7)) /\
    root (ctl w') !! "state/link[port=1]/egress-port" = None.
Proof.
  destruct (pruneLinks_mirrors_evictions slowObserved
              (match links (ctl slowObserved) with MadeMap m => m | NilMap => ∅ end)
              [(1%N, slowLink)] eq_refl)
    as (w' & E & Hgone & _).
  { vm_compute. reflexivity. }
  exists w'. split; [exact E|]. split; [vm_compute; reflexivity|].
  apply (Hgone 1%N slowLink); vm_compute; reflexivity.
Defined.

(** ** The configuration and its mirror in the tree *)

Lemma UpdateConfig_spec (w : World) (va vb vd vf vg : option TypedValue) :
  root (ctl w) !! "config/emitFrequency" = Some va ->
  root (ctl w) !! "config/maxLinkAge" = Some vb ->
  root (ctl w) !! "config/pipelineValidationFrequency" = Some vd ->
  root (ctl w) !! "config/portRediscoveryFrequency" = Some vf ->
  root (ctl w) !! "config/linkPruneFrequency" = Some vg ->
  exists w',
    UpdateConfig w = Ok (tt, w') /\
    config (ctl w')
    = mkConfig (GetIntVal va) (GetIntVal vb) (GetIntVal vd) (GetIntVal vf) (GetIntVal vg) /\
    state (ctl w') = afterUpdate (state (ctl w)) /\
    links (ctl w') = links (ctl w) /\ hosts (ctl w') = hosts (ctl w) /\
    root (ctl w') = root (ctl w) /\ sent (ctl w') = sent (ctl w) /\
    (writeError (env w) = None ->
     configFile (env w')
     = FileYaml (settingsOf (mkConfig (GetIntVal va) (GetIntVal vb) (GetIntVal vd)
                                      (GetIntVal vf) (GetIntVal vg))) /\
     journal (env w') = journal (env w)) /\
    (forall err, writeError (env w) = Some err ->
       configFile (env w') = configFile (env w) /\
       journal (env w')
       = mkLog WARN ("Unable to save config file: " +:+ err) :: journal (env w)).
Proof.
  intros Ha Hb Hd Hf Hg.
  unfold UpdateConfig, Node_Value, GetPath. mstep.
  rewrite Ha, Hb, Hd, Hf, Hg. cbv beta iota.
  cbn [ctl env config set_config EmitFrequency MaxLinkAge
       PipelineValidationFrequency PortRediscoveryFrequency LinkPruneFrequency].
  unfold inEnv, saveConfig. mstep. cbn [env ctl].
  destruct (writeError (env w)) as [err|] eqn:Hw.
  - unfold logf. cbv beta iota. rewrite setStateIf_spec.
    eexists. split; [reflexivity|]. cbn. unfold afterUpdate.
    repeat split; try reflexivity; try discriminate. congruence.
  - unfold set_configFile. cbv beta iota. rewrite setStateIf_spec.
    eexists. split; [reflexivity|]. cbn. unfold afterUpdate.
    repeat split; try reflexivity; discriminate.
Qed.

Lemma createConfigRoot_mirrors (agentID : string) (cfg : Config) :
  configMirrored cfg (createConfigRoot agentID cfg).
Proof.
  unfold configMirrored, createConfigRoot, AddNode, AddPath, NewRoot.
  repeat split;
    repeat first [ rewrite lookup_insert_eq; reflexivity
                 | rewrite lookup_insert_ne by discriminate ].
Qed.

(** X5: the configuration tree [createConfigRoot] builds from a
    configuration gives that configuration back: on a controller whose
    tree it is, [UpdateConfig] returns and sets the in-memory
    configuration to exactly the values the tree was built from, and when
    the write succeeds the stored file holds them too. *)
Theorem createConfigRoot_UpdateConfig_round_trip
    (agentID : string) (cfg : Config) (e : Env) (c : Controller) :
  exists w',
    UpdateConfig (mkWorld e (set_root (createConfigRoot agentID cfg) c)) = Ok (tt, w') /\
    config (ctl w') = cfg /\
    (writeError e = None -> configFile (env w') = FileYaml (settingsOf cfg)).
Proof.
  destruct (createConfigRoot_mirrors agentID cfg) as (Ha & Hb & Hd & Hf & Hg).
  destruct (UpdateConfig_spec (mkWorld e (set_root (createConfigRoot agentID cfg) c))
              _ _ _ _ _ Ha Hb Hd Hf Hg)
    as (w' & E & Hc & _ & _ & _ & _ & _ & Hok & _).
  exists w'. split; [exact E|]. cbn [GetIntVal] in Hc, Hok.
  assert (Hcfg : mkConfig (EmitFrequency cfg) (MaxLinkAge cfg)
                   (PipelineValidationFrequency cfg) (PortRediscoveryFrequency cfg)
                   (LinkPruneFrequency cfg) = cfg) by (destruct cfg; reflexivity).
  rewrite Hcfg in Hc, Hok. split; [exact Hc|]. intros Hw. by apply Hok.
Qed.

Lemma createConfigRoot_UpdateConfig_round_trip_witness :
  exists w',
    UpdateConfig
      (mkWorld quietEnv (set_root (createConfigRoot "agent1" (mkConfig 1 2 3 4 5))
                                  (ctl freshWorld))) = Ok (tt, w') /\
    config (ctl w') = mkConfig 1 2 3 4 5 /\
    configFile (env w') = FileYaml (settingsOf (mkConfig 1 2 3 4 5)).
Proof.
  destruct (createConfigRoot_UpdateConfig_round_trip "agent1" (mkConfig 1 2 3 4 5)
              quietEnv (ctl freshWorld)) as (w' & E & Hc & Hfile).
  exists w'. split; [exact E|]. split; [exact Hc|]. apply Hfile. reflexivity.
Defined.

(** ** The registries and the configuration branch of the tree *)

Lemma isConfigKey_head (key : string) :
  isConfigKey key -> exists rest, key = String "c"%char rest.
Proof.
  unfold isConfigKey. destruct key as [|c rest]; [discriminate|].
  rewrite prefix_cons. destruct (Ascii.ascii_dec "c"%char c) as [<-|]; [|discriminate].
  eauto.
Qed.

Lemma config_key_AddPath (x key : string) (v : TypedValue) (t : Tree) :
  isConfigKey key -> AddPath ("state/" +:+ x) v t !! key = t !! key.
Proof.
  intros Hkey. destruct (isConfigKey_head key Hkey) as [rest ->].
  unfold AddPath. apply lookup_insert_ne. discriminate.
Qed.

Lemma config_key_DeletePath (x key : string) (t : Tree) :
  isConfigKey key -> DeletePath ("state/" +:+ x) t !! key = t !! key.
Proof.
  intros Hkey. destruct (isConfigKey_head key Hkey) as [rest ->].
  rewrite DeletePath_lookup. reflexivity.
Qed.

Lemma config_key_not_under_link (k : N) (key : string) :
  isConfigKey key -> under (linkNode k) key = false.
Proof. intros Hkey. destruct (isConfigKey_head key Hkey) as [rest ->]. reflexivity. Qed.

Lemma evictHost_root_config (limit : Time) (order : list (string * Host)) :
  forall (w : World) (key : string),
    isConfigKey key ->
    root (ctl (foldl (evictHost limit) w order)) !! key = root (ctl w) !! key.
Proof.
  induction order as [|[k h] order IH]; intros w key Hkey; [reflexivity|].
  cbn [foldl]. rewrite IH by done. unfold evictHost. cbn [fst snd].
  destruct (Time_Before (host_LastUpdate h) limit); [|reflexivity].
  cbn [hostRemoved ctl root push_sent set_root].
  by apply (config_key_DeletePath ("host[mac=" +:+ k +:+ "]")).
Qed.

(** Every registry operation that returns leaves the configuration and
    the configuration branch of the tree as they are. *)
Lemma runOp_config (op : Op) (w w' : World) :
  runOp op w = Ok (tt, w') ->
  config (ctl w') = config (ctl w) /\
  (forall key, isConfigKey key -> root (ctl w') !! key = root (ctl w) !! key).
Proof.
  destruct op as [p e d|mac ip port|order|order|p|mac]; cbn [runOp]; intros E.
  - destruct (links (ctl w)) as [|m] eqn:Hl.
    { rewrite (updateIngressLink_nil _ _ _ _ Hl) in E. discriminate. }
    destruct (decide (sameRemote m p e d)) as [Hs|Hs].
    + rewrite (updateIngressLink_repeat _ _ _ _ _ Hl Hs) in E.
      injection E as <-. split; [reflexivity | done].
    + destruct (updateIngressLink_replace _ _ _ _ _ Hl Hs)
        as (w1 & E1 & _ & _ & Hr & _ & _ & Hc & _).
      rewrite E1 in E. injection E as <-. split; [exact Hc|].
      intros key Hkey. rewrite Hr.
      rewrite (config_key_AddPath ("link[port=" +:+ fmt_d p +:+ "]/create-time")),
        (config_key_AddPath ("link[port=" +:+ fmt_d p +:+ "]/egress-device")),
        (config_key_AddPath ("link[port=" +:+ fmt_d p +:+ "]/egress-port")); done.
  - destruct (hosts (ctl w)) as [|m] eqn:Hh.
    { rewrite (updateHost_nil _ _ _ _ Hh) in E. discriminate. }
    destruct (decide (sameHost m mac ip port)) as [Hs|Hs].
    + rewrite (updateHost_repeat _ _ _ _ _ Hh Hs) in E.
      injection E as <-. split; [reflexivity | done].
    + destruct (updateHost_replace _ _ _ _ _ Hh Hs)
        as (w1 & E1 & _ & _ & Hr & _ & _ & Hc & _).
      rewrite E1 in E. injection E as <-. split; [exact Hc|].
      intros key Hkey. rewrite Hr.
      rewrite (config_key_AddPath ("link[mac=" +:+ mac +:+ "]/create-time")),
        (config_key_AddPath ("link[mac=" +:+ mac +:+ "]/ip-address")),
        (config_key_AddPath ("host[mac=" +:+ mac +:+ "]/port")); done.
  - pose proof (pruneLinks_sub _ _ _ E) as (_ & _ & _ & Hc & _).
    split; [exact Hc|]. intros key Hkey.
    rewrite pruneLinks_explicit in E. injection E as <-.
    rewrite evictLink_root_kept; [reflexivity|].
    intros k l _ _. by apply config_key_not_under_link.
  - pose proof (pruneHosts_sub _ _ _ E) as (_ & _ & _ & Hc & _).
    split; [exact Hc|]. intros key Hkey.
    rewrite pruneHosts_explicit in E. injection E as <-.
    by rewrite evictHost_root_config.
  - rewrite deleteLink_explicit in E. injection E as <-. split; [reflexivity|].
    intros key Hkey. cbn [linkRemoved ctl root push_sent set_root].
    by apply (config_key_DeletePath ("link[port=" +:+ fmt_d p +:+ "]")).
  - rewrite deleteHost_explicit in E. injection E as <-. split; [reflexivity|].
    intros key Hkey. cbn [hostRemoved ctl root push_sent set_root].
    by apply (config_key_DeletePath ("host[mac=" +:+ mac +:+ "]")).
Qed.

Lemma reachable_config (w w' : World) :
  reachable w w' ->
  config (ctl w') = config (ctl w) /\
  (forall key, isConfigKey key -> root (ctl w') !! key = root (ctl w) !! key).
Proof.
  induction 1 as [|w1 w2 op _ [IHc IHr] _ E]; [done|].
  destruct (runOp_config op w1 w2 E) as [Hc Hr]. split; [congruence|].
  intros key Hkey. rewrite Hr by done. by apply IHr.
Qed.

Lemma boot_mirrors (targetAddress agentID : string) (e : Env) (w0 : World) :
  boot targetAddress agentID e = Ok w0 ->
  configMirrored (config (ctl w0)) (root (ctl w0)).
Proof.
  unfold boot, NewController. mstep.
  destruct (loadConfig e) as [[cfg e']|]; [|discriminate].
  intros [= <-]. cbn [ctl config root]. apply createConfigRoot_mirrors.
Qed.

(** X6: the registry operations never disturb the configuration.  On
    every controller reached from the one [NewController] returns by
    [updateIngressLink], [updateHost], [pruneLinks], [pruneHosts],
    [deleteLink] and [deleteHost] calls that return, the in-memory
    configuration is the one that was loaded, the five configuration nodes
    of the tree hold its values, and [UpdateConfig] returns and leaves it
    as it is. *)
Theorem registry_operations_keep_configuration
    (targetAddress agentID : string) (e : Env) (w0 w : World) :
  boot targetAddress agentID e = Ok w0 ->
  reachable w0 w ->
  config (ctl w) = config (ctl w0) /\
  configMirrored (config (ctl w)) (root (ctl w)) /\
  exists w', UpdateConfig w = Ok (tt, w') /\ config (ctl w') = config (ctl w).
Proof.
  intros Hb Hr. destruct (reachable_config w0 w Hr) as [Hc Hroot].
  assert (Hm : configMirrored (config (ctl w)) (root (ctl w))).
  { destruct (boot_mirrors _ _ _ _ Hb) as (Ha & Hb' & Hd & Hf & Hg).
    rewrite Hc. unfold configMirrored. rewrite !Hroot by reflexivity. auto. }
  split; [exact Hc|]. split; [exact Hm|].
  destruct Hm as (Ha & Hb' & Hd & Hf & Hg).
  destruct (UpdateConfig_spec w _ _ _ _ _ Ha Hb' Hd Hf Hg) as (w' & E & Hc' & _).
  exists w'. split; [exact E|]. rewrite Hc'. cbn [GetIntVal].
  destruct (config (ctl w)); reflexivity.
Qed.

Lemma twoLinksLeft_reachable : reachable freshWorld twoLinksLeft.
Proof.
  apply (reach_op _ threeLinks twoLinksLeft (OpDeleteLink 1));
    [|exact I | vm_compute; reflexivity].
  apply (reach_op _ twoLinks threeLinks (OpUpdateIngressLink 3 9 "deviceC"));
    [|exact I | vm_compute; reflexivity].
  apply (reach_op _ oneLink twoLinks (OpUpdateIngressLink 1 7 "deviceB"));
    [|exact I | vm_compute; reflexivity].
  apply (reach_op _ freshWorld oneLink (OpUpdateIngressLink 5 7 "deviceB"));
    [|exact I | vm_compute; reflexivity].
  apply reach_here.
Qed.

Lemma registry_operations_keep_configuration_witness :
  config (ctl twoLinksLeft) = defaultConfig /\
  exists w', UpdateConfig twoLinksLeft = Ok (tt, w') /\ config (ctl w') = defaultConfig.
Proof.
  destruct (registry_operations_keep_configuration "switch1:9559" "agent1" quietEnv
              freshWorld twoLinksLeft boot_freshWorld twoLinksLeft_reachable)
    as (Hc & _ & w' & E & Hc').
  split; [exact Hc|]. exists w'. split; [exact E|]. rewrite Hc'. exact Hc.
Defined.

(** ** Saving and loading the configuration *)

Lemma Unmarshal_settingsOf (cfg current : Config) :
  Unmarshal (settingsOf cfg) current = (cfg, None).
Proof.
  destruct cfg as [a b d f g]. unfold Unmarshal, decodeField, settingsOf.
  cbn [EmitFrequency MaxLinkAge PipelineValidationFrequency
       PortRediscoveryFrequency LinkPruneFrequency].
  repeat first [ rewrite lookup_insert_eq | rewrite lookup_insert_ne by discriminate ].
  reflexivity.
Qed.

(** X7: what [saveConfig] stores, [loadConfig] reads back.  When the write
    succeeds, a [loadConfig] that follows returns exactly the saved
    configuration, whatever the file held before, and logs nothing; when
    the write fails, the file is as before and a [loadConfig] that follows
    returns what it would have returned without the save. *)
Theorem saveConfig_loadConfig_round_trip (cfg : Config) (e : Env) :
  exists e1,
    saveConfig cfg e = Ok (tt, e1) /\
    (writeError e = None ->
     exists e2, loadConfig e1 = Ok (cfg, e2) /\ journal e2 = journal e) /\
    (forall err, writeError e = Some err ->
     configFile e1 = configFile e /\
     forall cfg0 e0, loadConfig e = Ok (cfg0, e0) ->
       exists e2, loadConfig e1 = Ok (cfg0, e2)).
Proof.
  unfold saveConfig. unfold_monad.
  destruct (writeError e) as [err|] eqn:Hw.
  - eexists. split; [reflexivity|]. split; [discriminate|].
    intros err' _. split; [reflexivity|].
    intros cfg0 e0. unfold loadConfig. unfold_monad. cbn [configFile].
    destruct (ReadInConfig (configFile e)) as [settings [rerr|]];
      destruct (Unmarshal settings defaultConfig) as [cfg1 [uerr|]]; cbn;
      intros [= <- _]; eauto.
  - eexists. split; [reflexivity|]. split; [|discriminate].
    intros _. unfold loadConfig. unfold_monad. cbn [configFile ReadInConfig].
    rewrite Unmarshal_settingsOf. cbn. eauto.
Qed.

Lemma saveConfig_loadConfig_round_trip_witness :
  exists e1 e2,
    saveConfig (mkConfig 7 45 60 60 3) quietEnv = Ok (tt, e1) /\
    loadConfig e1 = Ok (mkConfig 7 45 60 60 3, e2).
Proof.
  destruct (saveConfig_loadConfig_round_trip (mkConfig 7 45 60 60 3) quietEnv)
    as (e1 & E1 & Hok & _).
  destruct (Hok eq_refl) as (e2 & E2 & _).
  exists e1, e2. split; [exact E1 | exact E2].
Defined.

Lemma loadConfig_saved (cfg : Config) (e : Env) :
  configFile e = FileYaml (settingsOf cfg) ->
  loadConfig e = Ok (cfg, e).
Proof.
  intros Hf. unfold loadConfig. unfold_monad. rewrite Hf. cbn [ReadInConfig].
  rewrite Unmarshal_settingsOf. cbn. reflexivity.
Qed.

(** X8: a configuration update survives a restart.  When the tree holds
    the five configuration nodes and the write succeeds, [UpdateConfig]
    returns, and a controller that [NewController] then constructs starts
    with exactly the configuration [UpdateConfig] applied, mirrored in its
    own tree. *)
Theorem UpdateConfig_survives_restart (w : World)
    (va vb vd vf vg : option TypedValue) (targetAddress agentID : string) :
  root (ctl w) !! "config/emitFrequency" = Some va ->
  root (ctl w) !! "config/maxLinkAge" = Some vb ->
  root (ctl w) !! "config/pipelineValidationFrequency" = Some vd ->
  root (ctl w) !! "config/portRediscoveryFrequency" = Some vf ->
  root (ctl w) !! "config/linkPruneFrequency" = Some vg ->
  writeError (env w) = None ->
  exists w' w0,
    UpdateConfig w = Ok (tt, w') /\
    config (ctl w')
    = mkConfig (GetIntVal va) (GetIntVal vb) (GetIntVal vd) (GetIntVal vf) (GetIntVal vg) /\
    boot targetAddress agentID (env w') = Ok w0 /\
    config (ctl w0) = config (ctl w') /\
    configMirrored (config (ctl w0)) (root (ctl w0)).
Proof.
  intros Ha Hb Hd Hf Hg Hw.
  destruct (UpdateConfig_spec w _ _ _ _ _ Ha Hb Hd Hf Hg)
    as (w' & E & Hc & _ & _ & _ & _ & _ & Hok & _).
  destruct (Hok Hw) as [Hfile _].
  assert (Hboot : exists w0, boot targetAddress agentID (env w') = Ok w0 /\
                             config (ctl w0) = config (ctl w')).
  { unfold boot, NewController. mstep. rewrite (loadConfig_saved _ _ Hfile).
    eexists. split; [reflexivity|]. cbn [ctl config]. by rewrite Hc. }
  destruct Hboot as (w0 & Hb0 & Hc0).
  exists w', w0. split; [exact E|]. split; [exact Hc|]. split; [exact Hb0|].
  split; [exact Hc0|]. by apply (boot_mirrors targetAddress agentID (env w')).
Qed.

Lemma UpdateConfig_survives_restart_witness :
  exists w' w0,
    UpdateConfig
      (mkWorld quietEnv (set_root (createConfigRoot "agent1" (mkConfig 7 45 60 60 3))
                                  (ctl configuredWorld))) = Ok (tt, w') /\
    boot "switch1:9559" "agent1" (env w') = Ok w0 /\
    config (ctl w0) = mkConfig 7 45 60 60 3.
Proof.
  destruct (createConfigRoot_mirrors "agent1" (mkConfig 7 45 60 60 3))
    as (Ha & Hb & Hd & Hf & Hg).
  destruct (UpdateConfig_survives_restart
              (mkWorld quietEnv (set_root (createConfigRoot "agent1" (mkConfig 7 45 60 60 3))
                                          (ctl configuredWorld)))
              _ _ _ _ _ "switch1:9559" "agent1" Ha Hb Hd Hf Hg eq_refl)
    as (w' & w0 & E & Hc & Hb0 & Hc0 & _).
  exists w', w0. split; [exact E|]. split; [exact Hb0|]. rewrite Hc0. exact Hc.
Defined.

(** ** [Stopped], outside the handlers *)

Lemma runCall_state_Stopped (call : Call) (w w' : World) :
  runCall call w = Ok (tt, w') -> state (ctl w) = Stopped -> state (ctl w') = Stopped.
Proof.
  destruct call as [| |p e d|mac ip port]; cbn [runCall]; intros E Hs.
  - destruct (Stop_spec w) as (w1 & E1 & Hs1 & _). rewrite E1 in E.
    by injection E as <-.
  - rewrite (UpdateConfig_state _ _ E), Hs. reflexivity.
  - destruct (links (ctl w)) as [|m] eqn:Hl.
    { rewrite (updateIngressLink_nil _ _ _ _ Hl) in E. discriminate. }
    destruct (decide (sameRemote m p e d)) as [Hr|Hr].
    + rewrite (updateIngressLink_repeat _ _ _ _ _ Hl Hr) in E.
      injection E as <-. exact Hs.
    + destruct (updateIngressLink_replace _ _ _ _ _ Hl Hr)
        as (w1 & E1 & _ & _ & _ & _ & Hst & _).
      rewrite E1 in E. injection E as <-. congruence.
  - destruct (hosts (ctl w)) as [|m] eqn:Hh.
    { rewrite (updateHost_nil _ _ _ _ Hh) in E. discriminate. }
    destruct (decide (sameHost m mac ip port)) as [Hr|Hr].
    + rewrite (updateHost_repeat _ _ _ _ _ Hh Hr) in E.
      injection E as <-. exact Hs.
    + destruct (updateHost_replace _ _ _ _ _ Hh Hr)
        as (w1 & E1 & _ & _ & _ & _ & Hst & _).
      rewrite E1 in E. injection E as <-. congruence.
Qed.

Section Parked.
Variables (waitForDeviceConnection waitForPipelineConfiguration
           waitForMastershipArbitration discoverPorts
           programPacketInterceptRules emitLLDPPackets
           validatePipelineConfiguration : M World unit).

Local Abbreviation step' :=
  (step waitForDeviceConnection waitForPipelineConfiguration
        waitForMastershipArbitration discoverPorts
        programPacketInterceptRules emitLLDPPackets
        validatePipelineConfiguration).

Lemma step_parked_Stopped (w w' : World) (pc pc' : PC) :
  step' (w, pc) (w', pc') ->
  state (ctl w) = Stopped -> parked pc ->
  state (ctl w') = Stopped /\ parked pc'.
Proof.
  intros Hstep Hs Hp. unfold parked in *.
  inversion Hstep; subst; try (destruct Hp as [?|[?|?]]; discriminate).
  - congruence.
  - match goal with
    | H : inEnv (logf _ _) _ = _ |- _ => rewrite logf_spec in H; injection H as <-
    end.
    cbn. auto.
  - congruence.
  - auto.
  - split; [|exact Hp]. by eapply runCall_state_Stopped.
Qed.

(** X9: once the state is [Stopped] while the worker is not inside a
    handler (it is at the head of its loop, at the loop condition of the
    steady-state loop, or has returned), no sequence of steps of the
    worker and of calls from other goroutines changes the state again or
    takes the worker into a handler; and the worker can then return. *)
Theorem Stopped_is_kept_outside_handlers (w w' : World) (pc pc' : PC) :
  state (ctl w) = Stopped -> parked pc ->
  (rtc step' (w, pc) (w', pc') -> state (ctl w') = Stopped /\ parked pc') /\
  exists w1, rtc step' (w, pc) (w1, Returned) /\ state (ctl w1) = Stopped.
Proof.
  intros Hs Hp. split.
  - intros Hrtc.
    remember (w, pc) as x eqn:Hx. remember (w', pc') as y eqn:Hy.
    revert w pc Hs Hp Hx. induction Hrtc as [x|x [w1 pc1] z Hstep _ IH]; intros w pc Hs Hp ->.
    + injection Hy as <- <-. auto.
    + destruct (step_parked_Stopped _ _ _ _ Hstep Hs Hp) as [Hs1 Hp1].
      by apply (IH Hy w1 pc1).
  - assert (Hhead : forall w0, state (ctl w0) = Stopped ->
              exists w1, rtc step' (w0, AtLoopHead) (w1, Returned) /\
                         state (ctl w1) = Stopped).
    { intros w0 Hs0. eexists. split.
      - eapply rtc_once. apply step_return; [exact Hs0 | apply logf_spec].
      - exact Hs0. }
    destruct Hp as [->|[->| ->]].
    + by apply Hhead.
    + destruct (Hhead w Hs) as (w1 & Hr & Hs1). exists w1. split; [|exact Hs1].
      eapply rtc_l; [|exact Hr]. apply step_test_leave. congruence.
    + exists w. split; [apply rtc_refl | exact Hs].
Qed.
End Parked.

Lemma Stopped_is_kept_outside_handlers_witness :
  exists w1,
    rtc (step idle idle idle idle idle idle idle)
        (stoppedWorld, AtDiscoveryTest) (w1, Returned) /\
    state (ctl w1) = Stopped.
Proof.
  destruct (Stopped_is_kept_outside_handlers idle idle idle idle idle idle idle
              stoppedWorld stoppedWorld AtDiscoveryTest AtDiscoveryTest
              eq_refl (or_intror (or_introl eq_refl)))
    as [_ Hret].
  exact Hret.
Defined.

(** ** The periods of the tickers *)

Lemma seconds_exact (n : Z) :
  -9223372036 <= n <= 9223372036 -> seconds n = n * Second.
Proof.
  intros Hn. unfold seconds, int64_wrap, Second.
  rewrite Z.mod_small by lia. lia.
Qed.

Lemma seconds_wraps (n : Z) :
  9223372037 <= n <= 18446744073 -> seconds n = n * Second - 2 ^ 64.
Proof.
  intros Hn. unfold seconds, int64_wrap, Second.
  replace (n * 1000000000 + 2 ^ 63)
    with ((n * 1000000000 - 2 ^ 63) + 1 * 2 ^ 64) by lia.
  rewrite Z_mod_plus_full, Z.mod_small by lia. lia.
Qed.

(** [enterDiscovery] gets no further than [time.NewTicker] when one of
    the four periods is not positive. *)
Lemma startTickers_not_positive (w : World) :
  ~ positivePeriods (config (ctl w)) ->
  startTickers w = Panic "non-positive interval for NewTicker".
Proof.
  intros Hnot. unfold startTickers, NewTicker.
  unfold mbind, M_bind, bind, getC, gets, inEnv. cbv beta iota. cbn [env ctl tickers].
  destruct (Z.leb_spec (seconds (EmitFrequency (config (ctl w)))) 0) as [|H1];
    [reflexivity|]. cbv beta iota. cbn [env ctl tickers].
  destruct (Z.leb_spec (seconds (PipelineValidationFrequency (config (ctl w)))) 0)
    as [|H2]; [reflexivity|]. cbv beta iota. cbn [env ctl tickers].
  destruct (Z.leb_spec (seconds (PortRediscoveryFrequency (config (ctl w)))) 0)
    as [|H3]; [reflexivity|]. cbv beta iota. cbn [env ctl tickers].
  destruct (Z.leb_spec (seconds (LinkPruneFrequency (config (ctl w)))) 0)
    as [|H4]; [reflexivity|].
  exfalso. apply Hnot. unfold positivePeriods. auto.
Qed.

Section Periods.
Variables (discoverPorts emitLLDPPackets validatePipelineConfiguration
           : M World unit).

(** X10: [enterDiscovery] creates its tickers, and so can run its loop,
    exactly when the four configured periods are positive as durations;
    otherwise it panics in [time.NewTicker] before the loop is entered.  A
    period of [n] seconds is positive for [n] from 1 to 9223372036, is not
    positive for [n] from -9223372036 to 0, and wraps around to a negative
    duration for [n] from 9223372037 to 18446744073. *)
Theorem enterDiscovery_panics_unless_periods_positive
    (rounds : list Round) (w : World) :
  (positivePeriods (config (ctl w)) ->
   exists w', startTickers w = Ok (tt, w') /\ ctl w' = ctl w /\
     enterDiscovery discoverPorts emitLLDPPackets validatePipelineConfiguration rounds w
     = discoveryLoop discoverPorts emitLLDPPackets validatePipelineConfiguration
         rounds w') /\
  (~ positivePeriods (config (ctl w)) ->
   enterDiscovery discoverPorts emitLLDPPackets validatePipelineConfiguration rounds w
   = Panic "non-positive interval for NewTicker") /\
  (forall n, 1 <= n <= 9223372036 -> 0 < seconds n) /\
  (forall n, -9223372036 <= n <= 0 -> seconds n <= 0) /\
  (forall n, 9223372037 <= n <= 18446744073 -> seconds n < 0).
Proof.
  split; [|split; [|split; [|split]]].
  - intros (H1 & H2 & H3 & H4).
    destruct (startTickers_total w H1 H2 H3 H4) as [w' E].
    exists w'. split; [exact E|].
    split; [by apply startTickers_spec in E as [-> _]|].
    unfold enterDiscovery. unfold mbind, M_bind, bind. by rewrite E.
  - intros Hnot. unfold enterDiscovery. unfold mbind, M_bind, bind.
    by rewrite startTickers_not_positive.
  - intros n Hn. rewrite seconds_exact by lia. unfold Second. lia.
  - intros n Hn. rewrite seconds_exact by lia. unfold Second. lia.
  - intros n Hn. rewrite seconds_wraps by lia. unfold Second. lia.
Qed.
End Periods.

Lemma enterDiscovery_panics_unless_periods_positive_witness :
  EmitFrequency (config (ctl zeroEmitWorld)) = 0 /\
  enterDiscovery idle idle idle [] zeroEmitWorld
  = Panic "non-positive interval for NewTicker".
Proof.
  split; [reflexivity|].
  destruct (enterDiscovery_panics_unless_periods_positive idle idle idle []
              zeroEmitWorld) as (_ & Hpanic & _).
  apply Hpanic. intros (H1 & _). vm_compute in H1. discriminate.
Defined.

(** ** The host registry: refresh or replace *)

Lemma updateHost_holds (w : World) (m : gmap string Host)
    (mac ip : string) (port : N) :
  hosts (ctl w) = MadeMap m ->
  exists w1 m1,
    updateHost mac ip port w = Ok (tt, w1) /\
    hosts (ctl w1) = MadeMap m1 /\
    sameHost m1 mac ip port /\
    (forall k, k <> mac -> m1 !! k = m !! k).
Proof.
  intros Hh.
  destruct (decide (sameHost m mac ip port)) as [Hs|Hs].
  - eexists _, _. split; [apply (updateHost_repeat _ _ _ _ _ Hh Hs)|].
    cbn. split; [reflexivity|]. split.
    + destruct Hs as (h & Hm & Hmac & Hip & Hport).
      exists (with_host_LastUpdate (clock (env w) (reads (env w))) h).
      rewrite lookup_alter_eq, Hm. auto.
    + intros k Hk. by rewrite lookup_alter_ne.
  - destruct (updateHost_replace _ _ _ _ _ Hh Hs) as (w1 & E & Hh1 & _).
    eexists _, _. split; [exact E|]. split; [exact Hh1|]. split.
    + eexists. rewrite lookup_insert_eq. auto.
    + intros k Hk. by rewrite lookup_insert_ne.
Qed.

(** X11: on an allocated host registry, a call of [updateHost mac ip port]
    returns and leaves an entry for [mac] with that address and port.  A
    second call with the same arguments then writes nothing but the time
    stamp of that entry: the other entries, the tree, the notifications
    sent and the log are as before.  A call for [mac] with another address
    or port replaces the entry and sends one more notification, the one
    carrying the new host. *)
Theorem updateHost_refresh_or_replace (w : World) (m : gmap string Host)
    (mac ip : string) (port : N) :
  hosts (ctl w) = MadeMap m ->
  exists w1 h1,
    updateHost mac ip port w = Ok (tt, w1) /\
    map_get (hosts (ctl w1)) mac = Some h1 /\
    MAC h1 = mac /\ IP h1 = ip /\ host_Port h1 = port /\
    (exists w2,
       updateHost mac ip port w1 = Ok (tt, w2) /\
       map_get (hosts (ctl w2)) mac
       = Some (mkHost mac ip port (clock (env w1) (reads (env w1)))) /\
       (forall k, k <> mac -> map_get (hosts (ctl w2)) k = map_get (hosts (ctl w1)) k) /\
       sent (ctl w2) = sent (ctl w1) /\
       root (ctl w2) = root (ctl w1) /\
       journal (env w2) = journal (env w1)) /\
    (forall ip' port', ip' <> ip \/ port' <> port ->
       exists w3,
         updateHost mac ip' port' w1 = Ok (tt, w3) /\
         map_get (hosts (ctl w3)) mac
         = Some (mkHost mac ip' port' (clock (env w1) (2 + reads (env w1))%nat)) /\
         (forall k, k <> mac -> map_get (hosts (ctl w3)) k = map_get (hosts (ctl w1)) k) /\
         sent (ctl w3)
         = hostAdded mac ip' port' (clock (env w1) (reads (env w1)))
             (clock (env w1) (1 + reads (env w1))%nat)
           :: sent (ctl w1)).
Proof.
  intros Hh.
  destruct (updateHost_holds w m mac ip port Hh) as (w1 & m1 & E1 & Hh1 & Hs1 & _).
  pose proof Hs1 as (h1 & Hm1 & Hmac & Hip & Hport).
  exists w1, h1. rewrite Hh1. cbn [map_get].
  split; [exact E1|]. split; [exact Hm1|].
  split; [exact Hmac|]. split; [exact Hip|]. split; [exact Hport|]. split.
  - eexists. split; [apply (updateHost_repeat _ _ _ _ _ Hh1 Hs1)|].
    cbn. rewrite lookup_alter_eq, Hm1. split.
    + cbn. unfold with_host_LastUpdate. by rewrite Hmac, Hip, Hport.
    + split; [|auto]. intros k Hk. by rewrite lookup_alter_ne.
  - intros ip' port' Hdiff.
    assert (Hs : ~ sameHost m1 mac ip' port').
    { intros (h & Hm & _ & Hip' & Hport'). rewrite Hm1 in Hm. injection Hm as <-.
      destruct Hdiff; congruence. }
    destruct (updateHost_replace _ _ _ _ _ Hh1 Hs) as (w3 & E3 & Hh3 & Hsent & _).
    exists w3. rewrite Hh3. cbn [map_get].
    split; [exact E3|]. split; [apply lookup_insert_eq|].
    split; [|exact Hsent]. intros k Hk. by rewrite lookup_insert_ne.
Qed.

Lemma updateHost_refresh_or_replace_witness :
  exists w1 w2 w3,
    updateHost "00:1b:44:11:3a:b7" "10.0.0.7" 3 hostsMade = Ok (tt, w1) /\
    updateHost "00:1b:44:11:3a:b7" "10.0.0.7" 3 w1 = Ok (tt, w2) /\
    sent (ctl w2) = sent (ctl w1) /\
    updateHost "00:1b:44:11:3a:b7" "10.0.0.7" 4 w1 = Ok (tt, w3) /\
    length (sent (ctl w3)) = S (length (sent (ctl w1))).
Proof.
  destruct (updateHost_refresh_or_replace hostsMade ∅
              "00:1b:44:11:3a:b7" "10.0.0.7" 3 eq_refl)
    as (w1 & h1 & E1 & _ & _ & _ & _ & (w2 & E2 & _ & _ & Hsent & _) & Hrep).
  destruct (Hrep "10.0.0.7" 4%N) as (w3 & E3 & _ & _ & Hsent3); [right; discriminate|].
  exists w1, w2, w3. repeat split; try assumption.
  rewrite Hsent3. reflexivity.
Defined.

(** ** The nil host registry *)

(** X12: on the controller [NewController] returns, where [hosts] is the
    nil map, [deleteHost] and [pruneHosts] return: reading and deleting on
    the nil map are harmless.  [hosts] stays nil; a prune pass finds
    nothing to visit and only reads the clock; [deleteHost] still deletes
    the node of the host in the tree and sends its notification. *)
Theorem nil_hosts_reads_and_deletes_return
    (targetAddress agentID : string) (e : Env) :
  exists w,
    boot targetAddress agentID e = Ok w /\
    (forall mac,
       exists w', deleteHost mac w = Ok (tt, w') /\
         hosts (ctl w') = NilMap /\
         sent (ctl w')
         = nodeDeleted (hostNode mac) (clock (env w) (reads (env w))) :: sent (ctl w)) /\
    (forall order, range_order (hosts (ctl w)) order ->
       order = [] /\
       pruneHosts order w = Ok (tt, mkWorld (tick (env w)) (ctl w))).
Proof.
  destruct (boot_total targetAddress agentID e) as (w & Hb & _ & Hh & _).
  exists w. split; [exact Hb|]. split.
  - intros mac. exists (hostRemoved mac w). split; [apply deleteHost_explicit|].
    cbn [hostRemoved ctl hosts sent push_sent set_root set_hosts]. rewrite Hh.
    split; reflexivity.
  - intros order Horder. rewrite Hh in Horder. unfold range_order in Horder.
    cbn [entries] in Horder. apply Permutation_nil_r in Horder. subst order.
    split; [reflexivity|]. rewrite pruneHosts_explicit. reflexivity.
Qed.

(** ** Notifications and the tree *)

(** X13: what [addLinkToTree] and [addHostToTree] tell the subscribe
    responders is what the tree holds afterwards: both return, the
    notification they send is the newest one, it deletes nothing, and each
    of its three updates is a leaf of the tree with the value sent. *)
Theorem add_notifications_match_tree (w : World) :
  (forall (p e : N) (d : string),
     exists w' n,
       addLinkToTree p e d w = Ok (tt, w') /\
       sent (ctl w') = n :: sent (ctl w) /\ Delete n = [] /\ length (Update n) = 3%nat /\
       forall path v, (path, v) ∈ Update n -> root (ctl w') !! path = Some (Some v)) /\
  (forall (mac ip : string) (port : N),
     exists w' n,
       addHostToTree mac ip port w = Ok (tt, w') /\
       sent (ctl w') = n :: sent (ctl w) /\ Delete n = [] /\ length (Update n) = 3%nat /\
       forall path v, (path, v) ∈ Update n -> root (ctl w') !! path = Some (Some v)).
Proof.
  split.
  - intros p e d. eexists _, _. split; [apply addLinkToTree_spec|].
    cbn [linkMirrored ctl sent root push_sent set_root linkAdded Delete Update].
    split; [reflexivity|]. split; [reflexivity|]. split; [reflexivity|].
    intros path v Hin. unfold AddPath.
    repeat (apply elem_of_cons in Hin as [[= -> ->]|Hin]).
    + rewrite !lookup_insert_ne
        by (intros Heq; do 2 apply String.app_inj in Heq; discriminate).
      apply lookup_insert_eq.
    + rewrite lookup_insert_ne
        by (intros Heq; do 2 apply String.app_inj in Heq; discriminate).
      apply lookup_insert_eq.
    + apply lookup_insert_eq.
    + by apply elem_of_nil in Hin.
  - intros mac ip port. eexists _, _. split; [apply addHostToTree_spec|].
    cbn [hostMirrored ctl sent root push_sent set_root hostAdded Delete Update].
    split; [reflexivity|]. split; [reflexivity|]. split; [reflexivity|].
    intros path v Hin. unfold AddPath.
    repeat (apply elem_of_cons in Hin as [[= -> ->]|Hin]).
    + rewrite !lookup_insert_ne by (intros Heq; vm_compute in Heq; discriminate).
      apply lookup_insert_eq.
    + rewrite lookup_insert_ne
        by (intros Heq; do 2 apply String.app_inj in Heq; discriminate).
      apply lookup_insert_eq.
    + apply lookup_insert_eq.
    + by apply elem_of_nil in Hin.
Qed.

Lemma nil_hosts_reads_and_deletes_return_witness :
  exists w',
    deleteHost "00:1b:44:11:3a:b7" freshWorld = Ok (tt, w') /\
    hosts (ctl w') = NilMap /\
    pruneHosts [] freshWorld = Ok (tt, mkWorld (tick (env freshWorld)) (ctl freshWorld)).
Proof.
  destruct (nil_hosts_reads_and_deletes_return "switch1:9559" "agent1" quietEnv)
    as (w & Hb & Hdel & Hprune).
  rewrite boot_freshWorld in Hb. injection Hb as <-.
  destruct (Hdel "00:1b:44:11:3a:b7") as (w' & E & Hh & _).
  exists w'. split; [exact E|]. split; [exact Hh|].
  assert (Hnone : range_order (hosts (ctl freshWorld)) [])
    by (unfold range_order; reflexivity).
  exact (proj2 (Hprune [] Hnone)).
Defined.

(** ** The snapshot of a coherent registry *)

Lemma GetLinks_members (m : gmap N Link) (order : list (N * Link)) :
  linksCoherent (MadeMap m) ->
  order ≡ₚ map_to_list m ->
  (forall l,
     l ∈ SliceStable (fun a b => (IngressPort a <? IngressPort b)%N) order.*2
     <-> m !! IngressPort l = Some l) /\
  StronglySorted N.lt
    (IngressPort <$> SliceStable (fun a b => (IngressPort a <? IngressPort b)%N) order.*2) /\
  NoDup
    (IngressPort <$> SliceStable (fun a b => (IngressPort a <? IngressPort b)%N) order.*2) /\
  length (SliceStable (fun a b => (IngressPort a <? IngressPort b)%N) order.*2)
  = length (map_to_list m).
Proof.
  intros Hc Horder.
  assert (Hperm : SliceStable (fun a b => (IngressPort a <? IngressPort b)%N) order.*2
                  ≡ₚ (map_to_list m).*2).
  { rewrite (SliceStable_perm IngressPort). by rewrite Horder. }
  assert (Hkeys : IngressPort <$>
                    SliceStable (fun a b => (IngressPort a <? IngressPort b)%N) order.*2
                  ≡ₚ (map_to_list m).*1).
  { rewrite Hperm. by rewrite coherent_keys. }
  split; [|split; [|split]].
  - intros l. rewrite Hperm, list_elem_of_fmap. split.
    + intros ([k l'] & -> & Hkl). apply elem_of_map_to_list in Hkl.
      cbn. by rewrite (Hc k l' Hkl).
    + intros Hl. exists (IngressPort l, l). split; [reflexivity|].
      by apply elem_of_map_to_list.
  - apply StronglySorted_le_lt.
    + eapply StronglySorted_fmap; [|apply (SliceStable_sorted IngressPort)].
      intros x y Hxy. exact Hxy.
    + rewrite Hkeys. apply NoDup_fst_map_to_list.
  - rewrite Hkeys. apply NoDup_fst_map_to_list.
  - by rewrite Hperm, length_fmap.
Qed.

Lemma evictLink_links_made (limit : Time) (order : list (N * Link)) :
  forall (w : World) (m : gmap N Link),
    links (ctl w) = MadeMap m ->
    exists m', links (ctl (foldl (evictLink limit) w order)) = MadeMap m'.
Proof.
  induction order as [|[k l] order IH]; intros w m Hl; [eauto|].
  cbn [foldl]. unfold evictLink at 2. cbn [fst snd].
  destruct (Time_Before (link_LastUpdate l) limit); [|by apply (IH w m)].
  apply (IH _ (delete k m)). cbn. by rewrite Hl.
Qed.

Lemma runOp_links_made (op : Op) (w w' : World) (m : gmap N Link) :
  links (ctl w) = MadeMap m ->
  runOp op w = Ok (tt, w') ->
  exists m', links (ctl w') = MadeMap m'.
Proof.
  intros Hl.
  destruct op as [p e d|mac ip port|order|order|p|mac]; cbn [runOp]; intros E.
  - destruct (updateIngressLink_holds w m p e d Hl) as (w1 & m1 & E1 & Hl1 & _).
    rewrite E1 in E. injection E as <-. eauto.
  - destruct (hosts (ctl w)) as [|hm] eqn:Hh.
    { rewrite (updateHost_nil _ _ _ _ Hh) in E. discriminate. }
    destruct (decide (sameHost hm mac ip port)) as [Hs|Hs].
    + rewrite (updateHost_repeat _ _ _ _ _ Hh Hs) in E. injection E as <-. eauto.
    + destruct (updateHost_replace _ _ _ _ _ Hh Hs)
        as (w1 & E1 & _ & _ & _ & Hl1 & _).
      rewrite E1 in E. injection E as <-. rewrite Hl1. eauto.
  - rewrite pruneLinks_explicit in E. injection E as <-.
    by apply (evictLink_links_made _ _ _ m).
  - apply pruneHosts_sub in E as (_ & Hl' & _). rewrite Hl'. eauto.
  - rewrite deleteLink_explicit in E. injection E as <-. cbn. rewrite Hl. eauto.
  - rewrite deleteHost_explicit in E. injection E as <-. cbn. eauto.
Qed.

Lemma reachable_links_coherent (targetAddress agentID : string) (e : Env)
    (w0 w : World) :
  boot targetAddress agentID e = Ok w0 ->
  reachable w0 w ->
  coherent w /\ exists m, links (ctl w) = MadeMap m.
Proof.
  intros Hb Hr. induction Hr as [|w1 w2 op _ [IHc [m IHm]] _ E].
  - destruct (boot_total targetAddress agentID e) as (w & Hb' & Hl & Hh & _).
    rewrite Hb' in Hb. injection Hb as <-. split; [|by eexists].
    unfold coherent. rewrite Hl, Hh.
    split; intros k x; cbn; [by rewrite lookup_empty | done].
  - split; [by apply (runOp_coherent op w1 w2) | by apply (runOp_links_made op w1 w2 m)].
Qed.

(** X14: the registry never shows two links for one ingress port.  On
    every controller reached from the one [NewController] returns by
    registry operations that return, and for every visiting order,
    [GetLinks] returns a list whose ingress ports are strictly ascending,
    hence without a duplicate, that has one element per entry of the
    registry, and in which a link occurs exactly when the registry holds
    it under its own ingress port. *)
Theorem GetLinks_no_duplicate_ports (targetAddress agentID : string) (e : Env)
    (w0 w : World) (order : list (N * Link)) :
  boot targetAddress agentID e = Ok w0 ->
  reachable w0 w ->
  range_order (links (ctl w)) order ->
  exists ls,
    GetLinks order w = Ok (ls, w) /\
    StronglySorted N.lt (IngressPort <$> ls) /\
    NoDup (IngressPort <$> ls) /\
    length ls = length (entries (links (ctl w))) /\
    (forall l, l ∈ ls <-> map_get (links (ctl w)) (IngressPort l) = Some l).
Proof.
  intros Hb Hr Horder.
  destruct (reachable_links_coherent _ _ _ _ _ Hb Hr) as [[Hc _] [m Hl]].
  rewrite Hl in *. unfold range_order in Horder. cbn [entries map_get] in *.
  destruct (GetLinks_members m order Hc Horder) as (Hin & Hsorted & Hnodup & Hlen).
  eexists. split; [apply GetLinks_spec|].
  split; [exact Hsorted|]. split; [exact Hnodup|]. split; [|exact Hin].
  exact Hlen.
Qed.

Lemma GetLinks_no_duplicate_ports_witness :
  exists ls,
    GetLinks (entries (links (ctl twoLinksLeft))) twoLinksLeft = Ok (ls, twoLinksLeft) /\
    IngressPort <$> ls = [3; 5]%N.
Proof.
  destruct (GetLinks_no_duplicate_ports "switch1:9559" "agent1" quietEnv
              freshWorld twoLinksLeft (entries (links (ctl twoLinksLeft)))
              boot_freshWorld twoLinksLeft_reachable)
    as (ls & E & _).
  { unfold range_order. reflexivity. }
  exists ls. split; [exact E|].
  rewrite GetLinks_spec in E. injection E as <-. vm_compute. reflexivity.
Defined.

(** X15: the snapshot follows the registry.  On an allocated, coherent
    registry, after [updateIngressLink p e d] every snapshot [GetLinks]
    returns holds exactly one link with ingress port [p], the one with
    remote end [(e, d)], and for the other ports exactly the links the
    registry held before; after a [deleteLink p] that follows, every
    snapshot holds no link with ingress port [p] and exactly the links of
    the other ports that the registry held before. *)
Theorem GetLinks_follows_update_and_delete (w : World) (m : gmap N Link)
    (p e : N) (d : string) :
  links (ctl w) = MadeMap m ->
  linksCoherent (links (ctl w)) ->
  exists w1 l1 w2,
    updateIngressLink p e d w = Ok (tt, w1) /\
    IngressPort l1 = p /\ EgressPort l1 = e /\ EgressDeviceID l1 = d /\
    (forall order ls,
       range_order (links (ctl w1)) order -> GetLinks order w1 = Ok (ls, w1) ->
       l1 ∈ ls /\
       (forall l, l ∈ ls -> IngressPort l = p -> l = l1) /\
       (forall l, IngressPort l <> p -> (l ∈ ls <-> m !! IngressPort l = Some l))) /\
    deleteLink p w1 = Ok (tt, w2) /\
    (forall order ls,
       range_order (links (ctl w2)) order -> GetLinks order w2 = Ok (ls, w2) ->
       forall l, l ∈ ls <-> IngressPort l <> p /\ m !! IngressPort l = Some l).
Proof.
  intros Hl Hc.
  destruct (updateIngressLink_holds w m p e d Hl)
    as (w1 & m1 & E1 & Hl1 & (l1 & Hm1 & He & Hd) & Hother).
  destruct (updateIngressLink_coherent _ _ _ _ _ E1 Hc) as [Hc1 _].
  rewrite Hl1 in Hc1.
  assert (Hc2 : linksCoherent (MadeMap (delete p m1))).
  { intros k l Hk. cbn in Hk. apply lookup_delete_Some in Hk as [_ Hk].
    by apply (Hc1 k l). }
  exists w1, l1, (linkRemoved p w1).
  split; [exact E1|]. split; [exact (Hc1 p l1 Hm1)|].
  split; [exact He|]. split; [exact Hd|]. split; [|split].
  - intros order ls Horder E. rewrite GetLinks_spec in E. injection E as <-.
    rewrite Hl1 in Horder. unfold range_order in Horder. cbn [entries] in Horder.
    destruct (GetLinks_members m1 order Hc1 Horder) as (Hin & _).
    split; [|split].
    + apply Hin. by rewrite (Hc1 p l1 Hm1).
    + intros l Hl' Hp. apply Hin in Hl'. rewrite Hp in Hl'. congruence.
    + intros l Hp. rewrite Hin. by rewrite Hother.
  - apply deleteLink_explicit.
  - intros order ls Horder E. rewrite GetLinks_spec in E. injection E as <-.
    cbn [linkRemoved ctl links push_sent set_root set_links] in Horder.
    rewrite Hl1 in Horder. unfold range_order in Horder.
    cbn [entries map_delete] in Horder.
    destruct (GetLinks_members (delete p m1) order Hc2 Horder) as (Hin & _).
    intros l. rewrite Hin, lookup_delete_Some. split.
    + intros [Hp Hk]. split; [congruence|]. rewrite <- Hother; [exact Hk | congruence].
    + intros [Hp Hk]. split; [congruence|]. rewrite Hother; [exact Hk | congruence].
Qed.

Lemma oneLink_coherent : linksCoherent (links (ctl oneLink)).
Proof.
  assert (E : updateIngressLink 5 7 "deviceB" freshWorld = Ok (tt, oneLink))
    by (vm_compute; reflexivity).
  apply (updateIngressLink_coherent _ _ _ _ _ E).
  intros k l Hk. cbn in Hk. by rewrite lookup_empty in Hk.
Qed.

Lemma GetLinks_follows_update_and_delete_witness :
  exists w1 w2 ls1 ls2,
    updateIngressLink 1 7 "deviceB" oneLink = Ok (tt, w1) /\
    GetLinks (entries (links (ctl w1))) w1 = Ok (ls1, w1) /\
    IngressPort <$> ls1 = [1; 5]%N /\
    deleteLink 1 w1 = Ok (tt, w2) /\
    GetLinks (entries (links (ctl w2))) w2 = Ok (ls2, w2) /\
    IngressPort <$> ls2 = [5]%N.
Proof.
  destruct (GetLinks_follows_update_and_delete oneLink
              (match links (ctl oneLink) with MadeMap m => m | NilMap => ∅ end)
              1 7 "deviceB" eq_refl)
    as (w1 & l1 & w2 & E1 & _ & _ & _ & _ & E2 & _).
  { exact oneLink_coherent. }
  exists w1, w2. 
  assert (Hw1 : w1 = twoLinks).
  { assert (Ht : updateIngressLink 1 7 "deviceB" oneLink = Ok (tt, twoLinks))
      by (vm_compute; reflexivity).
    rewrite Ht in E1. by injection E1 as <-. }
  subst w1.
  assert (Hw2 : w2 = linkRemoved 1 twoLinks).
  { rewrite deleteLink_explicit in E2. by injection E2 as <-. }
  subst w2.
  eexists _, _. split; [exact E1|]. split; [apply GetLinks_spec|].
  split; [vm_compute; reflexivity|]. split; [exact E2|].
  split; [apply GetLinks_spec|]. vm_compute. reflexivity.
Defined.

(** ** A link from its observation to its expiry *)

Lemma updateIngressLink_stamp (w : World) (m : gmap N Link)
    (p e : N) (d : string) :
  links (ctl w) = MadeMap m ->
  exists w1 m1 l1,
    updateIngressLink p e d w = Ok (tt, w1) /\
    links (ctl w1) = MadeMap m1 /\ m1 !! p = Some l1 /\
    EgressPort l1 = e /\ EgressDeviceID l1 = d /\
    link_LastUpdate l1 = clock (env w1) (reads (env w1) - 1)%nat /\
    clock (env w1) = clock (env w) /\
    (reads (env w) < reads (env w1))%nat /\
    (forall q, q <> p -> m1 !! q = m !! q).
Proof.
  intros Hl.
  destruct (decide (sameRemote m p e d)) as [Hs|Hs].
  - pose proof Hs as (l & Hm & He & Hd).
    eexists _, _, _. split; [apply (updateIngressLink_repeat _ _ _ _ _ Hl Hs)|].
    cbn [ctl env links set_links tick clock reads].
    split; [reflexivity|]. split; [by rewrite lookup_alter_eq, Hm|].
    cbn. replace (reads (env w) - 0)%nat with (reads (env w)) by lia.
    repeat split; try done; try lia.
    intros q Hq. by rewrite lookup_alter_ne.
  - destruct (updateIngressLink_replace _ _ _ _ _ Hl Hs)
      as (w1 & E & Hl1 & _ & _ & _ & _ & _ & Hclock & Hreads & _).
    eexists _, _, _. split; [exact E|]. split; [exact Hl1|].
    split; [apply lookup_insert_eq|]. cbn. rewrite Hclock, Hreads.
    replace (3 + reads (env w) - 1)%nat with (2 + reads (env w))%nat by lia.
    repeat split; try done; try lia.
    intros q Hq. by rewrite lookup_insert_ne.
Qed.

(** X16: a link lives thirty seconds past its last observation.  On an
    allocated, coherent registry, [updateIngressLink p e d] stamps the
    link of [p] with the last clock reading of the call; after a
    [pruneLinks] pass that follows, in whatever order, the snapshots
    [GetLinks] returns hold that link exactly when the reading of the pass
    is at most thirty seconds after the stamp, and no link with ingress
    port [p] otherwise. *)
Theorem link_expires_thirty_seconds_after_observation
    (w : World) (m : gmap N Link) (p e : N) (d : string) :
  links (ctl w) = MadeMap m ->
  linksCoherent (links (ctl w)) ->
  exists w1 l1,
    updateIngressLink p e d w = Ok (tt, w1) /\
    IngressPort l1 = p /\ EgressPort l1 = e /\ EgressDeviceID l1 = d /\
    link_LastUpdate l1 = clock (env w1) (reads (env w1) - 1)%nat /\
    forall order, range_order (links (ctl w1)) order ->
      exists w2,
        pruneLinks order w1 = Ok (tt, w2) /\
        forall order2 ls,
          range_order (links (ctl w2)) order2 -> GetLinks order2 w2 = Ok (ls, w2) ->
          (clock (env w1) (reads (env w1)) <= link_LastUpdate l1 + 30 * Second ->
           l1 ∈ ls) /\
          (link_LastUpdate l1 + 30 * Second < clock (env w1) (reads (env w1)) ->
           forall l, l ∈ ls -> IngressPort l <> p).
Proof.
  intros Hl Hc.
  destruct (updateIngressLink_stamp w m p e d Hl)
    as (w1 & m1 & l1 & E1 & Hl1 & Hm1 & He & Hd & Hstamp & _).
  destruct (updateIngressLink_coherent _ _ _ _ _ E1 Hc) as [Hc1 _].
  rewrite Hl1 in Hc1.
  exists w1, l1. split; [exact E1|]. split; [exact (Hc1 p l1 Hm1)|].
  split; [exact He|]. split; [exact Hd|]. split; [exact Hstamp|].
  intros order Horder.
  destruct (pruneLinks_thirty_seconds w1 m1 order Hl1 Horder)
    as (w2 & m2 & E2 & Hl2 & Hlook & _).
  exists w2. split; [exact E2|].
  intros order2 ls Horder2 E. rewrite GetLinks_spec in E. injection E as <-.
  rewrite Hl2 in Horder2. unfold range_order in Horder2. cbn [entries] in Horder2.
  assert (Hc2 : linksCoherent (MadeMap m2)).
  { intros k l Hk. cbn in Hk. rewrite Hlook in Hk. apply (Hc1 k l). cbn.
    destruct (m1 !! k) as [l'|]; [|discriminate]. cbn in Hk.
    by destruct (Time_Before _ _). }
  destruct (GetLinks_members m2 order2 Hc2 Horder2) as (Hin & _).
  split.
  - intros Hage. apply Hin. rewrite (Hc1 p l1 Hm1), Hlook, Hm1.
    unfold afterPrune, Time_Before, Time_Add.
    destruct (Z.ltb_spec (link_LastUpdate l1)
                (clock (env w1) (reads (env w1)) + -30 * Second)); [lia | reflexivity].
  - intros Hage l Hl' Hp. apply Hin in Hl'. rewrite Hp, Hlook, Hm1 in Hl'.
    unfold afterPrune, Time_Before, Time_Add in Hl'.
    destruct (Z.ltb_spec (link_LastUpdate l1)
                (clock (env w1) (reads (env w1)) + -30 * Second));
      [discriminate | lia].
Qed.

Lemma link_expires_thirty_seconds_after_observation_witness :
  exists w2,
    updateIngressLink 1 7 "deviceB" slowFresh = Ok (tt, slowObserved) /\
    pruneLinks [(1%N, slowLink)] slowObserved = Ok (tt, w2) /\
    GetLinks (entries (links (ctl w2))) w2 = Ok ([], w2).
Proof.
  destruct (link_expires_thirty_seconds_after_observation slowFresh ∅ 1 7 "deviceB"
              eq_refl)
    as (w1 & l1 & E1 & _ & _ & _ & _ & Hprune).
  { intros k l Hk. change ((∅ : gmap N Link) !! k = Some l) in Hk.
    by rewrite lookup_empty in Hk. }
  assert (Ht : updateIngressLink 1 7 "deviceB" slowFresh = Ok (tt, slowObserved))
    by (vm_compute; reflexivity).
  rewrite Ht in E1. injection E1 as <-.
  destruct (Hprune [(1%N, slowLink)]) as (w2 & E2 & _).
  { vm_compute. reflexivity. }
  exists w2. split; [exact Ht|]. split; [exact E2|].
  rewrite pruneLinks_explicit in E2. injection E2 as <-.
  vm_compute. reflexivity.
Defined.

(** ** The prune tick of the steady-state loop *)

Lemma evictLink_env (limit : Time) (order : list (N * Link)) :
  forall w : World,
    clock (env (foldl (evictLink limit) w order)) = clock (env w) /\
    reads (env (foldl (evictLink limit) w order))
    = (reads (env w) + length (staleLinks limit order))%nat /\
    hosts (ctl (foldl (evictLink limit) w order)) = hosts (ctl w).
Proof.
  induction order as [|[k l] order IH]; intros w.
  - cbn. repeat split; [lia].
  - cbn [foldl]. destruct (IH (evictLink limit w (k, l))) as (-> & -> & ->).
    unfold staleLinks. rewrite filter_cons. unfold evictLink. cbn [fst snd].
    destruct (Time_Before (link_LastUpdate l) limit) eqn:Hstale.
    + rewrite decide_True by reflexivity. cbn. repeat split; lia.
    + rewrite decide_False by congruence. repeat split; reflexivity.
Qed.

Lemma pruneHosts_lookup (w : World) (order : list (string * Host)) :
  range_order (hosts (ctl w)) order ->
  exists w',
    pruneHosts order w = Ok (tt, w') /\
    (forall k, map_get (hosts (ctl w')) k
               = afterPruneHost (clock (env w) (reads (env w)))
                   (map_get (hosts (ctl w)) k)) /\
    links (ctl w') = links (ctl w) /\ state (ctl w') = state (ctl w) /\
    config (ctl w') = config (ctl w).
Proof.
  intros Horder. unfold range_order in Horder.
  eexists. split; [apply pruneHosts_explicit|].
  destruct (hosts (ctl w)) as [|m] eqn:Hh; cbn [entries] in Horder.
  - apply Permutation_nil_r in Horder. subst order.
    cbn [foldl ctl]. rewrite Hh. repeat split; reflexivity.
  - set (limit := Time_Add (clock (env w) (reads (env w))) (-30 * Minute)).
    destruct (evictHost_hosts limit order (mkWorld (tick (env w)) (ctl w)) m Hh)
      as (Hh' & Hl' & Hs' & Hc').
    rewrite Hh'. split; [|auto]. intros k. cbn [map_get].
    by rewrite (foldl_evict_lookup (fun h => Time_Before (host_LastUpdate h) limit)
                  order m k Horder).
Qed.

Section PruneTick.
Variables (discoverPorts emitLLDPPackets validatePipelineConfiguration
           : M World unit).

(** X17: the prune tick of the steady-state loop returns on every
    controller whose link registry is allocated, the one [NewController]
    returns included (its nil host registry is only read).  It evicts the
    links last updated more than thirty seconds before the first clock
    reading of the tick, and then the hosts last updated more than thirty
    minutes before the reading the host pass takes, which comes after one
    reading per evicted link; state and configuration are untouched. *)
Theorem prune_tick_evicts_links_then_hosts (w : World) (m : gmap N Link)
    (linkOrder : list (N * Link)) (hostOrder : list (string * Host)) :
  links (ctl w) = MadeMap m ->
  range_order (links (ctl w)) linkOrder ->
  range_order (hosts (ctl w)) hostOrder ->
  exists w' m',
    onTick discoverPorts emitLLDPPackets validatePipelineConfiguration
      (TickPrune linkOrder hostOrder) w = Ok (tt, w') /\
    links (ctl w') = MadeMap m' /\
    (forall k, m' !! k = afterPrune (clock (env w) (reads (env w))) (m !! k)) /\
    (forall k,
       map_get (hosts (ctl w')) k
       = afterPruneHost
           (clock (env w)
              (S (reads (env w))
               + length (staleLinks
                           (Time_Add (clock (env w) (reads (env w))) (-30 * Second)%Z)
                           linkOrder))%nat)
           (map_get (hosts (ctl w)) k)) /\
    state (ctl w') = state (ctl w) /\ config (ctl w') = config (ctl w).
Proof.
  intros Hl Hlo Hho.
  destruct (pruneLinks_thirty_seconds w m linkOrder Hl Hlo)
    as (w1 & m1 & E1 & Hl1 & Hlook & Hh1 & Hs1 & Hc1 & _).
  assert (Henv : clock (env w1) = clock (env w) /\
                 reads (env w1)
                 = (S (reads (env w))
                    + length (staleLinks
                                (Time_Add (clock (env w) (reads (env w))) (-30 * Second)%Z)
                                linkOrder))%nat).
  { rewrite pruneLinks_explicit in E1. injection E1 as <-.
    destruct (evictLink_env (Time_Add (clock (env w) (reads (env w))) (-30 * Second))
                linkOrder (mkWorld (tick (env w)) (ctl w))) as (Hck & Hrd & _).
    split; [exact Hck | exact Hrd]. }
  destruct Henv as [Hck Hrd].
  rewrite <- Hh1 in Hho.
  destruct (pruneHosts_lookup w1 hostOrder Hho) as (w2 & E2 & Hhosts & Hl2 & Hs2 & Hc2).
  exists w2, m1. split.
  { cbn [onTick]. unfold mbind, M_bind, bind. rewrite E1. exact E2. }
  split; [congruence|]. split; [exact Hlook|]. split; [|split; congruence].
  intros k. rewrite Hhosts, Hck, Hrd, Hh1. reflexivity.
Qed.
End PruneTick.

Lemma prune_tick_evicts_links_then_hosts_witness :
  exists w',
    onTick idle idle idle (TickPrune [(1%N, slowLink)] []) slowObserved = Ok (tt, w') /\
    map_get (links (ctl w')) 1%N = None /\
    (forall k, map_get (hosts (ctl w')) k = None) /\
    state (ctl w') = state (ctl slowObserved).
Proof.
  destruct (prune_tick_evicts_links_then_hosts idle idle idle slowObserved
              (match links (ctl slowObserved) with MadeMap m => m | NilMap => ∅ end)
              [(1%N, slowLink)] [] eq_refl)
    as (w' & m' & E & Hl & Hlook & Hhosts & Hs & _).
  { vm_compute. reflexivity. }
  { unfold range_order. reflexivity. }
  exists w'. split; [exact E|]. split; [|split; [|exact Hs]].
  - rewrite Hl. cbn [map_get]. rewrite Hlook. vm_compute. reflexivity.
  - intros k. rewrite Hhosts. reflexivity.
Defined.

(** ** Reconfiguration while discovering *)

Section Reconfiguration.
Variables (waitForDeviceConnection waitForPipelineConfiguration
           waitForMastershipArbitration discoverPorts
           programPacketInterceptRules emitLLDPPackets
           validatePipelineConfiguration : M World unit).

Local Abbreviation step' :=
  (step waitForDeviceConnection waitForPipelineConfiguration
        waitForMastershipArbitration discoverPorts
        programPacketInterceptRules emitLLDPPackets
        validatePipelineConfiguration).

(** X18: a configuration update restarts the steady-state loop.  When the
    state is [Configured] and the tree holds the configuration [cfg],
    [UpdateConfig] returns with the state [Reconfigured] and [cfg] as the
    in-memory configuration.  The worker, at its next test of the loop
    condition, leaves the loop, runs [reenterDiscovery] and is dispatched
    to [enterDiscovery] again, in state [Configured], with the registries,
    the tree and the tickers created so far as they were.  There
    [enterDiscovery] creates four more tickers with the periods of [cfg]
    when these are positive, and panics in [time.NewTicker] when one of
    them is not. *)
Theorem UpdateConfig_restarts_discovery (w : World) (cfg : Config) :
  state (ctl w) = Configured ->
  configMirrored cfg (root (ctl w)) ->
  exists w1 w2,
    UpdateConfig w = Ok (tt, w1) /\
    state (ctl w1) = Reconfigured /\ config (ctl w1) = cfg /\
    rtc step' (w1, AtDiscoveryTest) (w2, Dispatched Configured) /\
    state (ctl w2) = Configured /\ config (ctl w2) = cfg /\
    links (ctl w2) = links (ctl w) /\ hosts (ctl w2) = hosts (ctl w) /\
    root (ctl w2) = root (ctl w) /\ tickers (env w2) = tickers (env w) /\
    (positivePeriods cfg ->
     exists w3,
       step' (w2, Dispatched Configured) (w3, AtDiscoveryTest) /\
       ctl w3 = ctl w2 /\
       tickers (env w3) = (tickers (env w) ++ discoveryTickers cfg)%list) /\
    (~ positivePeriods cfg ->
     forall rounds,
       enterDiscovery discoverPorts emitLLDPPackets validatePipelineConfiguration
         rounds w2
       = Panic "non-positive interval for NewTicker").
Proof.
  intros Hs (Ha & Hb & Hd & Hf & Hg).
  destruct (UpdateConfig_spec w _ _ _ _ _ Ha Hb Hd Hf Hg)
    as (w1 & E & Hc1 & Hs1 & Hl1 & Hh1 & Hr1 & _).
  cbn [GetIntVal] in Hc1.
  assert (Hcfg : config (ctl w1) = cfg) by (rewrite Hc1; by destruct cfg).
  assert (Hst : state (ctl w1) = Reconfigured).
  { rewrite Hs1, Hs. reflexivity. }
  pose proof (UpdateConfig_tickers _ _ E) as Ht1.
  set (w2 := mkWorld (env w1) (set_state Configured (ctl w1))).
  exists w1, w2. split; [exact E|]. split; [exact Hst|]. split; [exact Hcfg|].
  split.
  { eapply rtc_l; [apply step_test_leave; congruence|].
    eapply rtc_l; [apply step_read; congruence|]. rewrite Hst.
    eapply rtc_l; [apply (step_handler _ _ _ _ _ _ _ w1 Reconfigured w2);
                   [discriminate | apply reenterDiscovery_spec]|].
    eapply rtc_l; [apply (step_read _ _ _ _ _ _ _ w2); discriminate|].
    apply rtc_refl. }
  split; [reflexivity|]. split; [exact Hcfg|].
  split; [exact Hl1|]. split; [exact Hh1|]. split; [exact Hr1|]. split; [exact Ht1|].
  split.
  - intros (H1 & H2 & H3 & H4).
    assert (Hc2 : config (ctl w2) = cfg) by exact Hcfg.
    destruct (startTickers_total w2) as [w3 E3]; try (rewrite Hc2; assumption).
    exists w3. split; [by apply step_enter|].
    apply startTickers_spec in E3 as [Hctl Htk]. split; [exact Hctl|].
    rewrite Htk, Hc2. cbn [w2 env]. by rewrite Ht1.
  - intros Hnot rounds. unfold enterDiscovery. unfold mbind, M_bind, bind.
    rewrite startTickers_not_positive; [reflexivity|]. exact (fun H => Hnot (eq_ind _ positivePeriods H _ Hcfg)).
Qed.
End Reconfiguration.

Lemma UpdateConfig_restarts_discovery_witness :
  exists w1 w2,
    UpdateConfig configuredWorld = Ok (tt, w1) /\
    rtc (step idle idle idle idle idle idle idle)
      (w1, AtDiscoveryTest) (w2, Dispatched Configured) /\
    exists w3,
      step idle idle idle idle idle idle idle
        (w2, Dispatched Configured) (w3, AtDiscoveryTest) /\
      tickers (env w3)
      = (tickers (env configuredWorld)
         ++ discoveryTickers (config (ctl configuredWorld)))%list.
Proof.
  destruct (UpdateConfig_restarts_discovery idle idle idle idle idle idle idle
              configuredWorld (config (ctl configuredWorld)))
    as (w1 & w2 & E & _ & _ & Hsteps & _ & _ & _ & _ & _ & _ & Hpos & _).
  { reflexivity. }
  { vm_compute. repeat split; reflexivity. }
  exists w1, w2. split; [exact E|]. split; [exact Hsteps|].
  destruct Hpos as (w3 & Hstep & _ & Htk).
  { vm_compute. repeat split; reflexivity. }
  exists w3. split; [exact Hstep | exact Htk].
Defined.

(** ** The end of the setup *)

Section Setup.
Variables (waitForDeviceConnection waitForPipelineConfiguration
           waitForMastershipArbitration discoverPorts
           programPacketInterceptRules emitLLDPPackets
           validatePipelineConfiguration : M World unit).

Local Abbreviation step' :=
  (step waitForDeviceConnection waitForPipelineConfiguration
        waitForMastershipArbitration discoverPorts
        programPacketInterceptRules emitLLDPPackets
        validatePipelineConfiguration).

(** X19: [setupForDiscovery] always ends in [Configured].  Whenever the
    programming of the intercept rules returns, the handler returns with
    the state [Configured] and everything else as the programming left it,
    whatever the state was then: a [Stopped] written by a [Stop] before or
    during the setup is overwritten.  The worker, back at the head of its
    loop, is then dispatched to [enterDiscovery] and cannot return. *)
Theorem setupForDiscovery_ends_Configured (w w1 : World) :
  programPacketInterceptRules w = Ok (tt, w1) ->
  exists w2,
    setupForDiscovery programPacketInterceptRules w = Ok (tt, w2) /\
    env w2 = env w1 /\ ctl w2 = set_state Configured (ctl w1) /\
    step' (w, Dispatched PortsDiscovered) (w2, AtLoopHead) /\
    step' (w2, AtLoopHead) (w2, Dispatched Configured) /\
    (forall w3, ~ step' (w2, AtLoopHead) (w3, Returned)).
Proof.
  intros E.
  assert (Hsetup : setupForDiscovery programPacketInterceptRules w
                   = Ok (tt, mkWorld (env w1) (set_state Configured (ctl w1)))).
  { unfold setupForDiscovery. unfold mbind, M_bind, bind. rewrite E. reflexivity. }
  exists (mkWorld (env w1) (set_state Configured (ctl w1))).
  split; [exact Hsetup|]. split; [reflexivity|]. split; [reflexivity|].
  split; [|split].
  - apply step_handler; [discriminate | exact Hsetup].
  - apply (step_read _ _ _ _ _ _ _ (mkWorld (env w1) (set_state Configured (ctl w1)))).
    discriminate.
  - intros w3 Hstep. inversion Hstep; subst. cbn in *. discriminate.
Qed.
End Setup.

Lemma setupForDiscovery_ends_Configured_witness :
  state (ctl stoppedWorld) = Stopped /\
  exists w2,
    step idle idle idle idle idle idle idle
      (stoppedWorld, Dispatched PortsDiscovered) (w2, AtLoopHead) /\
    state (ctl w2) = Configured.
Proof.
  split; [reflexivity|].
  destruct (setupForDiscovery_ends_Configured idle idle idle idle idle idle idle
              stoppedWorld stoppedWorld eq_refl)
    as (w2 & _ & _ & Hctl & Hstep & _).
  exists w2. split; [exact Hstep|]. rewrite Hctl. reflexivity.
Defined.
